(** * g10/key-check.c: duplicate removal and reordering of key signatures

    A shallow embedding of [sig_comparison] and [key_check_all_keysigs]
    from g10/key-check.c.  The keyblock is a singly linked list of nodes
    living in a heap; the functions below follow the pointer operations of
    the C code, with every list walk bounded by a fuel argument. *)

From Stdlib Require Import ZArith List Lia Permutation Sorting.Sorted.
From stdpp Require Import base option list gmap sorting.

Local Open Scope Z_scope.

(** ** Data model (packet.h, keydb.h) *)

(** A key id is the C array [u32 keyid[2]]. *)
Abbreviation keyid_t := (Z * Z)%type (only parsing).

Record PKT_public_key := mkPublicKey {
  pk_keyid : keyid_t;
  pk_timestamp : Z;
  pk_pubkey_algo : Z
}.

Record PKT_user_id := mkUserId {
  uid_name : list Z
}.

(** [data] stands for the array [gcry_mpi_t data[PUBKEY_MAX_NSIG]]; reading
    past the end of the list yields [0]. *)
Record PKT_signature := mkSignature {
  keyid : keyid_t;
  pubkey_algo : Z;
  digest_algo : Z;
  sig_class : Z;
  timestamp : Z;
  data : list N;
  flags_checked : bool;
  flags_valid : bool
}.

(** The tagged union [PACKET]; [PktOther t] is a packet of any type that the
    switch statements send to their default branch. *)
Inductive PACKET :=
| PktPublicKey (pk : PKT_public_key)
| PktPublicSubkey (pk : PKT_public_key)
| PktUserId (uid : PKT_user_id)
| PktSignature (sig : PKT_signature)
| PktOther (pkttype : Z).

Abbreviation addr := nat (only parsing).

(** [KBNODE] is a node pointer; [None] is [NULL]. *)
Abbreviation KBNODE := (option nat) (only parsing).

(** A node with its packet.  [pkt] is the content of the packet the node
    points to; [pkt_ptr] is the pointer the packet holds in its union
    ([pkt->pkt.public_key], [pkt->pkt.signature], ...), the identity of the
    object: two nodes that share one object hold equal pointers. *)
Record kbnode_struct := mkNode {
  next : KBNODE;
  pkt : PACKET;
  flag : Z;
  private_flag : Z;
  pkt_ptr : addr
}.

Abbreviation heap_t := (gmap nat kbnode_struct) (only parsing).

(** [is_deleted_kbnode] of kbnode.c tests bit 0 of [private_flag]. *)
Definition is_deleted_kbnode (n : kbnode_struct) : bool :=
  Z.testbit (private_flag n) 0.

(** Selection bits of keyedit.h. *)
Definition NODFLG_SELUID : Z := Z.shiftl 1 8.
Definition NODFLG_SELKEY : Z := Z.shiftl 1 9.

Definition flag_set (n : kbnode_struct) (bit : Z) : bool :=
  negb (Z.land (flag n) bit =? 0).

Definition is_component (p : PACKET) : bool :=
  match p with
  | PktPublicKey _ | PktPublicSubkey _ | PktUserId _ => true
  | _ => false
  end.

Definition is_signature (p : PACKET) : bool :=
  match p with PktSignature _ => true | _ => false end.

(** Modelled from the spec: [keyid_cmp] of keydb.h is not under src/; the
    spec only uses it to decide whether two key ids are equal, and it orders
    the two words lexicographically. *)
Definition keyid_cmp (a b : keyid_t) : Z :=
  if a.1 <? b.1 then -1
  else if a.1 >? b.1 then 1
  else if a.2 <? b.2 then -1
  else if a.2 >? b.2 then 1
  else 0.

(** Modelled from the spec: [gcry_mpi_cmp] belongs to libgcrypt; the spec
    calls it the unsigned big-number comparison.  Only its sign is used. *)
Definition gcry_mpi_cmp (u v : N) : Z :=
  match (u ?= v)%N with Lt => -1 | Eq => 0 | Gt => 1 end.

(** ** External collaborators

    The functions the checker calls but does not define: the table
    [pubkey_get_nsig], the C library's [qsort], key retrieval, the algorithm
    registry and the verification primitive.  Error codes are [gpg_error_t]
    values, [0] meaning success.  [check_signature_over_key_or_uid] receives
    the issuer, the signature, the primary key of the keyblock it is handed
    and the candidate packet. *)
Class Collaborators := {
  pubkey_get_nsig : Z → Z;
  qsort : ∀ {A : Type}, (A → A → Z) → list A → list A;
  get_pubkey : keyid_t → option PKT_public_key;
  openpgp_pk_test_algo : Z → Z;
  openpgp_md_test_algo : Z → Z;
  check_signature_over_key_or_uid :
    PKT_public_key → PKT_signature → PKT_public_key → PACKET → Z
}.

(** What the C standard asks of a comparison function. *)
Record consistent_cmp {A : Type} (cmp : A → A → Z) : Prop := {
  cmp_antisym : ∀ x y, Z.sgn (cmp x y) = - Z.sgn (cmp y x);
  cmp_trans : ∀ x y z, cmp x y ≤ 0 → cmp y z ≤ 0 → cmp x z ≤ 0
}.

Definition cmp_le {A : Type} (cmp : A → A → Z) (x y : A) : Prop := cmp x y ≤ 0.

(** What [qsort] guarantees in return. *)
Class QsortSpec `{Collaborators} : Prop := {
  qsort_perm : ∀ (A : Type) (cmp : A → A → Z) (l : list A),
    consistent_cmp cmp → qsort cmp l ≡ₚ l;
  qsort_sorted : ∀ (A : Type) (cmp : A → A → Z) (l : list A),
    consistent_cmp cmp → StronglySorted (cmp_le cmp) (qsort cmp l)
}.

(** ** [sig_comparison] *)

Section Comparison.
Context `{Collaborators}.

(** The loop [for (i = 0; i < ndataa; i ++)], with [todo] iterations left. *)
Fixpoint sig_comparison_loop (a b : PKT_signature) (i todo : nat) : Z :=
  match todo with
  | O => 0
  | S todo' =>
      let c := gcry_mpi_cmp (nth i (data a) 0%N) (nth i (data b) 0%N) in
      if c =? 0 then sig_comparison_loop a b (S i) todo' else c
  end.

Definition sig_comparison (a b : PKT_signature) : Z :=
  if digest_algo a <? digest_algo b then -1
  else if digest_algo a >? digest_algo b then 1
  else
    let ndataa := pubkey_get_nsig (pubkey_algo a) in
    let ndatab := pubkey_get_nsig (pubkey_algo b) in
    if negb (ndataa =? ndatab) then (if ndataa <? ndatab then -1 else 1)
    else sig_comparison_loop a b 0 (Z.to_nat ndataa).
End Comparison.

(** ** Outcomes of a run

    [AssertFail]: a [log_assert] failed and the process stops.
    [Fault]: a pointer that is not a live node was dereferenced.
    [OutOfFuel]: a list walk was cut short by the fuel bound. *)
Inductive result (A : Type) : Type :=
| Ok (x : A)
| AssertFail
| Fault
| OutOfFuel.
Arguments Ok {A} x.
Arguments AssertFail {A}.
Arguments Fault {A}.
Arguments OutOfFuel {A}.

Definition bind {A B : Type} (m : result A) (k : A → result B) : result B :=
  match m with
  | Ok x => k x
  | AssertFail => AssertFail
  | Fault => Fault
  | OutOfFuel => OutOfFuel
  end.

Notation "'let*' x ':=' m 'in' k" := (bind m (fun x => k))
  (at level 10, x name, m at level 100, k at level 200).

Definition deref (h : heap_t) (a : addr) : result kbnode_struct :=
  match h !! a with
  | Some nd => Ok nd
  | None => Fault
  end.

(** The places where the checker classifies a signature; in the source each
    of them writes a diagnostic line that describes the signature.  The
    entries also name the nodes involved.  [EvDuplicate] names the node that
    is unlinked and, as the source does, describes [sigs[i]]. *)
Inductive event :=
| EvAllocError
| EvDuplicate (killed : addr) (sig : PKT_signature)
| EvMissingIssuer (n : addr) (sig : PKT_signature)
| EvUnsupportedPk (n : addr) (sig : PKT_signature)
| EvUnsupportedMd (n : addr) (sig : PKT_signature)
| EvGood (n : addr) (sig : PKT_signature)
| EvOutOfOrder (n : addr) (sig : PKT_signature) (n2 : addr)
| EvBad (n : addr) (sig : PKT_signature).

(** The heap, the local [kb] and the counters of [key_check_all_keysigs]. *)
Record check_state := mkState {
  st_heap : heap_t;
  st_kb : KBNODE;
  dups : Z;
  missing_issuer : Z;
  reordered : Z;
  bad_signature : Z;
  missing_selfsig : Z;
  modified : Z;
  trace : list event
}.

Definition set_heap (s : check_state) (h : heap_t) : check_state :=
  mkState h (st_kb s) (dups s) (missing_issuer s) (reordered s)
    (bad_signature s) (missing_selfsig s) (modified s) (trace s).

Definition set_kb (s : check_state) (k : KBNODE) : check_state :=
  mkState (st_heap s) k (dups s) (missing_issuer s) (reordered s)
    (bad_signature s) (missing_selfsig s) (modified s) (trace s).

Definition log_event (s : check_state) (e : event) : check_state :=
  mkState (st_heap s) (st_kb s) (dups s) (missing_issuer s) (reordered s)
    (bad_signature s) (missing_selfsig s) (modified s) (trace s ++ [e]).

Definition count_dup (s : check_state) : check_state :=
  mkState (st_heap s) (st_kb s) (dups s + 1) (missing_issuer s) (reordered s)
    (bad_signature s) (missing_selfsig s) 1 (trace s).

Definition count_missing_issuer (s : check_state) : check_state :=
  mkState (st_heap s) (st_kb s) (dups s) (missing_issuer s + 1) (reordered s)
    (bad_signature s) (missing_selfsig s) (modified s) (trace s).

Definition count_reordered (s : check_state) : check_state :=
  mkState (st_heap s) (st_kb s) (dups s) (missing_issuer s) (reordered s + 1)
    (bad_signature s) (missing_selfsig s) 1 (trace s).

Definition count_bad (s : check_state) : check_state :=
  mkState (st_heap s) (st_kb s) (dups s) (missing_issuer s) (reordered s)
    (bad_signature s + 1) (missing_selfsig s) (modified s) (trace s).

Definition set_missing_selfsig (s : check_state) (m : Z) : check_state :=
  mkState (st_heap s) (st_kb s) (dups s) (missing_issuer s) (reordered s)
    (bad_signature s) m (modified s) (trace s).

Definition with_next (nd : kbnode_struct) (nx : KBNODE) : kbnode_struct :=
  mkNode nx (pkt nd) (flag nd) (private_flag nd) (pkt_ptr nd).

(** A [KBNODE *]: the address of the local [kb] or of a node's [next]. *)
Inductive kbnode_ptr :=
| AddrOfKb
| AddrOfNext (a : addr).

(** [*p = v] *)
Definition store (s : check_state) (p : kbnode_ptr) (v : KBNODE)
  : result check_state :=
  match p with
  | AddrOfKb => Ok (set_kb s v)
  | AddrOfNext a =>
      let* nd := deref (st_heap s) a in
      Ok (set_heap s (<[a := with_next nd v]> (st_heap s)))
  end.

(** [a->next = v] *)
Definition store_next (s : check_state) (a : addr) (v : KBNODE)
  : result check_state :=
  store s (AddrOfNext a) v.

(** ** [key_check_all_keysigs] *)

Section Check.
Context `{Collaborators}.

(** *** First block: duplicates *)

(** [for (nsigs = 0, n = kb; n; n = n->next)] *)
Fixpoint count_sigs (fuel : nat) (h : heap_t) (n : KBNODE) (nsigs : Z)
  : result Z :=
  match n with
  | None => Ok nsigs
  | Some a =>
      match fuel with
      | O => OutOfFuel
      | S fuel' =>
          let* nd := deref h a in
          if is_deleted_kbnode nd then count_sigs fuel' h (next nd) nsigs
          else if is_signature (pkt nd)
               then count_sigs fuel' h (next nd) (nsigs + 1)
               else count_sigs fuel' h (next nd) nsigs
      end
  end.

(** The loop that fills [sigs].  An entry pairs the node pointer with the
    signature record the comparison reads through it: node contents never
    change, and the asserts of [sig_comparison] re-test the packet type
    that selected the entry. *)
Fixpoint collect_sigs (fuel : nat) (h : heap_t) (n : KBNODE)
  : result (list (addr * PKT_signature)) :=
  match n with
  | None => Ok []
  | Some a =>
      match fuel with
      | O => OutOfFuel
      | S fuel' =>
          let* nd := deref h a in
          if is_deleted_kbnode nd then collect_sigs fuel' h (next nd)
          else
            match pkt nd with
            | PktSignature sig =>
                let* rest := collect_sigs fuel' h (next nd) in
                Ok ((a, sig) :: rest)
            | _ => collect_sigs fuel' h (next nd)
            end
      end
  end.

Definition sig_entry_cmp (x y : addr * PKT_signature) : Z :=
  sig_comparison x.2 y.2.

(** [for (prevp = &kb, z = kb; z; prevp = &z->next, z = z->next)
      if (z == sigs[to_kill]) break;] *)
Fixpoint find_prevp (fuel : nat) (h : heap_t) (prevp : kbnode_ptr)
    (z : KBNODE) (to_kill : addr) : result kbnode_ptr :=
  match z with
  | None => Ok prevp
  | Some a =>
      if decide (a = to_kill) then Ok prevp
      else
        match fuel with
        | O => OutOfFuel
        | S fuel' =>
            let* nd := deref h a in
            find_prevp fuel' h (AddrOfNext a) (next nd) to_kill
        end
  end.

(** The block under "Remove sigs[i] from the keyblock": unlink the node,
    release it, count it. *)
Definition remove_duplicate (fuel : nat) (s : check_state) (to_kill : addr)
    (described : PKT_signature) : result check_state :=
  let* prevp := find_prevp fuel (st_heap s) AddrOfKb (st_kb s) to_kill in
  let* nd := deref (st_heap s) to_kill in
  let* s1 := store s prevp (next nd) in
  let s2 := set_heap s1 (delete to_kill (st_heap s1)) in
  Ok (count_dup (log_event s2 (EvDuplicate to_kill described))).

(** [for (i = 1; i < nsigs; i ++)] over the sorted array; [last] is
    [sigs[last_i]], [rest] is [sigs[i..]]. *)
Fixpoint dedup_scan (fuel : nat) (s : check_state)
    (last : addr * PKT_signature) (rest : list (addr * PKT_signature))
  : result check_state :=
  match rest with
  | [] => Ok s
  | cur :: rest' =>
      if sig_comparison last.2 cur.2 =? 0 then
        let* s' := remove_duplicate fuel s last.1 cur.2 in
        dedup_scan fuel s' cur rest'
      else dedup_scan fuel s cur rest'
  end.

Definition remove_duplicates (fuel : nat) (s : check_state)
    (sigs : list (addr * PKT_signature)) : result check_state :=
  match qsort sig_entry_cmp sigs with
  | [] => Ok s
  | first :: rest => dedup_scan fuel s first rest
  end.

(** *** Second block: signatures out of order *)

(** The walk of the search loop once [processed_current_component] is set. *)
Fixpoint search_keyblock (fuel : nat) (h : heap_t) (pk issuer : PKT_public_key)
    (sig : PKT_signature) (current_component : addr) (n2 : KBNODE)
  : result KBNODE :=
  match n2 with
  | None => Ok None
  | Some a =>
      match fuel with
      | O => OutOfFuel
      | S fuel' =>
          let* nd := deref h a in
          if is_deleted_kbnode nd
          then search_keyblock fuel' h pk issuer sig current_component (next nd)
          else if decide (a = current_component)
          then search_keyblock fuel' h pk issuer sig current_component (next nd)
          else if check_signature_over_key_or_uid issuer sig pk (pkt nd) =? 0
          then Ok (Some a)
          else search_keyblock fuel' h pk issuer sig current_component (next nd)
      end
  end.

(** [for (n2 = current_component; n2;
         n2 = (processed_current_component ? n2->next : kb),
         processed_current_component = 1)] *)
Definition find_target (fuel : nat) (h : heap_t) (kb : KBNODE)
    (pk issuer : PKT_public_key) (sig : PKT_signature)
    (current_component : addr) : result KBNODE :=
  let* nd := deref h current_component in
  if is_deleted_kbnode nd
  then search_keyblock fuel h pk issuer sig current_component kb
  else if check_signature_over_key_or_uid issuer sig pk (pkt nd) =? 0
  then Ok (Some current_component)
  else search_keyblock fuel h pk issuer sig current_component kb.

(** From the two algorithm tests to the end of the signature case. *)
Definition place_signature (fuel : nat) (pk issuer : PKT_public_key)
    (s : check_state) (n_prevp : kbnode_ptr) (current_component n : addr)
    (sig : PKT_signature) : result check_state :=
  if negb (openpgp_pk_test_algo (pubkey_algo sig) =? 0)
  then Ok (log_event s (EvUnsupportedPk n sig))
  else if negb (openpgp_md_test_algo (digest_algo sig) =? 0)
  then Ok (log_event s (EvUnsupportedMd n sig))
  else
    let* n2 := find_target fuel (st_heap s) (st_kb s) pk issuer sig
                 current_component in
    match n2 with
    | Some t =>
        if decide (current_component = t) then Ok (log_event s (EvGood n sig))
        else
          let* target := deref (st_heap s) t in
          if negb (is_component (pkt target)) then AssertFail
          else
            (* *n_prevp = n->next *)
            let* nd := deref (st_heap s) n in
            let* s1 := store s n_prevp (next nd) in
            (* n->next = n2->next *)
            let* target1 := deref (st_heap s1) t in
            let* s2 := store_next s1 n (next target1) in
            (* n2->next = n *)
            let* s3 := store_next s2 t (Some n) in
            Ok (count_reordered (log_event s3 (EvOutOfOrder n sig t)))
    | None => Ok (count_bad (log_event s (EvBad n sig)))
    end.

(** The case [PKT_SIGNATURE] of the switch. *)
Definition check_signature_node (fuel : nat) (pk : PKT_public_key)
    (only_selfsigs : bool) (s : check_state) (n_prevp : kbnode_ptr)
    (current_component : KBNODE) (n : addr) (sig : PKT_signature)
  : result check_state :=
  match current_component with
  | None => Ok s
  | Some cc =>
      if keyid_cmp (pk_keyid pk) (keyid sig) =? 0
      then place_signature fuel pk pk s n_prevp cc n sig
      else if only_selfsigs then Ok s
      else
        match get_pubkey (keyid sig) with
        | None => Ok (count_missing_issuer (log_event s (EvMissingIssuer n sig)))
        | Some issuer => place_signature fuel pk issuer s n_prevp cc n sig
        end
  end.

(** The body of the second loop for a node that is not deleted: the new
    state and the new [current_component].  [pk] is the content of the
    primary key and [pk_ptr] the pointer [kb->pkt->pkt.public_key] read at
    the start; [log_assert (n->pkt->pkt.public_key == pk)] compares
    pointers. *)
Definition placement_body (fuel : nat) (pk : PKT_public_key) (pk_ptr : addr)
    (only_selected only_selfsigs : bool) (s : check_state)
    (n_prevp : kbnode_ptr) (current_component : KBNODE)
    (n : addr) (nd : kbnode_struct) : result (check_state * KBNODE) :=
  match pkt nd with
  | PktPublicKey _ =>
      if negb (bool_decide (pkt_ptr nd = pk_ptr)) then AssertFail
      else if only_selected && negb (flag_set nd NODFLG_SELKEY)
      then Ok (s, None)
      else Ok (s, Some n)
  | PktPublicSubkey _ =>
      if only_selected && negb (flag_set nd NODFLG_SELKEY)
      then Ok (s, None)
      else Ok (s, Some n)
  | PktUserId _ =>
      if only_selected && negb (flag_set nd NODFLG_SELUID)
      then Ok (s, None)
      else Ok (s, Some n)
  | PktSignature sig =>
      let* s' := check_signature_node fuel pk only_selfsigs s n_prevp
                   current_component n sig in
      Ok (s', current_component)
  | PktOther _ => Ok (s, current_component)
  end.

(** [for (n_prevp = &kb, n = kb; n;
         n_prevp = (n->next == n_next ? &n->next : n_prevp), n = n_next)];
    [walk] bounds the search loops inside the body. *)
Fixpoint placement_loop (fuel walk : nat) (pk : PKT_public_key)
    (pk_ptr : addr) (only_selected only_selfsigs : bool) (s : check_state)
    (n_prevp : kbnode_ptr) (current_component : KBNODE) (n : KBNODE)
  : result check_state :=
  match n with
  | None => Ok s
  | Some a =>
      match fuel with
      | O => OutOfFuel
      | S fuel' =>
          let* nd := deref (st_heap s) a in
          let n_next := next nd in
          let* r :=
            if is_deleted_kbnode nd then Ok (s, current_component)
            else placement_body walk pk pk_ptr only_selected only_selfsigs
                   s n_prevp current_component a nd in
          let* nd' := deref (st_heap r.1) a in
          let n_prevp' :=
            if decide (next nd' = n_next) then AddrOfNext a else n_prevp in
          placement_loop fuel' walk pk pk_ptr only_selected only_selfsigs
            r.1 n_prevp' r.2 n_next
      end
  end.

(** *** Third block: components without a self-signature *)

Definition selfsig_class_matches (component : PACKET) (sig : PKT_signature)
  : bool :=
  match component with
  | PktPublicKey _ => (sig_class sig =? 0x1f) || (sig_class sig =? 0x20)
  | PktPublicSubkey _ => (sig_class sig =? 0x18) || (sig_class sig =? 0x28)
  | PktUserId _ =>
      (sig_class sig =? 0x10) || (sig_class sig =? 0x11)
      || (sig_class sig =? 0x12) || (sig_class sig =? 0x13)
      || (sig_class sig =? 0x30)
  | _ => false
  end.

(** [for (n = kb; n; n = n->next)] of the last block; returns
    [missing_selfsig]. *)
Fixpoint selfsig_audit (fuel : nat) (h : heap_t) (pk : PKT_public_key)
    (current_component : KBNODE) (has_selfsig : bool) (missing : Z)
    (n : KBNODE) : result Z :=
  match n with
  | None => Ok missing
  | Some a =>
      match fuel with
      | O => OutOfFuel
      | S fuel' =>
          let* nd := deref h a in
          if is_deleted_kbnode nd
          then selfsig_audit fuel' h pk current_component has_selfsig missing
                 (next nd)
          else
            match pkt nd with
            | PktPublicKey _ | PktPublicSubkey _ | PktUserId _ =>
                let missing' :=
                  if bool_decide (current_component ≠ None) && negb has_selfsig
                  then missing + 1 else missing in
                selfsig_audit fuel' h pk (Some a) false missing' (next nd)
            | PktSignature sig =>
                match current_component with
                | None =>
                    selfsig_audit fuel' h pk current_component has_selfsig
                      missing (next nd)
                | Some cc =>
                    if has_selfsig
                    then selfsig_audit fuel' h pk current_component
                           has_selfsig missing (next nd)
                    else if negb (flags_checked sig && flags_valid sig)
                    then selfsig_audit fuel' h pk current_component
                           has_selfsig missing (next nd)
                    else if negb (keyid_cmp (pk_keyid pk) (keyid sig) =? 0)
                    then selfsig_audit fuel' h pk current_component
                           has_selfsig missing (next nd)
                    else
                      let* c := deref h cc in
                      selfsig_audit fuel' h pk current_component
                        (selfsig_class_matches (pkt c) sig) missing (next nd)
                end
            | PktOther _ =>
                let missing' :=
                  if bool_decide (current_component ≠ None) && negb has_selfsig
                  then missing + 1 else missing in
                selfsig_audit fuel' h pk None has_selfsig missing' (next nd)
            end
      end
  end.

(** *** The function

    [alloc_ok] tells whether [xtrycalloc] succeeds.  The result pairs the
    value returned with the final state. *)
Definition initial_state (h : heap_t) (kb : KBNODE) : check_state :=
  mkState h kb 0 0 0 0 0 0 [].

Definition key_check_all_keysigs (fuel : nat) (alloc_ok : bool)
    (h : heap_t) (kb : KBNODE) (only_selected only_selfsigs : bool)
  : result (Z * check_state) :=
  match kb with
  | None => Fault
  | Some pk_node =>
      let* head := deref h pk_node in
      match pkt head with
      | PktPublicKey pk =>
          let s0 := initial_state h kb in
          let* nsigs := count_sigs fuel h kb 0 in
          if nsigs =? 0 then Ok (0, s0)
          else if negb alloc_ok then Ok (0, log_event s0 EvAllocError)
          else
            let* sigs := collect_sigs fuel h kb in
            if negb (Z.of_nat (length sigs) =? nsigs) then AssertFail
            else
              let* s1 := remove_duplicates fuel s0 sigs in
              let* s2 := placement_loop fuel fuel pk (pkt_ptr head)
                           only_selected only_selfsigs s1 AddrOfKb None
                           (st_kb s1) in
              let* missing := selfsig_audit fuel (st_heap s2) pk None false 0
                                (st_kb s2) in
              Ok (modified s2, set_missing_selfsig s2 missing)
      | _ => AssertFail
      end
  end.
End Check.

(** * Keyblocks as lists

    The statements about [key_check_all_keysigs] speak of the sequence of
    nodes a keyblock consists of.  [keyblock D h kb l] says that in heap [h]
    the nodes reached from [kb] are exactly those of [l], in this order, up
    to [NULL], and that each of them has the contents heap [D] gives it
    (all fields but [next]).  For the heap a run starts from, [D] is that
    heap itself. *)

Definition node_in (D h : heap_t) (a : addr) (nx : KBNODE) : Prop :=
  ∃ nd0, D !! a = Some nd0 ∧ h !! a = Some (with_next nd0 nx).

(** The element that follows [a] in [l]. *)
Fixpoint succ_in (l : list addr) (a : addr) : KBNODE :=
  match l with
  | [] => None
  | b :: l' => if decide (b = a) then head l' else succ_in l' a
  end.

Definition keyblock (D h : heap_t) (kb : KBNODE) (l : list addr) : Prop :=
  head l = kb ∧ NoDup l ∧ ∀ a, a ∈ l → node_in D h a (succ_in l a).

(** The nodes reached from [n] by following [next] up to [NULL]; [None]
    when the walk does not end within [fuel] steps or leaves the heap. *)
Fixpoint reach (fuel : nat) (h : heap_t) (n : KBNODE) : option (list addr) :=
  match n with
  | None => Some []
  | Some a =>
      match fuel with
      | O => None
      | S fuel' =>
          match h !! a with
          | Some nd => cons a <$> reach fuel' h (next nd)
          | None => None
          end
      end
  end.

(** The signature held by a node that is not deleted. *)
Definition sig_of (D : heap_t) (a : addr) : option PKT_signature :=
  match D !! a with
  | Some nd =>
      if is_deleted_kbnode nd then None
      else match pkt nd with PktSignature sig => Some sig | _ => None end
  | None => None
  end.

Definition live_sigs (D : heap_t) (l : list addr) : list (addr * PKT_signature) :=
  omap (λ a, (λ sig, (a, sig)) <$> sig_of D a) l.

Definition live_component (D : heap_t) (a : addr) : bool :=
  match D !! a with
  | Some nd => negb (is_deleted_kbnode nd) && is_component (pkt nd)
  | None => false
  end.

(** Node [m] passes the assertion of the second loop on primary keys: if it
    is a primary key that is not deleted, its packet holds the pointer
    [pk_ptr]. *)
Definition primary_ok (D : heap_t) (pk_ptr m : addr) : Prop :=
  ∀ nd pk', D !! m = Some nd → is_deleted_kbnode nd = false →
            pkt nd = PktPublicKey pk' → pkt_ptr nd = pk_ptr.

(** Whether the second loop keeps a component node as [current_component]. *)
Definition selects (only_selected : bool) (nd : kbnode_struct) : bool :=
  match pkt nd with
  | PktPublicKey _ | PktPublicSubkey _ =>
      negb (only_selected && negb (flag_set nd NODFLG_SELKEY))
  | PktUserId _ => negb (only_selected && negb (flag_set nd NODFLG_SELUID))
  | _ => false
  end.

(** [current_component] after the second loop has passed node [a]. *)
Definition step_component (D : heap_t) (only_selected : bool) (cc : KBNODE)
    (a : addr) : KBNODE :=
  match D !! a with
  | Some nd =>
      if is_deleted_kbnode nd then cc
      else if is_component (pkt nd)
      then (if selects only_selected nd then Some a else None)
      else cc
  | None => cc
  end.

(** [current_component] after the nodes of [pre], starting from [cc]. *)
Definition cc_of (D : heap_t) (only_selected : bool) (cc : KBNODE)
    (pre : list addr) : KBNODE :=
  fold_left (step_component D only_selected) pre cc.

(** [current_component] when the second loop stands at node [m] of [l]. *)
Fixpoint context_of (D : heap_t) (only_selected : bool) (cc : KBNODE)
    (l : list addr) (m : addr) : KBNODE :=
  match l with
  | [] => None
  | a :: l' =>
      if decide (a = m) then cc
      else context_of D only_selected (step_component D only_selected cc a) l' m
  end.

Fixpoint insert_after (t n : addr) (l : list addr) : list addr :=
  match l with
  | [] => []
  | a :: l' => if decide (a = t) then a :: n :: l' else a :: insert_after t n l'
  end.

(** The list after node [n] has been unlinked and put behind node [t]. *)
Definition move_after (t n : addr) (l : list addr) : list addr :=
  insert_after t n (filter (λ a, a ≠ n) l).

(** The pointer [n_prevp] for a node whose predecessors are [pre]. *)
Definition prevp_of (pre : list addr) : kbnode_ptr :=
  match last pre with
  | None => AddrOfKb
  | Some a => AddrOfNext a
  end.

(** The classification of a signature by the second loop. *)
Inductive verdict :=
| VSkip
| VMissing
| VUnsupportedPk
| VUnsupportedMd
| VGood
| VMove (t : addr)
| VBad.

#[global] Instance verdict_eq_dec : EqDecision verdict.
Proof. solve_decision. Defined.

Definition is_move (v : verdict) : bool :=
  match v with VMove _ => true | _ => false end.

(** A verdict without the target of a move. *)
Definition squash (v : verdict) : verdict :=
  match v with VMove _ => VMove 0%nat | _ => v end.

Definition moved_of (tr : list event) : list addr :=
  omap (λ e, match e with EvOutOfOrder n _ _ => Some n | _ => None end) tr.

Definition bad_of (tr : list event) : list addr :=
  omap (λ e, match e with EvBad n _ => Some n | _ => None end) tr.

Definition killed_of (tr : list event) : list addr :=
  omap (λ e, match e with EvDuplicate n _ => Some n | _ => None end) tr.

Definition count_events (P : event → bool) (tr : list event) : Z :=
  Z.of_nat (length (filter (λ e, P e = true) tr)).

Definition is_EvDuplicate (e : event) : bool :=
  match e with EvDuplicate _ _ => true | _ => false end.
Definition is_EvMissingIssuer (e : event) : bool :=
  match e with EvMissingIssuer _ _ => true | _ => false end.
Definition is_EvOutOfOrder (e : event) : bool :=
  match e with EvOutOfOrder _ _ _ => true | _ => false end.
Definition is_EvBad (e : event) : bool :=
  match e with EvBad _ _ => true | _ => false end.

(** The counters agree with the trace, and [modified] with the counters. *)
Definition accounted (s : check_state) : Prop :=
  dups s = count_events is_EvDuplicate (trace s)
  ∧ missing_issuer s = count_events is_EvMissingIssuer (trace s)
  ∧ reordered s = count_events is_EvOutOfOrder (trace s)
  ∧ bad_signature s = count_events is_EvBad (trace s)
  ∧ modified s = (if (0 <? dups s + reordered s) then 1 else 0).

(** What the second loop writes down for a verdict on node [n]. *)
Definition record_verdict (v : verdict) (n : addr) (sig : PKT_signature)
    (s : check_state) : check_state :=
  match v with
  | VSkip => s
  | VMissing => count_missing_issuer (log_event s (EvMissingIssuer n sig))
  | VUnsupportedPk => log_event s (EvUnsupportedPk n sig)
  | VUnsupportedMd => log_event s (EvUnsupportedMd n sig)
  | VGood => log_event s (EvGood n sig)
  | VMove t => count_reordered (log_event s (EvOutOfOrder n sig t))
  | VBad => count_bad (log_event s (EvBad n sig))
  end.

(** The verdicts the second loop can reach for a signature, given its
    issuer and the mode. *)
Definition reachable_verdict (pk : PKT_public_key) (only_selfsigs : bool)
    (sig : PKT_signature) (v : verdict) : Prop :=
  match v with
  | VSkip => True
  | VMissing =>
      keyid_cmp (pk_keyid pk) (keyid sig) ≠ 0 ∧ only_selfsigs = false
  | _ => keyid_cmp (pk_keyid pk) (keyid sig) = 0 ∨ only_selfsigs = false
  end.

(** One signature handled by the second loop: the heap and [kb] may change,
    and a verdict is written down. *)
Inductive placement_step (pk : PKT_public_key) (only_selfsigs : bool)
  : check_state → check_state → Prop :=
| placement_step_intro (s : check_state) (h' : heap_t) (kb' : KBNODE)
    (v : verdict) (n : addr) (sig : PKT_signature) :
    reachable_verdict pk only_selfsigs sig v →
    placement_step pk only_selfsigs s
      (record_verdict v n sig (set_kb (set_heap s h') kb')).

(** One duplicate removed by the first block. *)
Inductive dedup_step : check_state → check_state → Prop :=
| dedup_step_intro (s : check_state) (h' : heap_t) (kb' : KBNODE)
    (t : addr) (sig : PKT_signature) :
    dedup_step s
      (count_dup (log_event (set_kb (set_heap s h') kb') (EvDuplicate t sig))).

(** In self-signatures-only mode: an event that relocates a signature or
    counts it as bad concerns a signature issued by [pk], and no event
    reports a missing issuer. *)
Definition selfsig_event (pk : PKT_public_key) (e : event) : Prop :=
  match e with
  | EvMissingIssuer _ _ => False
  | EvOutOfOrder _ sig _ | EvBad _ sig =>
      keyid_cmp (pk_keyid pk) (keyid sig) = 0
  | _ => True
  end.

(** What the last loop does at node [a]: the triple is [current_component],
    [has_selfsig] and [missing_selfsig]. *)
Definition audit_step (D : heap_t) (pk : PKT_public_key)
    (st : KBNODE * bool * Z) (a : addr) : KBNODE * bool * Z :=
  let '(cc, has_selfsig, missing) := st in
  match D !! a with
  | Some nd =>
      if is_deleted_kbnode nd then st
      else
        match pkt nd with
        | PktPublicKey _ | PktPublicSubkey _ | PktUserId _ =>
            (Some a, false,
             if bool_decide (cc ≠ None) && negb has_selfsig
             then missing + 1 else missing)
        | PktSignature sig =>
            match cc with
            | None => st
            | Some c =>
                if has_selfsig then st
                else if negb (flags_checked sig && flags_valid sig) then st
                else if negb (keyid_cmp (pk_keyid pk) (keyid sig) =? 0) then st
                else
                  match D !! c with
                  | Some cnd =>
                      (cc, selfsig_class_matches (pkt cnd) sig, missing)
                  | None => st
                  end
            end
        | PktOther _ =>
            (None, has_selfsig,
             if bool_decide (cc ≠ None) && negb has_selfsig
             then missing + 1 else missing)
        end
  | None => st
  end.

Definition audit (D : heap_t) (pk : PKT_public_key) (l : list addr) : Z :=
  (fold_left (audit_step D pk) l (None, false, 0)).2.

Section Verdicts.
Context `{Collaborators}.

(** The candidate passes the test of the search loop. *)
Definition verifies (D : heap_t) (pk issuer : PKT_public_key)
    (sig : PKT_signature) (a : addr) : bool :=
  match D !! a with
  | Some nd =>
      negb (is_deleted_kbnode nd)
      && (check_signature_over_key_or_uid issuer sig pk (pkt nd) =? 0)
  | None => false
  end.

Fixpoint scan_target (D : heap_t) (pk issuer : PKT_public_key)
    (sig : PKT_signature) (cc : addr) (l : list addr) : KBNODE :=
  match l with
  | [] => None
  | a :: l' =>
      if bool_decide (a ≠ cc) && verifies D pk issuer sig a then Some a
      else scan_target D pk issuer sig cc l'
  end.

(** The node the search loop stops at. *)
Definition target_of (D : heap_t) (pk issuer : PKT_public_key)
    (sig : PKT_signature) (cc : addr) (l : list addr) : KBNODE :=
  if verifies D pk issuer sig cc then Some cc
  else scan_target D pk issuer sig cc l.

Definition classify (D : heap_t) (pk issuer : PKT_public_key)
    (l : list addr) (sig : PKT_signature) (cc : addr) : verdict :=
  if negb (openpgp_pk_test_algo (pubkey_algo sig) =? 0) then VUnsupportedPk
  else if negb (openpgp_md_test_algo (digest_algo sig) =? 0) then VUnsupportedMd
  else
    match target_of D pk issuer sig cc l with
    | Some t => if decide (cc = t) then VGood else VMove t
    | None => VBad
    end.

(** The verdict on signature [sig] when the keyblock is [l] and
    [current_component] is [cc]. *)
Definition judge (D : heap_t) (pk : PKT_public_key) (only_selfsigs : bool)
    (l : list addr) (cc : KBNODE) (sig : PKT_signature) : verdict :=
  match cc with
  | None => VSkip
  | Some c =>
      if keyid_cmp (pk_keyid pk) (keyid sig) =? 0 then classify D pk pk l sig c
      else if only_selfsigs then VSkip
      else
        match get_pubkey (keyid sig) with
        | None => VMissing
        | Some issuer => classify D pk issuer l sig c
        end
  end.

(** The verdict on node [m] at its place in keyblock [l]. *)
Definition verdict_at (D : heap_t) (pk : PKT_public_key)
    (only_selected only_selfsigs : bool) (l : list addr) (m : addr) : verdict :=
  match sig_of D m with
  | Some sig =>
      squash (judge D pk only_selfsigs l
                (context_of D only_selected None l m) sig)
  | None => VSkip
  end.

(** No signature of [l] would be relocated. *)
Definition all_placed (D : heap_t) (pk : PKT_public_key)
    (only_selected only_selfsigs : bool) (l : list addr) : Prop :=
  ∀ m, m ∈ l → is_move (verdict_at D pk only_selected only_selfsigs l m) = false.

Definition count_verdict (D : heap_t) (pk : PKT_public_key)
    (only_selected only_selfsigs : bool) (v : verdict) (l part : list addr) : Z :=
  Z.of_nat (length (filter
    (λ m, verdict_at D pk only_selected only_selfsigs l m = v) part)).

(** No two signatures of [l] are equal under [sig_comparison]. *)
Definition no_duplicates (D : heap_t) (l : list addr) : Prop :=
  ∀ a b sa sb, a ∈ l → b ∈ l → sig_of D a = Some sa → sig_of D b = Some sb →
               sig_comparison sa sb = 0 → a = b.

(** The nodes the scan of the sorted array unlinks: [last] is
    [sigs[last_i]], [rest] is [sigs[i..]]. *)
Fixpoint dedup_kills (last : addr * PKT_signature)
    (rest : list (addr * PKT_signature)) : list addr :=
  match rest with
  | [] => []
  | cur :: rest' =>
      if sig_comparison last.2 cur.2 =? 0
      then last.1 :: dedup_kills cur rest'
      else dedup_kills cur rest'
  end.

(** Signature node [m] stands, in keyblock [l], in the segment of a
    component over which it verifies: the component not deleted that
    precedes it most closely is one for which the verification with the
    signature's issuer succeeds. *)
Definition behind_target (D : heap_t) (pk : PKT_public_key) (l : list addr)
    (m : addr) : Prop :=
  ∃ t sig issuer,
    sig_of D m = Some sig
    ∧ (if keyid_cmp (pk_keyid pk) (keyid sig) =? 0 then issuer = pk
       else get_pubkey (keyid sig) = Some issuer)
    ∧ live_component D t = true
    ∧ verifies D pk issuer sig t = true
    ∧ context_of D false None l m = Some t.
End Verdicts.

(** * The state of the second loop

    [pre] are the nodes before the node the loop stands at, [post] that
    node and those behind it. *)

Section PlacementSpec.
Context `{Collaborators}.
Context (D : heap_t) (pk : PKT_public_key) (only_selected only_selfsigs : bool).

(** The outcome of the signature case for node [n], given the verdict. *)
Definition placed (s : check_state) (pre post : list addr) (n : addr)
    (sig : PKT_signature) (v : verdict) (r : result check_state) : Prop :=
  match v with
  | VMove t =>
      if live_component D t
      then ∃ h3 kb3 ndn,
          r = Ok (record_verdict v n sig (set_kb (set_heap s h3) kb3))
          ∧ keyblock D h3 kb3 (move_after t n (pre ++ n :: post))
          ∧ h3 !! n = Some ndn ∧ next ndn ≠ head post
      else r = AssertFail
  | _ => r = Ok (record_verdict v n sig s)
  end.

(** What holds between two iterations; [L0] and [s0] are the keyblock and
    the state at the start of the loop. *)
Record placement_inv (pk_ptr : addr) (L0 : list addr) (s0 s : check_state)
    (pre post : list addr) : Prop := {
  inv_keyblock : keyblock D (st_heap s) (st_kb s) (pre ++ post);
  inv_perm : pre ++ post ≡ₚ L0;
  inv_head : head (pre ++ post) = head L0;
  inv_primary : ∀ m, m ∈ pre → primary_ok D pk_ptr m;
  inv_settled : ∀ m, m ∈ pre →
    is_move (verdict_at D pk only_selected only_selfsigs (pre ++ post) m)
    = false;
  inv_moved_ok : ∀ m, m ∈ moved_of (trace s) →
    verdict_at D pk only_selected only_selfsigs (pre ++ post) m = VGood
    ∨ verdict_at D pk only_selected only_selfsigs (pre ++ post) m = VSkip;
  inv_moved : NoDup (moved_of (trace s));
  inv_bad_fixed : ∀ n, n ∈ bad_of (trace s) →
    n ∈ pre ∧ n ∉ moved_of (trace s);
  inv_order :
    filter (λ a, a ∉ moved_of (trace s)) (pre ++ post)
    = filter (λ a, a ∉ moved_of (trace s)) L0;
  inv_bad :
    bad_signature s = bad_signature s0
      + count_verdict D pk only_selected only_selfsigs VBad (pre ++ post) pre;
  inv_missing :
    missing_issuer s = missing_issuer s0
      + count_verdict D pk only_selected only_selfsigs VMissing
          (pre ++ post) pre;
  inv_quiet : all_placed D pk only_selected only_selfsigs L0 →
    pre ++ post = L0 ∧ moved_of (trace s) = moved_of (trace s0)
    ∧ st_heap s = st_heap s0 ∧ st_kb s = st_kb s0;
  inv_behind : ∀ m, m ∈ moved_of (trace s) →
    behind_target D pk (pre ++ post) m
}.

(** The number of iterations the loop still needs, at most. *)
Definition placement_measure (s : check_state) (post : list addr) : nat :=
  length post + length (filter (λ a, a ∉ moved_of (trace s)) post).
End PlacementSpec.

(** * What a complete run establishes

    [L0] is the keyblock the run starts from, [L'] the keyblock it leaves,
    [s] the final state.  The clauses on the self-signature count and on
    primary keys concern runs that get past the first block, which needs a
    signature in the keyblock. *)

Section CheckSpec.
Context `{Collaborators}.
Context (D : heap_t) (pk : PKT_public_key) (pk_node : addr).
Context (only_selected only_selfsigs : bool).

Record check_post (h0 : heap_t) (L0 : list addr) (s : check_state)
    (L' : list addr) : Prop := {
  post_keyblock : keyblock D (st_heap s) (st_kb s) L';
  post_head : st_kb s = Some pk_node;
  post_perm : L0 ≡ₚ killed_of (trace s) ++ L';
  post_killed : ∀ a, a ∈ killed_of (trace s) →
    ∃ sa b sb, sig_of D a = Some sa ∧ b ∈ L' ∧ sig_of D b = Some sb
               ∧ sig_comparison sa sb = 0;
  post_no_duplicates : no_duplicates D L';
  post_placed : all_placed D pk only_selected only_selfsigs L';
  post_primary : live_sigs D L0 ≠ [] → ∀ nd0, D !! pk_node = Some nd0 →
    ∀ m, m ∈ L' → primary_ok D (pkt_ptr nd0) m;
  post_moved : NoDup (moved_of (trace s));
  post_bad_fixed : ∀ n, n ∈ bad_of (trace s) →
    n ∈ L' ∧ n ∉ moved_of (trace s);
  post_order :
    filter (λ a, a ∉ moved_of (trace s)) L'
    = filter (λ a, a ∉ moved_of (trace s))
        (filter (λ a, a ∉ killed_of (trace s)) L0);
  post_bad :
    bad_signature s
    = count_verdict D pk only_selected only_selfsigs VBad L' L';
  post_missing :
    missing_issuer s
    = count_verdict D pk only_selected only_selfsigs VMissing L' L';
  post_selfsig : live_sigs D L0 ≠ [] → missing_selfsig s = audit D pk L';
  post_no_sigs : live_sigs D L0 = [] → missing_selfsig s = 0;
  post_accounted : accounted s;
  post_unchanged :
    no_duplicates D L0 → all_placed D pk only_selected only_selfsigs L0 →
    L' = L0 ∧ killed_of (trace s) = [] ∧ moved_of (trace s) = []
    ∧ st_heap s = h0
}.
End CheckSpec.

(** * The shape of a run that returns *)

(** The three ways [key_check_all_keysigs] can return. *)
Inductive run_shape `{Collaborators} (fuel : nat) (alloc_ok : bool)
    (h : heap_t) (kb : KBNODE) (only_selected only_selfsigs : bool)
    (pk : PKT_public_key) (rv : Z) (s : check_state) : Prop :=
  | RunNoSigs :
      count_sigs fuel h kb 0 = Ok 0 →
      rv = 0 → s = initial_state h kb →
      run_shape fuel alloc_ok h kb only_selected only_selfsigs pk rv s
  | RunAllocFailed (nsigs : Z) :
      count_sigs fuel h kb 0 = Ok nsigs → nsigs ≠ 0 →
      alloc_ok = false →
      rv = 0 → s = log_event (initial_state h kb) EvAllocError →
      run_shape fuel alloc_ok h kb only_selected only_selfsigs pk rv s
  | RunChecked (nsigs : Z) (sigs : list (addr * PKT_signature))
        (s1 s2 : check_state) (missing : Z) (pk_ptr : addr) :
      count_sigs fuel h kb 0 = Ok nsigs → nsigs ≠ 0 →
      alloc_ok = true →
      collect_sigs fuel h kb = Ok sigs →
      remove_duplicates fuel (initial_state h kb) sigs = Ok s1 →
      placement_loop fuel fuel pk pk_ptr only_selected only_selfsigs s1
        AddrOfKb None (st_kb s1) = Ok s2 →
      rv = modified s2 → s = set_missing_selfsig s2 missing →
      run_shape fuel alloc_ok h kb only_selected only_selfsigs pk rv s.

(** * The specification's readings of two claims *)

(** The self-signature count as the specification words it: one for every
    component that is not followed, before the next component or unhandled
    packet, by a checked and valid signature of the primary key whose class
    fits the component. *)
Fixpoint followed_by_selfsig (D : heap_t) (pk : PKT_public_key)
    (component : PACKET) (l : list addr) : bool :=
  match l with
  | [] => false
  | a :: l' =>
      match D !! a with
      | Some nd =>
          if is_deleted_kbnode nd then followed_by_selfsig D pk component l'
          else
            match pkt nd with
            | PktSignature sig =>
                (flags_checked sig && flags_valid sig
                 && (keyid_cmp (pk_keyid pk) (keyid sig) =? 0)
                 && selfsig_class_matches component sig)
                || followed_by_selfsig D pk component l'
            | _ => false
            end
      | None => followed_by_selfsig D pk component l'
      end
  end.

Fixpoint spec_missing_selfsig (D : heap_t) (pk : PKT_public_key)
    (l : list addr) : Z :=
  match l with
  | [] => 0
  | a :: l' =>
      (match D !! a with
       | Some nd =>
           if negb (is_deleted_kbnode nd) && is_component (pkt nd)
              && negb (followed_by_selfsig D pk (pkt nd) l')
           then 1 else 0
       | None => 0
       end) + spec_missing_selfsig D pk l'
  end.

(** Whether the last loop ends with a component that it has not counted and
    for which it has seen no self-signature. *)
Definition pending_component (st : KBNODE * bool * Z) : Z :=
  match st with
  | (Some _, false, _) => 1
  | _ => 0
  end.

Definition unterminated (D : heap_t) (pk : PKT_public_key) (l : list addr)
  : Z :=
  pending_component (fold_left (audit_step D pk) l (None, false, 0)).

(** The components the loop has yet to account for when it stands before
    [l] in state [(cc, has, _)]. *)
Definition open_component (D : heap_t) (pk : PKT_public_key)
    (cc : KBNODE) (has : bool) (l : list addr) : Z :=
  match cc with
  | Some c =>
      match D !! c with
      | Some cnd =>
          if has then 0
          else if followed_by_selfsig D pk (pkt cnd) l then 0 else 1
      | None => 0
      end
  | None => 0
  end.

Section Statements.
Context `{Collaborators}.

(** A second run after a first one reports nothing modified and all four
    counters zero. *)
Definition second_run_all_zero (fuel : nat) (h : heap_t) (kb : KBNODE)
    (only_selected only_selfsigs : bool) : Prop :=
  ∀ rv1 s1,
    key_check_all_keysigs fuel true h kb only_selected only_selfsigs
    = Ok (rv1, s1) →
    ∃ rv2 s2,
      key_check_all_keysigs fuel true (st_heap s1) (st_kb s1)
        only_selected only_selfsigs = Ok (rv2, s2)
      ∧ rv2 = 0 ∧ dups s2 = 0 ∧ missing_issuer s2 = 0
      ∧ bad_signature s2 = 0 ∧ reordered s2 = 0.

(** The value returned when the allocation fails differs from the value
    returned for a keyblock that was checked and left as it was. *)
Definition alloc_failure_distinct (fuel : nat) (h_failed h_checked : heap_t)
    (kb : KBNODE) (only_selected only_selfsigs : bool) : Prop :=
  ∀ rv_failed s_failed rv_checked s_checked,
    key_check_all_keysigs fuel false h_failed kb only_selected only_selfsigs
    = Ok (rv_failed, s_failed) →
    key_check_all_keysigs fuel true h_checked kb only_selected only_selfsigs
    = Ok (rv_checked, s_checked) →
    modified s_checked = 0 →
    rv_failed ≠ rv_checked.
End Statements.

(** * An instance to run the model on

    A table for [pubkey_get_nsig], stdpp's merge sort for [qsort], a key
    ring with one foreign key, and a toy verification that accepts a
    signature over the component whose tag equals the signature's
    timestamp. *)
Module Sample.

Definition nsig_table (algo : Z) : Z :=
  if (algo =? 1) || (algo =? 2) || (algo =? 3) then 1
  else if (algo =? 17) || (algo =? 19) || (algo =? 20) || (algo =? 22) then 2
  else 0.

Definition component_tag (p : PACKET) : option Z :=
  match p with
  | PktPublicKey k | PktPublicSubkey k => Some (pk_timestamp k)
  | PktUserId u => head (uid_name u)
  | _ => None
  end.

Definition toy_verify (issuer : PKT_public_key) (sig : PKT_signature)
    (pk : PKT_public_key) (p : PACKET) : Z :=
  if bool_decide (component_tag p = Some (timestamp sig)) then 0 else 8.

Definition keyring (k : Z * Z) : option PKT_public_key :=
  if k.1 =? 7 then Some (mkPublicKey k 0 1) else None.

#[local] Instance cmp_le_dec {A : Type} (cmp : A → A → Z) :
  RelDecision (cmp_le cmp).
Proof. intros x y. unfold cmp_le. apply _. Defined.

Definition sample : Collaborators := {|
  pubkey_get_nsig := nsig_table;
  qsort := λ A cmp l, merge_sort (cmp_le cmp) l;
  get_pubkey := keyring;
  openpgp_pk_test_algo := λ a, if a =? 99 then 4 else 0;
  openpgp_md_test_algo := λ a, if a =? 99 then 5 else 0;
  check_signature_over_key_or_uid := toy_verify
|}.

(** The same with a verification that accepts signature packets only. *)
Definition lax : Collaborators := {|
  pubkey_get_nsig := nsig_table;
  qsort := λ A cmp l, merge_sort (cmp_le cmp) l;
  get_pubkey := keyring;
  openpgp_pk_test_algo := λ a, 0;
  openpgp_md_test_algo := λ a, 0;
  check_signature_over_key_or_uid := λ issuer sig pk p,
    match p with PktSignature _ => 0 | _ => 8 end
|}.

(** The heap that holds the packets of [l] at the addresses [a], [a+1], ...
    linked in this order; every node holds an object of its own. *)
Fixpoint build (a : nat) (l : list PACKET) : gmap nat kbnode_struct :=
  match l with
  | [] => ∅
  | p :: l' =>
      <[a := mkNode (match l' with [] => None | _ => Some (S a) end) p 0 0 a]>
        (build (S a) l')
  end.

Definition PK : PACKET := PktPublicKey (mkPublicKey (1, 1) 100 1).
Definition SUB : PACKET := PktPublicSubkey (mkPublicKey (1, 2) 200 1).
Definition UID : PACKET := PktUserId (mkUserId [300]).

(** A signature of class [cls] issued by key id [(issuer, 1)] over the
    component with tag [target], with payload [d]. *)
Definition sg (issuer cls target : Z) (d : N) : PACKET :=
  PktSignature (mkSignature (issuer, 1) 1 8 cls target [d] true true).

(** A signature with an algorithm the table does not know. *)
Definition sg_unknown (algo issuer cls target : Z) (d : N) : PACKET :=
  PktSignature (mkSignature (issuer, 1) algo 8 cls target [d] true true).

Definition kb_clean : gmap nat kbnode_struct :=
  build 0 [PK; sg 1 0x1f 100 5; UID; sg 1 0x13 300 6].

Definition kb_bad : gmap nat kbnode_struct :=
  build 0 [PK; sg 1 0x1f 100 5; UID; sg 1 0x13 555 9].

Definition kb_misplaced : gmap nat kbnode_struct :=
  build 0 [PK; sg 1 0x18 200 5; SUB; UID; sg 1 0x13 300 6].

Definition kb_foreign : gmap nat kbnode_struct :=
  build 0 [PK; sg 1 0x1f 100 5; UID; sg 9 0x13 300 6; sg 7 0x13 555 7;
           sg 7 0x18 200 8; SUB].

Definition kb_trailing : gmap nat kbnode_struct :=
  build 0 [PK; sg 1 0x1f 100 5; UID].

Definition kb_unknown_algos : gmap nat kbnode_struct :=
  build 0 [PK; sg 1 0x1f 100 5; UID; sg_unknown 50 1 0x13 300 6;
           sg_unknown 60 9 0x10 300 7].

Definition kb_sig_target : gmap nat kbnode_struct :=
  build 0 [PK; UID; sg 1 0x13 300 6].
End Sample.

(** * Further notions for the properties beyond the specification *)

(** The verification primitive succeeds over components only. *)
Definition components_only `{Collaborators} (pk : PKT_public_key) : Prop :=
  ∀ issuer sig p,
    check_signature_over_key_or_uid issuer sig pk p = 0 →
    is_component p = true.

(** What a complete run establishes beyond [check_post]: a signature that
    was relocated is good or skipped where it ends up, when no signature
    is out of place once the duplicates are gone, nothing is relocated, and
    a signature that was relocated stands in the segment of a component
    over which it verifies. *)
Record check_more `{Collaborators} (D : heap_t) (pk : PKT_public_key)
    (only_selected only_selfsigs : bool) (L0 : list addr) (s : check_state)
    (L' : list addr) : Prop := {
  more_moved_ok : ∀ m, m ∈ moved_of (trace s) →
    verdict_at D pk only_selected only_selfsigs L' m = VGood
    ∨ verdict_at D pk only_selected only_selfsigs L' m = VSkip;
  more_quiet :
    all_placed D pk only_selected only_selfsigs
      (filter (λ a, a ∉ killed_of (trace s)) L0) →
    L' = filter (λ a, a ∉ killed_of (trace s)) L0
    ∧ moved_of (trace s) = [];
  more_behind : ∀ m, m ∈ moved_of (trace s) → behind_target D pk L' m
}.

(** ** What the function writes, whatever the heap holds *)

(** Every node of [h'] is a node of [h] with the packet and the flags it
    has in [h]; its [next] may differ. *)
Definition only_next_written (h h' : heap_t) : Prop :=
  ∀ a nd', h' !! a = Some nd' →
           ∃ nd, h !! a = Some nd ∧ nd' = with_next nd (next nd').

(** The nodes of [h'] are the nodes of [h] that are not in [freed]. *)
Definition freed_exactly (h h' : heap_t) (freed : list addr) : Prop :=
  ∀ a, is_Some (h' !! a) ↔ is_Some (h !! a) ∧ a ∉ freed.

Section Events.
Context `{Collaborators}.

(** The key a signature is verified with: the primary key for a signature
    that carries its key id, otherwise what [get_pubkey] returns. *)
Definition issuer_of (pk : PKT_public_key) (sig : PKT_signature)
    (issuer : PKT_public_key) : Prop :=
  if keyid_cmp (pk_keyid pk) (keyid sig) =? 0 then issuer = pk
  else get_pubkey (keyid sig) = Some issuer.

Definition algorithms_supported (sig : PKT_signature) : Prop :=
  openpgp_pk_test_algo (pubkey_algo sig) = 0
  ∧ openpgp_md_test_algo (digest_algo sig) = 0.

(** What an entry of the trace says about the heap [h] the run started
    from. *)
Definition event_sound (h : heap_t) (pk : PKT_public_key) (e : event)
  : Prop :=
  match e with
  | EvAllocError => True
  | EvDuplicate t _ => is_Some (h !! t)
  | EvMissingIssuer n sig =>
      sig_of h n = Some sig
      ∧ keyid_cmp (pk_keyid pk) (keyid sig) ≠ 0
      ∧ get_pubkey (keyid sig) = None
  | EvUnsupportedPk n sig =>
      sig_of h n = Some sig ∧ openpgp_pk_test_algo (pubkey_algo sig) ≠ 0
  | EvUnsupportedMd n sig =>
      sig_of h n = Some sig ∧ openpgp_md_test_algo (digest_algo sig) ≠ 0
  | EvGood n sig | EvBad n sig =>
      sig_of h n = Some sig ∧ algorithms_supported sig
      ∧ ∃ issuer, issuer_of pk sig issuer
  | EvOutOfOrder n sig t =>
      sig_of h n = Some sig ∧ algorithms_supported sig
      ∧ ∃ issuer ndt,
          issuer_of pk sig issuer
          ∧ h !! t = Some ndt ∧ is_deleted_kbnode ndt = false
          ∧ is_component (pkt ndt) = true
          ∧ check_signature_over_key_or_uid issuer sig pk (pkt ndt) = 0
  end.

(** What holds of the state of a run started on heap [h]. *)
Definition sound (h : heap_t) (pk : PKT_public_key) (s : check_state)
  : Prop :=
  only_next_written h (st_heap s)
  ∧ freed_exactly h (st_heap s) (killed_of (trace s))
  ∧ Forall (event_sound h pk) (trace s).
End Events.

(** ** More keyblocks to run the model on *)
Module More.

(** A second primary key. *)
Definition PK2 : PACKET := PktPublicKey (mkPublicKey (2, 2) 400 1).


(** The packet of the primary key is there twice: the last node holds the
    object the head holds. *)
Definition kb_shared_primary : gmap nat kbnode_struct :=
  <[2%nat := mkNode None Sample.PK 0 0 0%nat]>
    (Sample.build 0 [Sample.PK; Sample.sg 1 0x1f 100 5; Sample.PK]).

(** Two primary keys and no signature. *)
Definition kb_no_sigs : gmap nat kbnode_struct :=
  Sample.build 0 [Sample.PK; Sample.UID; PK2].

(** The signature of the subkey stands before the subkey, and the
    certification of the user id is there twice. *)
Definition kb_dup_misplaced : gmap nat kbnode_struct :=
  Sample.build 0 [Sample.PK; Sample.sg 1 0x18 200 5; Sample.SUB; Sample.UID;
                  Sample.sg 1 0x13 300 6; Sample.sg 1 0x13 300 6].

(** Certifications of a foreign key: the one of the user id is there
    twice, the one of the subkey stands before the subkey. *)
Definition kb_foreign_dup : gmap nat kbnode_struct :=
  Sample.build 0 [Sample.PK; Sample.sg 1 0x1f 100 5; Sample.UID;
                  Sample.sg 1 0x13 300 6; Sample.sg 7 0x13 300 7;
                  Sample.sg 7 0x13 300 7; Sample.sg 7 0x18 200 8; Sample.SUB].

End More.

(** ** Nodes the last loop stops at *)



(** ** The comparison is a consistent order *)

Section ComparisonFacts.
Context `{Collaborators}.

Lemma gcry_mpi_cmp_zero (u v : N) : gcry_mpi_cmp u v = 0 ↔ u = v.
Proof.
  unfold gcry_mpi_cmp. destruct (N.compare_spec u v); split; intros; subst;
    try done; lia.
Qed.

Lemma gcry_mpi_cmp_antisym (u v : N) :
  gcry_mpi_cmp u v = - gcry_mpi_cmp v u.
Proof.
  unfold gcry_mpi_cmp. rewrite (N.compare_antisym u v).
  by destruct (u ?= v)%N.
Qed.

Lemma gcry_mpi_cmp_range (u v : N) :
  gcry_mpi_cmp u v = -1 ∨ gcry_mpi_cmp u v = 0 ∨ gcry_mpi_cmp u v = 1.
Proof. unfold gcry_mpi_cmp. destruct (u ?= v)%N; auto. Qed.

Lemma gcry_mpi_cmp_le (u v : N) : gcry_mpi_cmp u v ≤ 0 ↔ (u ≤ v)%N.
Proof.
  unfold gcry_mpi_cmp. destruct (N.compare_spec u v); split; intros; lia.
Qed.

Lemma sig_comparison_loop_zero (a b : PKT_signature) (todo i : nat) :
  sig_comparison_loop a b i todo = 0 ↔
  ∀ j, (j < todo)%nat →
       gcry_mpi_cmp (nth (i + j) (data a) 0%N) (nth (i + j) (data b) 0%N) = 0.
Proof.
  revert i. induction todo as [|todo IH]; intros i; simpl.
  - split; [intros _ j Hj; lia | done].
  - destruct (Z.eqb_spec (gcry_mpi_cmp (nth i (data a) 0%N)
                                       (nth i (data b) 0%N)) 0) as [E|E].
    + rewrite IH. split.
      * intros Hall [|j] Hj.
        -- by rewrite Nat.add_0_r.
        -- replace (i + S j)%nat with (S i + j)%nat by lia. apply Hall. lia.
      * intros Hall j Hj.
        replace (S i + j)%nat with (i + S j)%nat by lia. apply Hall. lia.
    + split; [done |]. intros Hall. exfalso. apply E.
      specialize (Hall O). rewrite Nat.add_0_r in Hall. apply Hall. lia.
Qed.

Lemma sig_comparison_loop_antisym (a b : PKT_signature) (todo i : nat) :
  sig_comparison_loop a b i todo = - sig_comparison_loop b a i todo.
Proof.
  revert i. induction todo as [|todo IH]; intros i; simpl; [done |].
  rewrite (gcry_mpi_cmp_antisym (nth i (data b) 0%N) (nth i (data a) 0%N)).
  rewrite IH.
  destruct (gcry_mpi_cmp_range (nth i (data a) 0%N) (nth i (data b) 0%N))
    as [E|[E|E]]; rewrite E; simpl; lia.
Qed.

Lemma sig_comparison_loop_trans (x y z : PKT_signature) (todo i : nat) :
  sig_comparison_loop x y i todo ≤ 0 →
  sig_comparison_loop y z i todo ≤ 0 →
  sig_comparison_loop x z i todo ≤ 0.
Proof.
  revert i. induction todo as [|todo IH]; intros i; simpl; [done |].
  pose proof (gcry_mpi_cmp_zero (nth i (data x) 0%N) (nth i (data y) 0%N)) as Zxy.
  pose proof (gcry_mpi_cmp_zero (nth i (data y) 0%N) (nth i (data z) 0%N)) as Zyz.
  pose proof (gcry_mpi_cmp_zero (nth i (data x) 0%N) (nth i (data z) 0%N)) as Zxz.
  pose proof (gcry_mpi_cmp_le (nth i (data x) 0%N) (nth i (data y) 0%N)) as Lxy.
  pose proof (gcry_mpi_cmp_le (nth i (data y) 0%N) (nth i (data z) 0%N)) as Lyz.
  pose proof (gcry_mpi_cmp_le (nth i (data x) 0%N) (nth i (data z) 0%N)) as Lxz.
  destruct (Z.eqb_spec (gcry_mpi_cmp (nth i (data x) 0%N) (nth i (data y) 0%N)) 0)
    as [Exy|Exy];
  destruct (Z.eqb_spec (gcry_mpi_cmp (nth i (data y) 0%N) (nth i (data z) 0%N)) 0)
    as [Eyz|Eyz];
  destruct (Z.eqb_spec (gcry_mpi_cmp (nth i (data x) 0%N) (nth i (data z) 0%N)) 0)
    as [Exz|Exz]; intros Hxy Hyz.
  - by apply IH.
  - exfalso. apply Exz, Zxz. apply Zxy in Exy. apply Zyz in Eyz. congruence.
  - exfalso. apply Eyz, Zyz. apply Zxy in Exy. apply Zxz in Exz. congruence.
  - apply Lxz. apply Zxy in Exy. rewrite Exy. by apply Lyz.
  - exfalso. apply Exy, Zxy. apply Zyz in Eyz. apply Zxz in Exz. congruence.
  - apply Lxz. apply Zyz in Eyz. rewrite <- Eyz. by apply Lxy.
  - apply Zxz in Exz. apply Lxy in Hxy. apply Lyz in Hyz.
    exfalso. apply Exy, Zxy. lia.
  - apply Lxz. apply Lxy in Hxy. apply Lyz in Hyz. lia.
Qed.

Lemma sig_comparison_antisym (a b : PKT_signature) :
  Z.sgn (sig_comparison a b) = - Z.sgn (sig_comparison b a).
Proof.
  unfold sig_comparison.
  destruct (Z.ltb_spec (digest_algo a) (digest_algo b));
    destruct (Z.gtb_spec (digest_algo a) (digest_algo b));
    destruct (Z.ltb_spec (digest_algo b) (digest_algo a));
    destruct (Z.gtb_spec (digest_algo b) (digest_algo a)); try lia; try done.
  cbv zeta.
  destruct (Z.eqb_spec (pubkey_get_nsig (pubkey_algo a))
                       (pubkey_get_nsig (pubkey_algo b))) as [E|E];
    destruct (Z.eqb_spec (pubkey_get_nsig (pubkey_algo b))
                         (pubkey_get_nsig (pubkey_algo a))) as [E'|E'];
    try congruence; simpl.
  - rewrite E. rewrite (sig_comparison_loop_antisym a b).
    rewrite Z.sgn_opp. done.
  - destruct (Z.ltb_spec (pubkey_get_nsig (pubkey_algo a))
                         (pubkey_get_nsig (pubkey_algo b)));
      destruct (Z.ltb_spec (pubkey_get_nsig (pubkey_algo b))
                           (pubkey_get_nsig (pubkey_algo a))); try done; lia.
Qed.

Lemma sig_comparison_trans (x y z : PKT_signature) :
  sig_comparison x y ≤ 0 → sig_comparison y z ≤ 0 → sig_comparison x z ≤ 0.
Proof.
  unfold sig_comparison.
  destruct (Z.ltb_spec (digest_algo x) (digest_algo y));
    destruct (Z.gtb_spec (digest_algo x) (digest_algo y));
    destruct (Z.ltb_spec (digest_algo y) (digest_algo z));
    destruct (Z.gtb_spec (digest_algo y) (digest_algo z));
    destruct (Z.ltb_spec (digest_algo x) (digest_algo z));
    destruct (Z.gtb_spec (digest_algo x) (digest_algo z));
    try lia; try done.
  cbv zeta.
  destruct (Z.eqb_spec (pubkey_get_nsig (pubkey_algo x))
                       (pubkey_get_nsig (pubkey_algo y))) as [Exy|Exy];
    destruct (Z.eqb_spec (pubkey_get_nsig (pubkey_algo y))
                         (pubkey_get_nsig (pubkey_algo z))) as [Eyz|Eyz];
    destruct (Z.eqb_spec (pubkey_get_nsig (pubkey_algo x))
                         (pubkey_get_nsig (pubkey_algo z))) as [Exz|Exz];
    simpl; try congruence.
  - rewrite Exy. apply sig_comparison_loop_trans.
  - rewrite <- Exy.
    destruct (Z.ltb_spec (pubkey_get_nsig (pubkey_algo x))
                         (pubkey_get_nsig (pubkey_algo z))); [done | by intros].
  - rewrite Eyz.
    destruct (Z.ltb_spec (pubkey_get_nsig (pubkey_algo x))
                         (pubkey_get_nsig (pubkey_algo z))); [by intros | done].
  - destruct (Z.ltb_spec (pubkey_get_nsig (pubkey_algo x))
                         (pubkey_get_nsig (pubkey_algo y)));
      destruct (Z.ltb_spec (pubkey_get_nsig (pubkey_algo y))
                           (pubkey_get_nsig (pubkey_algo z)));
      try done; lia.
  - destruct (Z.ltb_spec (pubkey_get_nsig (pubkey_algo x))
                         (pubkey_get_nsig (pubkey_algo y)));
      destruct (Z.ltb_spec (pubkey_get_nsig (pubkey_algo y))
                           (pubkey_get_nsig (pubkey_algo z)));
      destruct (Z.ltb_spec (pubkey_get_nsig (pubkey_algo x))
                           (pubkey_get_nsig (pubkey_algo z)));
      try done; lia.
Qed.

Lemma sig_entry_cmp_consistent : consistent_cmp sig_entry_cmp.
Proof.
  split; unfold sig_entry_cmp.
  - intros x y. apply sig_comparison_antisym.
  - intros x y z. apply sig_comparison_trans.
Qed.

Lemma sig_comparison_zero_spec (a b : PKT_signature) :
  sig_comparison a b = 0 ↔
  digest_algo a = digest_algo b
  ∧ pubkey_get_nsig (pubkey_algo a) = pubkey_get_nsig (pubkey_algo b)
  ∧ ∀ i, (i < Z.to_nat (pubkey_get_nsig (pubkey_algo a)))%nat →
         gcry_mpi_cmp (nth i (data a) 0%N) (nth i (data b) 0%N) = 0.
Proof.
  unfold sig_comparison.
  destruct (Z.ltb_spec (digest_algo a) (digest_algo b));
    [split; [done | lia] |].
  destruct (Z.gtb_spec (digest_algo a) (digest_algo b));
    [split; [done | lia] |].
  cbv zeta.
  destruct (Z.eqb_spec (pubkey_get_nsig (pubkey_algo a))
                       (pubkey_get_nsig (pubkey_algo b))) as [E|E]; simpl.
  - rewrite sig_comparison_loop_zero. simpl. split.
    + intros Hall. split; [lia |]. split; [done |]. done.
    + intros (_ & _ & Hall). done.
  - split; [| intros (_ & ? & _); done].
    destruct (Z.ltb_spec (pubkey_get_nsig (pubkey_algo a))
                         (pubkey_get_nsig (pubkey_algo b))); done.
Qed.

Lemma sig_comparison_refl (a : PKT_signature) : sig_comparison a a = 0.
Proof.
  apply sig_comparison_zero_spec. repeat split.
  intros i _. by apply gcry_mpi_cmp_zero.
Qed.

Lemma sig_comparison_sym (a b : PKT_signature) :
  sig_comparison a b = 0 → sig_comparison b a = 0.
Proof.
  intros E. pose proof (sig_comparison_antisym a b) as A.
  rewrite E in A. simpl in A. lia.
Qed.

Lemma sig_comparison_zero_trans (a b c : PKT_signature) :
  sig_comparison a b = 0 → sig_comparison b c = 0 → sig_comparison a c = 0.
Proof.
  rewrite !sig_comparison_zero_spec.
  intros (D1 & N1 & V1) (D2 & N2 & V2). repeat split; try congruence.
  intros i Hi. apply gcry_mpi_cmp_zero.
  transitivity (nth i (data b) 0%N).
  - apply gcry_mpi_cmp_zero. by apply V1.
  - apply gcry_mpi_cmp_zero. apply V2. by rewrite <- N1.
Qed.
End ComparisonFacts.

(** * Successors, insertion and relocation in lists of nodes *)

Lemma succ_in_not_elem (l : list nat) (a : nat) : a ∉ l → succ_in l a = None.
Proof.
  induction l as [|b l IH]; simpl; [done |].
  intros Hn. apply not_elem_of_cons in Hn as [Hne Hn].
  destruct (decide (b = a)); [congruence | by apply IH].
Qed.

Lemma succ_in_elem (l : list nat) (a b : nat) :
  succ_in l a = Some b → a ∈ l ∧ b ∈ l.
Proof.
  induction l as [|c l IH]; simpl; [done |].
  destruct (decide (c = a)) as [->|Hne].
  - destruct l as [|d l]; simpl; [done |]. intros [= ->].
    split; [left | right; left].
  - intros Hs. destruct (IH Hs). split; by right.
Qed.

Lemma succ_in_app_cons (pre post : list nat) (a : nat) :
  a ∉ pre → succ_in (pre ++ a :: post) a = head post.
Proof.
  induction pre as [|b pre IH]; simpl; intros Hn.
  - by rewrite decide_True by congruence.
  - apply not_elem_of_cons in Hn as [Hne Hn].
    rewrite decide_False by congruence. by apply IH.
Qed.

Lemma NoDup_app_cons_not_elem (pre post : list nat) (a : nat) :
  NoDup (pre ++ a :: post) → (a ∉ pre) ∧ (a ∉ post).
Proof.
  intros Hnd. apply NoDup_app in Hnd as (_ & Hd & Hc).
  apply NoDup_cons in Hc as [Hc _]. split; [| done].
  intros Hin. apply (Hd _ Hin). left.
Qed.

Lemma filter_ne_not_elem (l : list nat) (n : nat) :
  n ∉ l → filter (λ a, a ≠ n) l = l.
Proof.
  induction l as [|b l IH]; [done |]. intros Hn.
  apply not_elem_of_cons in Hn as [Hne Hn].
  rewrite filter_cons_True by done. by rewrite IH.
Qed.

Lemma succ_in_filter (l : list nat) (a n : nat) :
  NoDup l → a ≠ n →
  succ_in (filter (λ x, x ≠ n) l) a =
  if decide (succ_in l a = Some n) then succ_in l n else succ_in l a.
Proof.
  induction l as [|b l IH]; intros Hnd Han.
  - rewrite filter_nil. simpl. by destruct (decide (None = Some n)).
  - apply NoDup_cons in Hnd as [Hb Hnd].
    destruct (decide (b = n)) as [->|Hbn].
    + rewrite filter_cons_False by (intros ?; done).
      rewrite filter_ne_not_elem by done.
      simpl. destruct (decide (n = a)) as [|_]; [congruence |].
      destruct (decide (succ_in l a = Some n)) as [E|E]; [| done].
      apply succ_in_elem in E as [_ ?]. done.
    + rewrite filter_cons_True by done. simpl.
      destruct (decide (b = a)) as [->|Hba].
      * destruct (decide (a = n)) as [|_]; [congruence |].
        destruct l as [|c l]; simpl.
        -- by destruct (decide (None = Some n)).
        -- destruct (decide (Some c = Some n)) as [[= ->]|Hcn].
           ++ rewrite filter_cons_False by (intros ?; done).
              apply NoDup_cons in Hnd as [Hc Hnd].
              rewrite filter_ne_not_elem by done.
              by destruct (decide (n = n)).
           ++ rewrite filter_cons_True by congruence. done.
      * destruct (decide (b = n)) as [|_]; [congruence |].
        rewrite IH by done. done.
Qed.

Lemma head_insert_after (t n : nat) (l : list nat) :
  head (insert_after t n l) = head l.
Proof. destruct l as [|b l]; simpl; [done |]. by destruct (decide (b = t)). Qed.

Lemma succ_in_insert_after (l : list nat) (t n a : nat) :
  t ∈ l → n ∉ l →
  succ_in (insert_after t n l) a =
  if decide (a = t) then Some n
  else if decide (a = n) then succ_in l t else succ_in l a.
Proof.
  induction l as [|b l IH]; intros Ht Hn; [by apply elem_of_nil in Ht |].
  apply not_elem_of_cons in Hn as [Hnb Hn]. simpl.
  destruct (decide (b = t)) as [->|Hbt].
  - simpl. destruct (decide (t = a)) as [->|Hta].
    + by rewrite decide_True by congruence.
    + rewrite (decide_False (P := a = t)) by congruence.
      destruct (decide (n = a)) as [->|Hna].
      * by rewrite decide_True by congruence.
      * by rewrite decide_False by congruence.
  - apply elem_of_cons in Ht as [Ht|Ht]; [congruence |]. simpl.
    destruct (decide (b = a)) as [->|Hba].
    + rewrite head_insert_after.
      rewrite decide_False by congruence. by rewrite decide_False by congruence.
    + by apply IH.
Qed.

Lemma insert_after_perm (t n : nat) (l : list nat) :
  t ∈ l → insert_after t n l ≡ₚ n :: l.
Proof.
  induction l as [|b l IH]; intros Ht; [by apply elem_of_nil in Ht |]. simpl.
  destruct (decide (b = t)) as [->|Hbt].
  - apply perm_swap.
  - apply elem_of_cons in Ht as [Ht|Ht]; [congruence |].
    rewrite IH by done. apply perm_swap.
Qed.

Lemma filter_ne_perm (n : nat) (l : list nat) :
  NoDup l → n ∈ l → n :: filter (λ a, a ≠ n) l ≡ₚ l.
Proof.
  induction l as [|b l IH]; intros Hnd Hn; [by apply elem_of_nil in Hn |].
  apply NoDup_cons in Hnd as [Hb Hnd].
  destruct (decide (b = n)) as [->|Hbn].
  - rewrite filter_cons_False by (intros ?; done).
    by rewrite filter_ne_not_elem.
  - apply elem_of_cons in Hn as [Hn|Hn]; [congruence |].
    rewrite filter_cons_True by done.
    rewrite perm_swap. by rewrite IH.
Qed.

Lemma move_after_perm (t n : nat) (l : list nat) :
  NoDup l → n ∈ l → t ∈ l → t ≠ n → move_after t n l ≡ₚ l.
Proof.
  intros Hnd Hn Ht Htn. unfold move_after.
  rewrite insert_after_perm.
  - by apply filter_ne_perm.
  - apply list_elem_of_filter. done.
Qed.

Lemma filter_insert_after (P : nat → Prop) `{!∀ x, Decision (P x)}
    (t n : nat) (l : list nat) :
  ¬ P n → filter P (insert_after t n l) = filter P l.
Proof.
  intros Hn. induction l as [|b l IH]; [done |]. simpl.
  destruct (decide (b = t)) as [->|Hbt].
  - rewrite !filter_cons. destruct (decide (P n)); [done |].
    by destruct (decide (P t)).
  - rewrite !filter_cons. by rewrite IH.
Qed.

Lemma filter_filter_ne (P : nat → Prop) `{!∀ x, Decision (P x)}
    (n : nat) (l : list nat) :
  ¬ P n → filter P (filter (λ a, a ≠ n) l) = filter P l.
Proof.
  intros Hn. induction l as [|b l IH]; [done |].
  rewrite !filter_cons.
  destruct (decide (b ≠ n)) as [Hbn|Hbn].
  - rewrite filter_cons. by rewrite IH.
  - apply dec_stable in Hbn as ->.
    destruct (decide (P n)); [done |]. apply IH.
Qed.

Lemma filter_move_after (P : nat → Prop) `{!∀ x, Decision (P x)}
    (t n : nat) (l : list nat) :
  ¬ P n → filter P (move_after t n l) = filter P l.
Proof.
  intros Hn. unfold move_after.
  rewrite filter_insert_after by done. by apply filter_filter_ne.
Qed.

Lemma insert_after_app_l (t n : nat) (l1 l2 : list nat) :
  t ∈ l1 → insert_after t n (l1 ++ l2) = insert_after t n l1 ++ l2.
Proof.
  induction l1 as [|b l1 IH]; intros Ht; [by apply elem_of_nil in Ht |]. simpl.
  destruct (decide (b = t)) as [->|Hbt]; [done |].
  apply elem_of_cons in Ht as [Ht|Ht]; [congruence |].
  by rewrite IH.
Qed.

Lemma insert_after_app_r (t n : nat) (l1 l2 : list nat) :
  t ∉ l1 → insert_after t n (l1 ++ l2) = l1 ++ insert_after t n l2.
Proof.
  induction l1 as [|b l1 IH]; intros Ht; [done |]. simpl.
  apply not_elem_of_cons in Ht as [Hne Ht].
  rewrite decide_False by congruence. by rewrite IH.
Qed.

Lemma filter_ne_zipper (pre post : list nat) (n : nat) :
  NoDup (pre ++ n :: post) →
  filter (λ a, a ≠ n) (pre ++ n :: post) = pre ++ post.
Proof.
  intros Hnd. destruct (NoDup_app_cons_not_elem _ _ _ Hnd) as [Hp Hq].
  rewrite filter_app. rewrite filter_cons_False by (intros ?; done).
  by rewrite !filter_ne_not_elem.
Qed.

Lemma move_after_pre (pre post : list nat) (t n : nat) :
  NoDup (pre ++ n :: post) → t ∈ pre →
  move_after t n (pre ++ n :: post) = insert_after t n pre ++ post.
Proof.
  intros Hnd Ht. unfold move_after. rewrite filter_ne_zipper by done.
  by apply insert_after_app_l.
Qed.

Lemma move_after_post (pre post : list nat) (t n : nat) :
  NoDup (pre ++ n :: post) → t ∈ post →
  move_after t n (pre ++ n :: post) = pre ++ insert_after t n post.
Proof.
  intros Hnd Ht. unfold move_after. rewrite filter_ne_zipper by done.
  apply insert_after_app_r.
  apply NoDup_app in Hnd as (_ & Hd & _).
  intros Hin. apply (Hd _ Hin). by right.
Qed.

Lemma last_insert_after (t n : nat) (l : list nat) :
  last l ≠ Some t → last (insert_after t n l) = last l.
Proof.
  induction l as [|b l IH]; [done |]. simpl.
  destruct (decide (b = t)) as [->|Hbt].
  - destruct l as [|c l]; [done |]. intros _. done.
  - destruct l as [|c l]; [done |]. intros Hl.
    change (last (b :: insert_after t n (c :: l)) = last (c :: l)).
    rewrite <- IH by done.
    simpl. destruct (decide (c = t)); done.
Qed.

Lemma length_insert_after (t n : nat) (l : list nat) :
  t ∈ l → length (insert_after t n l) = S (length l).
Proof. intros Ht. by rewrite (insert_after_perm t n l Ht). Qed.

Lemma elem_of_insert_after (t n x : nat) (l : list nat) :
  t ∈ l → x ∈ insert_after t n l ↔ x = n ∨ x ∈ l.
Proof.
  intros Ht. rewrite (insert_after_perm t n l Ht). apply elem_of_cons.
Qed.

(** * [current_component] along a list *)

Section Context.
Context (D : gmap nat kbnode_struct) (sel : bool).

Lemma step_component_other (cc : option nat) (a : nat) :
  live_component D a = false → step_component D sel cc a = cc.
Proof.
  unfold live_component, step_component.
  destruct (D !! a) as [nd|]; [| done].
  destruct (is_deleted_kbnode nd); [done |]. simpl.
  by intros ->.
Qed.

Lemma step_component_live (cc : option nat) (a : nat) :
  live_component D a = true →
  step_component D sel cc a = Some a ∨ step_component D sel cc a = None.
Proof.
  unfold live_component, step_component.
  destruct (D !! a) as [nd|]; [| done].
  destruct (is_deleted_kbnode nd); [done |]. simpl. intros ->.
  destruct (selects sel nd); auto.
Qed.

Lemma step_component_all (D' : gmap nat kbnode_struct) (cc : option nat)
    (a : nat) :
  live_component D' a = true → step_component D' false cc a = Some a.
Proof.
  unfold live_component, step_component, selects.
  destruct (D' !! a) as [nd|]; [| done].
  destruct (is_deleted_kbnode nd); [done |]. simpl. intros Hc. rewrite Hc.
  by destruct (pkt nd).
Qed.

Lemma step_component_live_indep (cc cc' : option nat) (a : nat) :
  live_component D a = true →
  step_component D sel cc a = step_component D sel cc' a.
Proof.
  unfold live_component, step_component.
  destruct (D !! a) as [nd|]; [| done].
  destruct (is_deleted_kbnode nd); [done |]. simpl. by intros ->.
Qed.

Lemma cc_of_app (cc : option nat) (l1 l2 : list nat) :
  cc_of D sel cc (l1 ++ l2) = cc_of D sel (cc_of D sel cc l1) l2.
Proof. unfold cc_of. apply fold_left_app. Qed.

Lemma cc_of_snoc (cc : option nat) (l : list nat) (a : nat) :
  cc_of D sel cc (l ++ [a]) = step_component D sel (cc_of D sel cc l) a.
Proof. by rewrite cc_of_app. Qed.

Lemma context_of_zipper (cc : option nat) (pre post : list nat) (m : nat) :
  m ∉ pre → context_of D sel cc (pre ++ m :: post) m = cc_of D sel cc pre.
Proof.
  revert cc. induction pre as [|b pre IH]; intros cc Hm; simpl.
  - by rewrite decide_True by congruence.
  - apply not_elem_of_cons in Hm as [Hne Hm].
    rewrite decide_False by congruence. by apply IH.
Qed.

(** The context of [m] only depends on [m] and the components before it. *)
Lemma context_of_filter (cc : option nat) (l : list nat) (m : nat) :
  context_of D sel cc l m =
  context_of D sel cc
    (filter (λ a, a = m ∨ live_component D a = true) l) m.
Proof.
  revert cc. induction l as [|b l IH]; intros cc; [done |].
  destruct (decide (b = m)) as [->|Hbm].
  - rewrite filter_cons_True by auto. simpl. by rewrite !decide_True by congruence.
  - simpl. rewrite decide_False by congruence.
    destruct (live_component D b) eqn:Hb.
    + rewrite filter_cons_True by auto. simpl.
      rewrite decide_False by congruence. apply IH.
    + rewrite filter_cons_False by (intros [?|?]; congruence).
      rewrite step_component_other by done. apply IH.
Qed.

Lemma context_of_move_after (cc : option nat) (l : list nat) (t n m : nat) :
  live_component D n = false → m ≠ n →
  context_of D sel cc (move_after t n l) m = context_of D sel cc l m.
Proof.
  intros Hn Hmn.
  rewrite (context_of_filter cc (move_after t n l)).
  rewrite (context_of_filter cc l).
  rewrite filter_move_after; [done |].
  intros [?|?]; congruence.
Qed.

Lemma cc_of_filter (cc : option nat) (l : list nat) :
  cc_of D sel cc l =
  cc_of D sel cc (filter (λ a, live_component D a = true) l).
Proof.
  revert cc. induction l as [|b l IH]; intros cc; [done |].
  destruct (live_component D b) eqn:Hb.
  - rewrite filter_cons_True by done. simpl. apply IH.
  - rewrite filter_cons_False by congruence. simpl.
    rewrite step_component_other by done. apply IH.
Qed.

Lemma cc_of_insert_after (cc : option nat) (l : list nat) (t n : nat) :
  live_component D n = false →
  cc_of D sel cc (insert_after t n l) = cc_of D sel cc l.
Proof.
  intros Hn. rewrite (cc_of_filter cc (insert_after t n l)).
  rewrite (cc_of_filter cc l).
  rewrite filter_insert_after; [done | congruence].
Qed.

(** Right behind a component, the context is that component or nothing. *)
Lemma context_of_behind (cc : option nat) (l : list nat) (t n : nat) :
  NoDup l → t ∈ l → n ∉ l → live_component D t = true →
  context_of D sel cc (insert_after t n l) n = step_component D sel None t.
Proof.
  revert cc. induction l as [|b l IH]; intros cc Hnd Ht Hn Hlive;
    [by apply elem_of_nil in Ht |].
  apply NoDup_cons in Hnd as [Hb Hnd].
  apply not_elem_of_cons in Hn as [Hnb Hn]. simpl.
  destruct (decide (b = t)) as [->|Hbt].
  - simpl. rewrite decide_False by congruence. rewrite decide_True by congruence.
    by apply step_component_live_indep.
  - apply elem_of_cons in Ht as [Ht|Ht]; [congruence |]. simpl.
    rewrite decide_False by congruence. by apply IH.
Qed.

Lemma context_of_moved (cc : option nat) (l : list nat) (t n : nat) :
  NoDup l → t ∈ l → t ≠ n → live_component D t = true →
  context_of D sel cc (move_after t n l) n = step_component D sel None t.
Proof.
  intros Hnd Ht Htn Hlive. unfold move_after. apply context_of_behind.
  - by apply NoDup_filter.
  - apply list_elem_of_filter. done.
  - intros Hin. apply list_elem_of_filter in Hin as [? _]. done.
  - done.
Qed.
End Context.

(** * The walks over a keyblock *)

Lemma with_next_with_next (nd : kbnode_struct) (x y : option nat) :
  with_next (with_next nd x) y = with_next nd y.
Proof. done. Qed.

Lemma with_next_id (nd : kbnode_struct) : with_next nd (next nd) = nd.
Proof. by destruct nd. Qed.

Lemma keyblock_elem (D h : gmap nat kbnode_struct) (kb : option nat)
    (l : list nat) (a : nat) :
  keyblock D h kb l → a ∈ l →
  ∃ nd0, D !! a = Some nd0
         ∧ deref h a = Ok (with_next nd0 (succ_in l a)).
Proof.
  intros (_ & _ & Hn) Ha. destruct (Hn a Ha) as (nd0 & HD & Hh).
  exists nd0. split; [done |]. unfold deref. by rewrite Hh.
Qed.

Lemma keyblock_cursor (D h : gmap nat kbnode_struct) (kb : option nat)
    (pre post : list nat) (a : nat) :
  keyblock D h kb (pre ++ a :: post) →
  ∃ nd0, D !! a = Some nd0 ∧ deref h a = Ok (with_next nd0 (head post)).
Proof.
  intros Hk.
  destruct (keyblock_elem D h kb _ a Hk) as (nd0 & HD & Hd).
  { apply elem_of_app. right. left. }
  exists nd0. split; [done |]. rewrite Hd. f_equal. f_equal.
  apply succ_in_app_cons.
  destruct Hk as (_ & Hnd & _).
  by destruct (NoDup_app_cons_not_elem _ _ _ Hnd).
Qed.

Lemma keyblock_NoDup (D h : gmap nat kbnode_struct) (kb : option nat)
    (l : list nat) : keyblock D h kb l → NoDup l.
Proof. by intros (_ & ? & _). Qed.

Lemma keyblock_head (D h : gmap nat kbnode_struct) (kb : option nat)
    (l : list nat) : keyblock D h kb l → kb = head l.
Proof. by intros (? & _ & _). Qed.

Lemma app_cons_snoc {A : Type} (pre post : list A) (a : A) :
  pre ++ a :: post = (pre ++ [a]) ++ post.
Proof. by rewrite <- app_assoc. Qed.

Lemma live_sigs_cons (D : gmap nat kbnode_struct) (a : nat) (l : list nat) :
  live_sigs D (a :: l) =
  match sig_of D a with
  | Some sig => (a, sig) :: live_sigs D l
  | None => live_sigs D l
  end.
Proof. unfold live_sigs. simpl. by destruct (sig_of D a). Qed.

Section Walks.
Context `{Collaborators}.
Context (D h : gmap nat kbnode_struct) (kb : option nat).

Lemma count_sigs_spec (post pre : list nat) (acc : Z) (fuel : nat) :
  keyblock D h kb (pre ++ post) → (length post < fuel)%nat →
  count_sigs fuel h (head post) acc
  = Ok (acc + Z.of_nat (length (live_sigs D post))).
Proof.
  revert pre acc fuel. induction post as [|a post IH]; intros pre acc fuel Hk Hf.
  - destruct fuel; unfold live_sigs; simpl; f_equal; lia.
  - destruct fuel as [|fuel]; [simpl in Hf; lia |].
    destruct (keyblock_cursor _ _ _ _ _ _ Hk) as (nd0 & HD & Hd).
    cbn [head count_sigs]. rewrite Hd. cbn [bind].
    rewrite live_sigs_cons. unfold sig_of. rewrite HD.
    change (is_deleted_kbnode (with_next nd0 (head post)))
      with (is_deleted_kbnode nd0).
    change (pkt (with_next nd0 (head post))) with (pkt nd0).
    change (next (with_next nd0 (head post))) with (head post).
    rewrite app_cons_snoc in Hk. simpl in Hf.
    destruct (is_deleted_kbnode nd0).
    + apply (IH _ _ _ Hk). lia.
    + destruct (pkt nd0); cbn [is_signature];
        rewrite (IH _ _ _ Hk) by lia; f_equal; cbn [length]; lia.
  Qed.

Lemma collect_sigs_spec (post pre : list nat) (fuel : nat) :
  keyblock D h kb (pre ++ post) → (length post < fuel)%nat →
  collect_sigs fuel h (head post) = Ok (live_sigs D post).
Proof.
  revert pre fuel. induction post as [|a post IH]; intros pre fuel Hk Hf.
  - by destruct fuel.
  - destruct fuel as [|fuel]; [simpl in Hf; lia |].
    destruct (keyblock_cursor _ _ _ _ _ _ Hk) as (nd0 & HD & Hd).
    cbn [head collect_sigs]. rewrite Hd. cbn [bind].
    rewrite live_sigs_cons. unfold sig_of. rewrite HD.
    change (is_deleted_kbnode (with_next nd0 (head post)))
      with (is_deleted_kbnode nd0).
    change (pkt (with_next nd0 (head post))) with (pkt nd0).
    change (next (with_next nd0 (head post))) with (head post).
    rewrite app_cons_snoc in Hk. simpl in Hf.
    destruct (is_deleted_kbnode nd0).
    + apply (IH _ _ Hk). lia.
    + destruct (pkt nd0); rewrite (IH _ _ Hk) by lia; done.
Qed.

Lemma prevp_of_snoc (pre : list nat) (a : nat) :
  prevp_of (pre ++ [a]) = AddrOfNext a.
Proof. unfold prevp_of. by rewrite last_snoc. Qed.

Lemma find_prevp_spec (q1 pre q2 : list nat) (t : nat) (fuel : nat) :
  keyblock D h kb (pre ++ q1 ++ t :: q2) → (length q1 < fuel)%nat →
  find_prevp fuel h (prevp_of pre) (head (q1 ++ t :: q2)) t
  = Ok (prevp_of (pre ++ q1)).
Proof.
  revert pre fuel. induction q1 as [|a q1 IH]; intros pre fuel Hk Hf.
  - destruct fuel; cbn [app head find_prevp]; rewrite decide_True by done;
      by rewrite app_nil_r.
  - destruct fuel as [|fuel]; [simpl in Hf; lia |].
    assert (a ≠ t) as Hat.
    { pose proof (keyblock_NoDup _ _ _ _ Hk) as Hnd.
      apply NoDup_app in Hnd as (_ & _ & Hnd).
      change ((a :: q1) ++ t :: q2) with (a :: (q1 ++ t :: q2)) in Hnd.
      apply NoDup_cons in Hnd as [Hnd _].
      intros ->. apply Hnd. apply elem_of_app. right. left. }
    change ((a :: q1) ++ t :: q2) with (a :: (q1 ++ t :: q2)) in *.
    destruct (keyblock_cursor _ _ _ _ _ _ Hk) as (nd0 & HD & Hd).
    cbn [head find_prevp]. rewrite decide_False by done.
    rewrite Hd. cbn [bind].
    change (next (with_next nd0 (head (q1 ++ t :: q2))))
      with (head (q1 ++ t :: q2)).
    rewrite app_cons_snoc in Hk.
    rewrite <- (prevp_of_snoc pre a).
    rewrite (IH _ _ Hk) by (simpl in Hf; lia).
    by rewrite <- app_assoc.
Qed.

Lemma search_keyblock_spec (pk issuer : PKT_public_key) (sig : PKT_signature)
    (cc : nat) (post pre : list nat) (fuel : nat) :
  keyblock D h kb (pre ++ post) → (length post < fuel)%nat →
  search_keyblock fuel h pk issuer sig cc (head post)
  = Ok (scan_target D pk issuer sig cc post).
Proof.
  revert pre fuel. induction post as [|a post IH]; intros pre fuel Hk Hf.
  - by destruct fuel.
  - destruct fuel as [|fuel]; [simpl in Hf; lia |].
    destruct (keyblock_cursor _ _ _ _ _ _ Hk) as (nd0 & HD & Hd).
    cbn [head search_keyblock scan_target]. rewrite Hd. cbn [bind].
    unfold verifies. rewrite HD.
    change (is_deleted_kbnode (with_next nd0 (head post)))
      with (is_deleted_kbnode nd0).
    change (pkt (with_next nd0 (head post))) with (pkt nd0).
    change (next (with_next nd0 (head post))) with (head post).
    rewrite app_cons_snoc in Hk. simpl in Hf.
    destruct (is_deleted_kbnode nd0); cbn [negb andb].
    + rewrite andb_false_r. apply (IH _ _ Hk). lia.
    + destruct (decide (a = cc)) as [->|Hne].
      * rewrite bool_decide_eq_false_2 by (intros ?; done). cbn [andb].
        apply (IH _ _ Hk). lia.
      * rewrite bool_decide_eq_true_2 by done. cbn [andb].
        destruct (check_signature_over_key_or_uid issuer sig pk (pkt nd0) =? 0);
          [done |]. apply (IH _ _ Hk). lia.
Qed.

Lemma find_target_spec (pk issuer : PKT_public_key) (sig : PKT_signature)
    (cc : nat) (l : list nat) (fuel : nat) :
  keyblock D h kb l → cc ∈ l → (length l < fuel)%nat →
  find_target fuel h kb pk issuer sig cc = Ok (target_of D pk issuer sig cc l).
Proof.
  intros Hk Hcc Hf.
  destruct (keyblock_elem _ _ _ _ _ Hk Hcc) as (nd0 & HD & Hd).
  unfold find_target, target_of, verifies. rewrite Hd, HD. cbn [bind].
  change (is_deleted_kbnode (with_next nd0 (succ_in l cc)))
    with (is_deleted_kbnode nd0).
  change (pkt (with_next nd0 (succ_in l cc))) with (pkt nd0).
  rewrite (keyblock_head _ _ _ _ Hk).
  destruct (is_deleted_kbnode nd0); cbn [negb andb].
  - by apply (search_keyblock_spec pk issuer sig cc l []).
  - destruct (check_signature_over_key_or_uid issuer sig pk (pkt nd0) =? 0);
      [done |].
    by apply (search_keyblock_spec pk issuer sig cc l []).
Qed.

Lemma selfsig_audit_spec (pk : PKT_public_key) (post pre : list nat)
    (cc : option nat) (has : bool) (missing : Z) (fuel : nat) :
  keyblock D h kb (pre ++ post) → (length post < fuel)%nat →
  (∀ c, cc = Some c → c ∈ pre) →
  selfsig_audit fuel h pk cc has missing (head post)
  = Ok (fold_left (audit_step D pk) post (cc, has, missing)).2.
Proof.
  revert pre cc has missing fuel.
  induction post as [|a post IH]; intros pre cc has missing fuel Hk Hf Hcc.
  - by destruct fuel.
  - destruct fuel as [|fuel]; [simpl in Hf; lia |].
    destruct (keyblock_cursor _ _ _ _ _ _ Hk) as (nd0 & HD & Hd).
    cbn [head selfsig_audit fold_left]. rewrite Hd. cbn [bind].
    unfold audit_step at 2. rewrite HD.
    change (is_deleted_kbnode (with_next nd0 (head post)))
      with (is_deleted_kbnode nd0).
    change (pkt (with_next nd0 (head post))) with (pkt nd0).
    change (next (with_next nd0 (head post))) with (head post).
    assert (∀ c, cc = Some c → c ∈ pre ++ [a]) as Hcc'.
    { intros c Hc. apply elem_of_app. left. by apply Hcc. }
    assert (a ∈ pre ++ [a]) as Ha by (apply elem_of_app; right; left).
    pose proof Hk as Hk'.
    rewrite app_cons_snoc in Hk. simpl in Hf.
    destruct (is_deleted_kbnode nd0).
    + apply (IH _ _ _ _ _ Hk); [lia | done].
    + destruct (pkt nd0) eqn:Hp.
      * apply (IH _ _ _ _ _ Hk); [lia |]. by intros c [= <-].
      * apply (IH _ _ _ _ _ Hk); [lia |]. by intros c [= <-].
      * apply (IH _ _ _ _ _ Hk); [lia |]. by intros c [= <-].
      * destruct cc as [c|]; [| apply (IH _ _ _ _ _ Hk); [lia | done]].
        destruct has; [apply (IH _ _ _ _ _ Hk); [lia | done] |].
        destruct (negb (flags_checked sig && flags_valid sig));
          [apply (IH _ _ _ _ _ Hk); [lia | done] |].
        destruct (negb (keyid_cmp (pk_keyid pk) (keyid sig) =? 0));
          [apply (IH _ _ _ _ _ Hk); [lia | done] |].
        destruct (keyblock_elem _ _ _ _ c Hk') as (cnd & HDc & Hdc).
        { apply elem_of_app. left. by apply Hcc. }
        rewrite Hdc, HDc. cbn [bind].
        apply (IH _ _ _ _ _ Hk); [lia | done].
      * apply (IH _ _ _ _ _ Hk); [lia | done].
Qed.
End Walks.

(** * Unlinking and relinking nodes *)

Lemma succ_in_head_no_pred (d b : nat) (l : list nat) :
  NoDup (d :: l) → succ_in (d :: l) b ≠ Some d.
Proof.
  intros Hnd Hs. apply NoDup_cons in Hnd as [Hd _]. simpl in Hs.
  destruct (decide (d = b)) as [->|Hne].
  - destruct l as [|c l]; [done |]. simpl in Hs. injection Hs as ->.
    apply Hd. left.
  - apply succ_in_elem in Hs as [_ Hs]. done.
Qed.

Lemma succ_in_last_pre (pre post : list nat) (n p : nat) :
  NoDup (pre ++ n :: post) → last pre = Some p →
  succ_in (pre ++ n :: post) p = Some n.
Proof.
  intros Hnd Hl. apply last_Some in Hl as [pre' ->].
  rewrite <- app_assoc. simpl.
  rewrite succ_in_app_cons; [done |].
  rewrite <- app_assoc in Hnd.
  by destruct (NoDup_app_cons_not_elem _ _ _ Hnd).
Qed.

Lemma succ_in_pred_unique (pre post : list nat) (n a : nat) :
  NoDup (pre ++ n :: post) → succ_in (pre ++ n :: post) a = Some n →
  last pre = Some a.
Proof.
  induction pre as [|b pre IH]; intros Hnd Hs.
  - by apply succ_in_head_no_pred in Hs.
  - change ((b :: pre) ++ n :: post) with (b :: (pre ++ n :: post)) in *.
    pose proof Hnd as Hnd'. apply NoDup_cons in Hnd' as [Hb Hnd'].
    simpl in Hs. destruct (decide (b = a)) as [->|Hne].
    + destruct pre as [|c pre]; [done |]. simpl in Hs. injection Hs as ->.
      exfalso. apply NoDup_cons in Hnd' as [Hc _]. apply Hc.
      apply elem_of_app. right. left.
    + specialize (IH Hnd' Hs). by destruct pre.
Qed.

Lemma succ_in_inj (l : list nat) (a b : nat) :
  NoDup l → a ∈ l → b ∈ l → succ_in l a = succ_in l b → a = b.
Proof.
  induction l as [|c l IH]; intros Hnd Ha Hb Hs; [by apply elem_of_nil in Ha |].
  pose proof Hnd as Hnd'. apply NoDup_cons in Hnd' as [Hc Hnd'].
  simpl in Hs.
  destruct (decide (c = a)) as [Eca|Hca]; destruct (decide (c = b)) as [Ecb|Hcb].
  - congruence.
  - exfalso. apply elem_of_cons in Hb as [Hb|Hb]; [congruence |].
    destruct l as [|d l]; [by apply elem_of_nil in Hb |].
    simpl in Hs. by apply (succ_in_head_no_pred d b l).
  - exfalso. apply elem_of_cons in Ha as [Ha|Ha]; [congruence |].
    destruct l as [|d l]; [by apply elem_of_nil in Ha |].
    simpl in Hs. by apply (succ_in_head_no_pred d a l).
  - apply elem_of_cons in Ha as [Ha|Ha]; [congruence |].
    apply elem_of_cons in Hb as [Hb|Hb]; [congruence |].
    by apply IH.
Qed.

Section Surgery.
Context (D : gmap nat kbnode_struct).

Lemma store_prevp_spec (s : check_state) (pre post : list nat) (n : nat)
    (v : option nat) :
  keyblock D (st_heap s) (st_kb s) (pre ++ n :: post) →
  ∃ h1 kb1,
    store s (prevp_of pre) v = Ok (set_kb (set_heap s h1) kb1)
    ∧ kb1 = match last pre with None => v | Some _ => st_kb s end
    ∧ (∀ a, last pre ≠ Some a → h1 !! a = st_heap s !! a)
    ∧ (∀ p, last pre = Some p →
            ∃ nd0, D !! p = Some nd0 ∧ h1 !! p = Some (with_next nd0 v)).
Proof.
  intros Hk. unfold prevp_of. destruct (last pre) as [p|] eqn:Hl.
  - destruct (keyblock_elem _ _ _ _ p Hk) as (nd0 & HD & Hd).
    { apply elem_of_app. left. apply last_Some in Hl as [pre' ->].
      apply elem_of_app. right. left. }
    exists (<[p := with_next nd0 v]> (st_heap s)), (st_kb s).
    split; [| split; [done | split]].
    + unfold store. rewrite Hd. cbn [bind]. by destruct s.
    + intros a Ha. apply lookup_insert_ne. congruence.
    + intros p' [= <-]. exists nd0. split; [done |]. apply lookup_insert_eq.
  - exists (st_heap s), v. split; [| split; [done | split]].
    + unfold store. by destruct s.
    + done.
    + done.
Qed.

(** Taking node [t] out of the list. *)
Lemma unlink_spec (s : check_state) (l1 l2 : list nat) (t : nat) :
  keyblock D (st_heap s) (st_kb s) (l1 ++ t :: l2) →
  ∃ h1 kb1,
    store s (prevp_of l1) (head l2) = Ok (set_kb (set_heap s h1) kb1)
    ∧ keyblock D (delete t h1) kb1 (l1 ++ l2).
Proof.
  intros Hk.
  destruct (store_prevp_spec s l1 l2 t (head l2) Hk)
    as (h1 & kb1 & Hst & Hkb & Hother & Hpred).
  exists h1, kb1. split; [done |].
  pose proof (keyblock_NoDup _ _ _ _ Hk) as Hnd.
  destruct (NoDup_app_cons_not_elem _ _ _ Hnd) as [Ht1 Ht2].
  split; [| split].
  - rewrite Hkb. rewrite (keyblock_head _ _ _ _ Hk).
    destruct l1 as [|b l1]; [done |].
    destruct (last (b :: l1)) eqn:E; [done |].
    by apply last_None in E.
  - rewrite <- (filter_ne_zipper l1 l2 t Hnd). by apply NoDup_filter.
  - intros a Ha.
    assert (a ≠ t) as Hat.
    { intros ->. apply elem_of_app in Ha as [?|?]; done. }
    assert (a ∈ l1 ++ t :: l2) as Ha'.
    { apply elem_of_app in Ha as [?|?]; apply elem_of_app; [by left |].
      right. by right. }
    rewrite <- (filter_ne_zipper l1 l2 t Hnd).
    rewrite succ_in_filter by done.
    destruct Hk as (_ & _ & Hn). destruct (Hn a Ha') as (nd0 & HD & Hh).
    unfold node_in. rewrite lookup_delete_ne by done.
    destruct (decide (succ_in (l1 ++ t :: l2) a = Some t)) as [E|E].
    + apply succ_in_pred_unique in E; [| done].
      destruct (Hpred a E) as (nd0' & HD' & Hh').
      exists nd0'. split; [done |]. rewrite Hh'.
      by rewrite succ_in_app_cons.
    + exists nd0. split; [done |]. rewrite Hother; [done |].
      intros Hl. apply E. by apply succ_in_last_pre.
Qed.

(** Taking node [n] out and putting it behind node [t]. *)
Lemma splice_spec (s : check_state) (pre post : list nat) (n t : nat) :
  keyblock D (st_heap s) (st_kb s) (pre ++ n :: post) →
  t ∈ pre ++ post → last pre ≠ Some t →
  ∃ h3 kb3 ndn,
    (let* nd := deref (st_heap s) n in
     let* s1 := store s (prevp_of pre) (next nd) in
     let* target1 := deref (st_heap s1) t in
     let* s2 := store_next s1 n (next target1) in
     store_next s2 t (Some n)) = Ok (set_kb (set_heap s h3) kb3)
    ∧ keyblock D h3 kb3 (move_after t n (pre ++ n :: post))
    ∧ h3 !! n = Some ndn ∧ next ndn ≠ head post.
Proof.
  intros Hk Ht Hlast.
  pose proof (keyblock_NoDup _ _ _ _ Hk) as Hnd.
  destruct (NoDup_app_cons_not_elem _ _ _ Hnd) as [Hn1 Hn2].
  assert (t ≠ n) as Htn.
  { intros ->. apply elem_of_app in Ht as [?|?]; done. }
  assert (t ∈ pre ++ n :: post) as Ht'.
  { apply elem_of_app in Ht as [?|?]; apply elem_of_app; [by left |].
    right. by right. }
  assert (n ∈ pre ++ n :: post) as Hn' by (apply elem_of_app; right; left).
  destruct (keyblock_cursor _ _ _ _ _ _ Hk) as (nd0n & HDn & Hdn).
  destruct (keyblock_elem _ _ _ _ t Hk Ht') as (nd0t & HDt & Hdt).
  destruct (store_prevp_spec s pre post n (head post) Hk)
    as (h1 & kb1 & Hst & Hkb & Hother & Hpred).
  assert (last pre ≠ Some n) as Hlastn.
  { intros Hl. apply Hn1. apply last_Some in Hl as [pre' ->].
    apply elem_of_app. right. left. }
  set (L := pre ++ n :: post) in *.
  assert (h1 !! t = Some (with_next nd0t (succ_in L t))) as Ht1.
  { rewrite Hother by done. unfold deref in Hdt.
    destruct (st_heap s !! t); by inversion Hdt. }
  assert (h1 !! n = Some (with_next nd0n (head post))) as Hn1'.
  { rewrite Hother by done. unfold deref in Hdn.
    destruct (st_heap s !! n); by inversion Hdn. }
  set (h2 := <[n := with_next nd0n (succ_in L t)]> h1).
  set (h3 := <[t := with_next nd0t (Some n)]> h2).
  exists h3, kb1, (with_next nd0n (succ_in L t)).
  split; [| split; [| split]].
  - rewrite Hdn. cbn [bind].
    change (next (with_next nd0n (head post))) with (head post).
    rewrite Hst. cbn [bind]. unfold deref at 1. cbn [st_heap set_kb set_heap].
    rewrite Ht1. cbn [bind]. unfold store_next, store.
    cbn [st_heap set_kb set_heap]. unfold deref at 1. rewrite Hn1'.
    cbn [bind st_heap set_kb set_heap with_next next pkt flag private_flag].
    unfold deref. rewrite lookup_insert_ne by congruence. rewrite Ht1.
    cbn [bind]. f_equal.
  - split; [| split].
    + rewrite Hkb. unfold move_after. rewrite head_insert_after.
      unfold L. rewrite filter_ne_zipper by done.
      rewrite (keyblock_head _ _ _ _ Hk). fold L.
      destruct pre as [|b pre]; [done |].
      destruct (last (b :: pre)) eqn:E; [done |]. by apply last_None in E.
    + rewrite move_after_perm; done.
    + intros a Ha. rewrite move_after_perm in Ha by done.
      unfold move_after. rewrite succ_in_insert_after.
      2:{ apply list_elem_of_filter. done. }
      2:{ intros Hin. apply list_elem_of_filter in Hin as [? _]. done. }
      unfold node_in, h3, h2.
      destruct (decide (a = t)) as [->|Hat].
      { exists nd0t. split; [done |]. apply lookup_insert_eq. }
      rewrite lookup_insert_ne by congruence.
      destruct (decide (a = n)) as [->|Han].
      { exists nd0n. split; [done |]. rewrite lookup_insert_eq.
        rewrite succ_in_filter by done.
        destruct (decide (succ_in L t = Some n)) as [E|E]; [| done].
        exfalso. apply Hlast. by apply succ_in_pred_unique in E. }
      rewrite lookup_insert_ne by congruence.
      rewrite succ_in_filter by done.
      destruct Hk as (_ & _ & Hnodes). destruct (Hnodes a Ha) as (nd0 & HD & Hh).
      destruct (decide (succ_in L a = Some n)) as [E|E].
      * apply succ_in_pred_unique in E; [| done].
        destruct (Hpred a E) as (nd0' & HD' & Hh').
        exists nd0'. split; [done |]. rewrite Hh'.
        unfold L. by rewrite succ_in_app_cons.
      * exists nd0. split; [done |]. rewrite Hother; [done |].
        intros Hl. apply E. by apply succ_in_last_pre.
  - unfold h3, h2. rewrite lookup_insert_ne by congruence.
    apply lookup_insert_eq.
  - change (next (with_next nd0n (succ_in L t))) with (succ_in L t).
    intros E. apply Htn.
    apply (succ_in_inj L t n Hnd Ht' Hn').
    rewrite E. unfold L. by rewrite succ_in_app_cons.
Qed.
End Surgery.

(** * What a run can do to the counters and the trace

    These facts hold for every heap and every fuel: they follow the code
    without assuming that the keyblock is well formed. *)

Lemma bind_Ok {A B : Type} (m : result A) (k : A → result B) (y : B) :
  bind m k = Ok y → ∃ x, m = Ok x ∧ k x = Ok y.
Proof. destruct m; simpl; try done. intros Hk. by exists x. Qed.

Lemma store_effect (s s' : check_state) (p : kbnode_ptr) (v : option nat) :
  store s p v = Ok s' → ∃ h' kb', s' = set_kb (set_heap s h') kb'.
Proof.
  destruct p as [|a]; simpl.
  - intros [= <-]. exists (st_heap s), v. by destruct s.
  - intros Hb. apply bind_Ok in Hb as (nd & _ & [= <-]).
    exists (<[a := with_next nd v]> (st_heap s)), (st_kb s). by destruct s.
Qed.

Lemma set_kb_set_heap_twice (s : check_state) (h1 h2 : gmap nat kbnode_struct)
    (k1 k2 : option nat) :
  set_kb (set_heap (set_kb (set_heap s h1) k1) h2) k2 = set_kb (set_heap s h2) k2.
Proof. done. Qed.

Lemma set_kb_set_heap_id (s : check_state) :
  set_kb (set_heap s (st_heap s)) (st_kb s) = s.
Proof. by destruct s. Qed.

Section Effects.
Context `{Collaborators}.

Lemma remove_duplicate_effect (fuel : nat) (s s' : check_state) (t : nat)
    (described : PKT_signature) :
  remove_duplicate fuel s t described = Ok s' → dedup_step s s'.
Proof.
  unfold remove_duplicate. intros Hb.
  apply bind_Ok in Hb as (prevp & _ & Hb).
  apply bind_Ok in Hb as (nd & _ & Hb).
  apply bind_Ok in Hb as (s1 & Hst & [= <-]).
  apply store_effect in Hst as (h' & kb' & ->).
  apply (dedup_step_intro s (delete t h') kb' t described).
Qed.

Lemma dedup_scan_effect (fuel : nat) (rest : list (nat * PKT_signature))
    (s s' : check_state) (last : nat * PKT_signature) :
  dedup_scan fuel s last rest = Ok s' → rtc dedup_step s s'.
Proof.
  revert s last. induction rest as [|cur rest IH]; intros s last; simpl.
  - intros [= <-]. apply rtc_refl.
  - destruct (sig_comparison last.2 cur.2 =? 0).
    + intros Hb. apply bind_Ok in Hb as (s1 & Hrm & Hb).
      eapply rtc_l; [by eapply remove_duplicate_effect | by eapply IH].
    + apply IH.
Qed.

Lemma remove_duplicates_effect (fuel : nat) (sigs : list (nat * PKT_signature))
    (s s' : check_state) :
  remove_duplicates fuel s sigs = Ok s' → rtc dedup_step s s'.
Proof.
  unfold remove_duplicates. destruct (qsort sig_entry_cmp sigs) as [|x rest].
  - intros [= <-]. apply rtc_refl.
  - apply dedup_scan_effect.
Qed.

Lemma place_signature_effect (fuel : nat) (pk issuer : PKT_public_key)
    (s s' : check_state) (n_prevp : kbnode_ptr) (cc n : nat)
    (sig : PKT_signature) :
  place_signature fuel pk issuer s n_prevp cc n sig = Ok s' →
  ∃ h' kb' v, v ≠ VMissing
              ∧ s' = record_verdict v n sig (set_kb (set_heap s h') kb').
Proof.
  unfold place_signature.
  destruct (negb (openpgp_pk_test_algo (pubkey_algo sig) =? 0)).
  { intros [= <-]. exists (st_heap s), (st_kb s), VUnsupportedPk.
    by rewrite set_kb_set_heap_id. }
  destruct (negb (openpgp_md_test_algo (digest_algo sig) =? 0)).
  { intros [= <-]. exists (st_heap s), (st_kb s), VUnsupportedMd.
    by rewrite set_kb_set_heap_id. }
  intros Hb. apply bind_Ok in Hb as (n2 & _ & Hb).
  destruct n2 as [t|].
  - destruct (decide (cc = t)).
    { injection Hb as <-. exists (st_heap s), (st_kb s), VGood.
      by rewrite set_kb_set_heap_id. }
    apply bind_Ok in Hb as (target & _ & Hb).
    destruct (negb (is_component (pkt target))); [done |].
    apply bind_Ok in Hb as (nd & _ & Hb).
    apply bind_Ok in Hb as (s1 & Hs1 & Hb).
    apply bind_Ok in Hb as (target1 & _ & Hb).
    apply bind_Ok in Hb as (s2 & Hs2 & Hb).
    apply bind_Ok in Hb as (s3 & Hs3 & [= <-]).
    unfold store_next in Hs2, Hs3.
    apply store_effect in Hs1 as (h1 & k1 & ->).
    apply store_effect in Hs2 as (h2 & k2 & ->).
    apply store_effect in Hs3 as (h3 & k3 & ->).
    exists h3, k3, (VMove t). done.
  - injection Hb as <-. exists (st_heap s), (st_kb s), VBad.
    by rewrite set_kb_set_heap_id.
Qed.

Lemma check_signature_node_effect (fuel : nat) (pk : PKT_public_key)
    (only_selfsigs : bool) (s s' : check_state) (n_prevp : kbnode_ptr)
    (cc : option nat) (n : nat) (sig : PKT_signature) :
  check_signature_node fuel pk only_selfsigs s n_prevp cc n sig = Ok s' →
  placement_step pk only_selfsigs s s'.
Proof.
  unfold check_signature_node.
  assert (placement_step pk only_selfsigs s s) as Hskip.
  { pose proof (placement_step_intro pk only_selfsigs s (st_heap s) (st_kb s)
                  VSkip n sig) as Hst.
    rewrite set_kb_set_heap_id in Hst. by apply Hst. }
  destruct cc as [c|]; [| by intros [= <-]].
  destruct (Z.eqb_spec (keyid_cmp (pk_keyid pk) (keyid sig)) 0) as [E|E].
  - intros Hp. apply place_signature_effect in Hp as (h' & kb' & v & Hv & ->).
    apply placement_step_intro. destruct v; simpl; auto; done.
  - destruct only_selfsigs eqn:Hself; [by intros [= <-] |].
    destruct (get_pubkey (keyid sig)) as [issuer|].
    + intros Hp. apply place_signature_effect in Hp as (h' & kb' & v & Hv & ->).
      apply placement_step_intro. destruct v; simpl; auto; done.
    + intros [= <-].
      pose proof (placement_step_intro pk false s (st_heap s) (st_kb s)
                    VMissing n sig) as Hst.
      rewrite set_kb_set_heap_id in Hst. by apply Hst.
Qed.

Lemma placement_body_effect (fuel : nat) (pk : PKT_public_key) (pk_ptr : nat)
    (only_selected only_selfsigs : bool) (s : check_state)
    (n_prevp : kbnode_ptr) (cc : option nat) (n : nat) (nd : kbnode_struct)
    (r : check_state * option nat) :
  placement_body fuel pk pk_ptr only_selected only_selfsigs s n_prevp cc n nd
  = Ok r →
  rtc (placement_step pk only_selfsigs) s r.1.
Proof.
  unfold placement_body. destruct (pkt nd).
  - destruct (negb (bool_decide (pkt_ptr nd = pk_ptr))); [done |].
    destruct (only_selected && negb (flag_set nd NODFLG_SELKEY));
      intros [= <-]; apply rtc_refl.
  - destruct (only_selected && negb (flag_set nd NODFLG_SELKEY));
      intros [= <-]; apply rtc_refl.
  - destruct (only_selected && negb (flag_set nd NODFLG_SELUID));
      intros [= <-]; apply rtc_refl.
  - intros Hb. apply bind_Ok in Hb as (s' & Hc & [= <-]).
    apply rtc_once. by eapply check_signature_node_effect.
  - intros [= <-]. apply rtc_refl.
Qed.

Lemma placement_loop_effect (fuel walk : nat) (pk : PKT_public_key)
    (pk_ptr : nat) (only_selected only_selfsigs : bool) (s s' : check_state)
    (n_prevp : kbnode_ptr) (cc n : option nat) :
  placement_loop fuel walk pk pk_ptr only_selected only_selfsigs s n_prevp cc n
  = Ok s' →
  rtc (placement_step pk only_selfsigs) s s'.
Proof.
  revert s n_prevp cc n. induction fuel as [|fuel IH]; intros s n_prevp cc n.
  - destruct n; simpl; [done |]. intros [= <-]. apply rtc_refl.
  - destruct n as [a|]; simpl; [| intros [= <-]; apply rtc_refl].
    intros Hb. apply bind_Ok in Hb as (nd & _ & Hb).
    apply bind_Ok in Hb as (r & Hr & Hb).
    apply bind_Ok in Hb as (nd' & _ & Hb).
    apply IH in Hb. etrans; [| exact Hb].
    destruct (is_deleted_kbnode nd).
    + injection Hr as <-. apply rtc_refl.
    + by eapply placement_body_effect.
Qed.
End Effects.

(** ** The counters follow the trace *)

Lemma count_events_snoc (P : event → bool) (tr : list event) (e : event) :
  count_events P (tr ++ [e]) = count_events P tr + (if P e then 1 else 0).
Proof.
  unfold count_events. rewrite filter_app, length_app.
  rewrite filter_cons, filter_nil.
  destruct (P e); simpl; lia.
Qed.

Lemma count_events_nonneg (P : event → bool) (tr : list event) :
  0 ≤ count_events P tr.
Proof. unfold count_events. lia. Qed.

Lemma accounted_initial (h : gmap nat kbnode_struct) (kb : option nat) :
  accounted (initial_state h kb).
Proof. by repeat split. Qed.

Lemma accounted_dedup_step (s s' : check_state) :
  accounted s → dedup_step s s' → accounted s'.
Proof.
  intros (Hd & Hm & Hr & Hb & Hmod) Hstep. destruct Hstep.
  unfold accounted. simpl. rewrite !count_events_snoc. simpl.
  pose proof (count_events_nonneg is_EvDuplicate (trace s)).
  pose proof (count_events_nonneg is_EvOutOfOrder (trace s)).
  repeat split; try lia.
  destruct (Z.ltb_spec 0 (dups s + 1 + reordered s)); lia.
Qed.

Lemma accounted_placement_step (pk : PKT_public_key) (self : bool)
    (s s' : check_state) :
  accounted s → placement_step pk self s s' → accounted s'.
Proof.
  intros (Hd & Hm & Hr & Hb & Hmod) Hstep. destruct Hstep as [s h' kb' v n sig _].
  pose proof (count_events_nonneg is_EvDuplicate (trace s)).
  pose proof (count_events_nonneg is_EvOutOfOrder (trace s)).
  unfold accounted.
  destruct v; simpl; rewrite ?count_events_snoc; simpl;
    repeat split; try lia.
  destruct (Z.ltb_spec 0 (dups s + (reordered s + 1))); lia.
Qed.

Lemma accounted_rtc_dedup (s s' : check_state) :
  accounted s → rtc dedup_step s s' → accounted s'.
Proof.
  intros Ha Hr. induction Hr; [done |].
  apply IHHr. by eapply accounted_dedup_step.
Qed.

Lemma accounted_rtc_placement (pk : PKT_public_key) (self : bool)
    (s s' : check_state) :
  accounted s → rtc (placement_step pk self) s s' → accounted s'.
Proof.
  intros Ha Hr. induction Hr; [done |].
  apply IHHr. by eapply accounted_placement_step.
Qed.

(** ** In self-signatures-only mode *)

Lemma selfsig_events_dedup (pk : PKT_public_key) (s s' : check_state) :
  Forall (selfsig_event pk) (trace s) → rtc dedup_step s s' →
  Forall (selfsig_event pk) (trace s').
Proof.
  intros Ha Hr. induction Hr as [|s1 s2 s3 Hs _ IH]; [done |].
  apply IH. destruct Hs. simpl. apply Forall_app. split; [done |].
  by apply Forall_singleton.
Qed.

Lemma selfsig_events_placement (pk : PKT_public_key) (s s' : check_state) :
  Forall (selfsig_event pk) (trace s) →
  rtc (placement_step pk true) s s' →
  Forall (selfsig_event pk) (trace s').
Proof.
  intros Ha Hr. induction Hr as [|s1 s2 s3 Hs _ IH]; [done |].
  apply IH. destruct Hs as [s h' kb' v n sig Hv].
  destruct v; simpl in *; try done;
    try (apply Forall_app; split; [done |]; by apply Forall_singleton).
  - destruct Hv; done.
  - apply Forall_app; split; [done |]. apply Forall_singleton.
    simpl. by destruct Hv.
  - apply Forall_app; split; [done |]. apply Forall_singleton.
    simpl. by destruct Hv.
Qed.

(** The second loop leaves the duplicate counter and its events alone. *)
Lemma placement_keeps_dups (pk : PKT_public_key) (self : bool)
    (s s' : check_state) :
  rtc (placement_step pk self) s s' →
  dups s' = dups s ∧ killed_of (trace s') = killed_of (trace s).
Proof.
  intros Hr. induction Hr as [|s1 s2 s3 Hs _ IH]; [done |].
  destruct IH as [-> ->]. destruct Hs as [s h' kb' v n sig _].
  unfold killed_of.
  destruct v; simpl; rewrite ?omap_app; simpl; rewrite ?app_nil_r; done.
Qed.

(** * Verdicts *)

Lemma sig_of_not_component (D : gmap nat kbnode_struct) (n : nat)
    (sig : PKT_signature) :
  sig_of D n = Some sig → live_component D n = false.
Proof.
  unfold sig_of, live_component. destruct (D !! n) as [nd|]; [| done].
  destruct (is_deleted_kbnode nd); [done |].
  by destruct (pkt nd).
Qed.

Lemma cc_of_elem (D : gmap nat kbnode_struct) (sel : bool) (cc0 : option nat)
    (pre : list nat) (c : nat) :
  cc_of D sel cc0 pre = Some c → c ∈ pre ∨ cc0 = Some c.
Proof.
  revert cc0. induction pre as [|a pre IH]; intros cc0; simpl; [auto |].
  intros Hc. destruct (IH _ Hc) as [Hin|Hst].
  - left. by right.
  - unfold step_component in Hst. destruct (D !! a) as [nd|]; [| auto].
    destruct (is_deleted_kbnode nd); [auto |].
    destruct (is_component (pkt nd)); [| auto].
    destruct (selects sel nd); [| done].
    injection Hst as ->. left. left.
Qed.

Lemma cc_of_live (D : gmap nat kbnode_struct) (sel : bool) (pre : list nat)
    (c : nat) :
  cc_of D sel None pre = Some c → live_component D c = true.
Proof.
  induction pre as [|a pre IH] using rev_ind; [done |].
  rewrite cc_of_snoc. unfold step_component, live_component.
  destruct (D !! a) as [nd|] eqn:Hnd; [| done].
  destruct (is_deleted_kbnode nd) eqn:Hdel; [done |].
  destruct (is_component (pkt nd)) eqn:Hc; [| done].
  destruct (selects sel nd); [| done].
  intros [= <-]. by rewrite Hnd, Hdel, Hc.
Qed.

Lemma cc_of_last (D : gmap nat kbnode_struct) (sel : bool) (pre : list nat)
    (t c : nat) :
  last pre = Some t → live_component D t = true →
  cc_of D sel None pre = Some c → c = t.
Proof.
  intros Hl Ht. apply last_Some in Hl as [pre' ->].
  rewrite cc_of_snoc.
  destruct (step_component_live D sel (cc_of D sel None pre') t Ht) as [->| ->];
    congruence.
Qed.

Section Verdicts.
Context `{Collaborators}.
Context (D : gmap nat kbnode_struct) (pk : PKT_public_key) (sel self : bool).

Lemma scan_target_Some (issuer : PKT_public_key) (sig : PKT_signature)
    (cc t : nat) (l : list nat) :
  scan_target D pk issuer sig cc l = Some t →
  t ∈ l ∧ t ≠ cc ∧ verifies D pk issuer sig t = true.
Proof.
  induction l as [|a l IH]; simpl; [done |].
  destruct (bool_decide (a ≠ cc) && verifies D pk issuer sig a) eqn:E.
  - intros [= <-]. apply andb_true_iff in E as [E1 E2].
    apply bool_decide_eq_true in E1. split; [left | done].
  - intros Hs. destruct (IH Hs) as (? & ? & ?). split; [by right | done].
Qed.

Lemma scan_target_None (issuer : PKT_public_key) (sig : PKT_signature)
    (cc : nat) (l : list nat) :
  scan_target D pk issuer sig cc l = None ↔
  Forall (λ a, bool_decide (a ≠ cc) && verifies D pk issuer sig a = false) l.
Proof.
  induction l as [|a l IH]; simpl.
  - split; [constructor | done].
  - destruct (bool_decide (a ≠ cc) && verifies D pk issuer sig a) eqn:E.
    + split; [done |]. intros Hf. apply Forall_cons in Hf as [Hf _]. congruence.
    + rewrite IH. split; [by constructor |].
      intros Hf. by apply Forall_cons in Hf as [_ Hf].
Qed.

Lemma verifies_live (issuer : PKT_public_key) (sig : PKT_signature) (t : nat) :
  verifies D pk issuer sig t = true →
  ∃ nd, D !! t = Some nd ∧ is_deleted_kbnode nd = false.
Proof.
  unfold verifies. destruct (D !! t) as [nd|]; [| done].
  intros E. apply andb_true_iff in E as [E _]. exists nd.
  split; [done |]. by destruct (is_deleted_kbnode nd).
Qed.

Lemma squash_classify_perm (issuer : PKT_public_key) (sig : PKT_signature)
    (cc : nat) (l l' : list nat) :
  l ≡ₚ l' →
  squash (classify D pk issuer l sig cc) = squash (classify D pk issuer l' sig cc).
Proof.
  intros Hp. unfold classify.
  destruct (negb (openpgp_pk_test_algo (pubkey_algo sig) =? 0)); [done |].
  destruct (negb (openpgp_md_test_algo (digest_algo sig) =? 0)); [done |].
  unfold target_of. destruct (verifies D pk issuer sig cc); [done |].
  destruct (scan_target D pk issuer sig cc l) as [t|] eqn:E;
    destruct (scan_target D pk issuer sig cc l') as [t'|] eqn:E'.
  - apply scan_target_Some in E as (_ & Ht & _).
    apply scan_target_Some in E' as (_ & Ht' & _).
    rewrite !decide_False by congruence. done.
  - exfalso. apply scan_target_None in E'. rewrite <- Hp in E'.
    apply scan_target_None in E'. congruence.
  - exfalso. apply scan_target_None in E. rewrite Hp in E.
    apply scan_target_None in E. congruence.
  - done.
Qed.

Lemma squash_judge_perm (cc : option nat) (sig : PKT_signature)
    (l l' : list nat) :
  l ≡ₚ l' →
  squash (judge D pk self l cc sig) = squash (judge D pk self l' cc sig).
Proof.
  intros Hp. unfold judge. destruct cc as [c|]; [| done].
  destruct (keyid_cmp (pk_keyid pk) (keyid sig) =? 0);
    [by apply squash_classify_perm |].
  destruct self; [done |].
  destruct (get_pubkey (keyid sig)); [by apply squash_classify_perm | done].
Qed.

Lemma classify_move (issuer : PKT_public_key) (sig : PKT_signature)
    (c t : nat) (l l' : list nat) :
  classify D pk issuer l sig c = VMove t →
  t ∈ l ∧ t ≠ c ∧ verifies D pk issuer sig t = true
  ∧ classify D pk issuer l' sig t = VGood.
Proof.
  unfold classify.
  destruct (negb (openpgp_pk_test_algo (pubkey_algo sig) =? 0)); [done |].
  destruct (negb (openpgp_md_test_algo (digest_algo sig) =? 0)); [done |].
  unfold target_of. destruct (verifies D pk issuer sig c) eqn:Ec.
  { by rewrite decide_True. }
  destruct (scan_target D pk issuer sig c l) as [t'|] eqn:E; [| done].
  destruct (decide (c = t')); [done |]. intros [= ->].
  apply scan_target_Some in E as (Hin & Hne & Hv).
  rewrite Hv. by rewrite decide_True.
Qed.

Lemma judge_move (sig : PKT_signature) (cc : option nat) (t : nat)
    (l l' : list nat) :
  judge D pk self l cc sig = VMove t →
  ∃ c, cc = Some c ∧ t ∈ l ∧ t ≠ c
       ∧ (∃ nd, D !! t = Some nd ∧ is_deleted_kbnode nd = false)
       ∧ judge D pk self l' (Some t) sig = VGood.
Proof.
  unfold judge. destruct cc as [c|]; [| done].
  destruct (keyid_cmp (pk_keyid pk) (keyid sig) =? 0).
  - intros Hc. apply (classify_move _ _ _ _ _ l') in Hc as (? & ? & Hv & ?).
    exists c. repeat split; try done. by eapply verifies_live.
  - destruct self; [done |].
    destruct (get_pubkey (keyid sig)) as [issuer|]; [| done].
    intros Hc. apply (classify_move _ _ _ _ _ l') in Hc as (? & ? & Hv & ?).
    exists c. repeat split; try done. by eapply verifies_live.
Qed.

Lemma judge_move_issuer (sig : PKT_signature) (cc : option nat) (t : nat)
    (l : list nat) :
  judge D pk self l cc sig = VMove t →
  ∃ issuer,
    (if keyid_cmp (pk_keyid pk) (keyid sig) =? 0 then issuer = pk
     else get_pubkey (keyid sig) = Some issuer)
    ∧ verifies D pk issuer sig t = true.
Proof.
  unfold judge. destruct cc as [c|]; [| done].
  destruct (keyid_cmp (pk_keyid pk) (keyid sig) =? 0).
  - intros Hj. exists pk. split; [done |].
    by apply (classify_move _ _ _ _ _ l) in Hj as (_ & _ & Hv & _).
  - destruct self; [done |].
    destruct (get_pubkey (keyid sig)) as [issuer|]; [| done].
    intros Hj. exists issuer. split; [done |].
    by apply (classify_move _ _ _ _ _ l) in Hj as (_ & _ & Hv & _).
Qed.

(** With a verification that succeeds over components only, the node a
    signature is to be moved behind is a component that is not deleted. *)
Lemma judge_move_component (sig : PKT_signature) (cc : option nat) (t : nat)
    (l : list nat) :
  judge D pk self l cc sig = VMove t → components_only pk →
  live_component D t = true.
Proof.
  intros Hj Hcomp.
  assert (∃ issuer, verifies D pk issuer sig t = true) as [issuer Hv].
  { unfold judge in Hj. destruct cc as [c|]; [| done].
    destruct (keyid_cmp (pk_keyid pk) (keyid sig) =? 0).
    - exists pk. by apply (classify_move _ _ _ _ _ l) in Hj as (_ & _ & Hv & _).
    - destruct self; [done |].
      destruct (get_pubkey (keyid sig)) as [issuer|]; [| done].
      exists issuer.
      by apply (classify_move _ _ _ _ _ l) in Hj as (_ & _ & Hv & _). }
  unfold verifies in Hv. unfold live_component.
  destruct (D !! t) as [nd|]; [| done].
  apply andb_true_iff in Hv as [-> Hv]. apply Z.eqb_eq in Hv.
  by rewrite (Hcomp _ _ _ Hv).
Qed.

Lemma verdict_at_move_other (L : list nat) (t n m : nat) :
  NoDup L → n ∈ L → t ∈ L → t ≠ n → live_component D n = false → m ≠ n →
  verdict_at D pk sel self (move_after t n L) m = verdict_at D pk sel self L m.
Proof.
  intros Hnd Hn Ht Htn Hlive Hmn. unfold verdict_at.
  destruct (sig_of D m) as [sig|]; [| done].
  rewrite context_of_move_after by done.
  apply squash_judge_perm. by apply move_after_perm.
Qed.

Lemma verdict_at_moved (L : list nat) (cc : option nat) (t n : nat)
    (sig : PKT_signature) :
  NoDup L → n ∈ L → sig_of D n = Some sig →
  judge D pk self L cc sig = VMove t → live_component D t = true →
  verdict_at D pk sel self (move_after t n L) n = VGood
  ∨ verdict_at D pk sel self (move_after t n L) n = VSkip.
Proof.
  intros Hnd Hn Hsig Hj Hlive. unfold verdict_at. rewrite Hsig.
  apply (judge_move _ _ _ _ (move_after t n L)) in Hj
    as (c & -> & Ht & Htc & _ & Hgood).
  assert (t ≠ n) as Htn.
  { intros ->. apply sig_of_not_component in Hsig. congruence. }
  rewrite context_of_moved by done.
  destruct (step_component_live D sel None t Hlive) as [-> | ->].
  - left. by rewrite Hgood.
  - by right.
Qed.

Lemma verdict_at_cursor (pre post : list nat) (n : nat) (sig : PKT_signature) :
  NoDup (pre ++ n :: post) → sig_of D n = Some sig →
  verdict_at D pk sel self (pre ++ n :: post) n
  = squash (judge D pk self (pre ++ n :: post) (cc_of D sel None pre) sig).
Proof.
  intros Hnd Hsig. unfold verdict_at. rewrite Hsig.
  rewrite context_of_zipper; [done |].
  by destruct (NoDup_app_cons_not_elem _ _ _ Hnd).
Qed.

Lemma verdict_at_no_sig (l : list nat) (m : nat) :
  sig_of D m = None → verdict_at D pk sel self l m = VSkip.
Proof. intros E. unfold verdict_at. by rewrite E. Qed.

(** ** The signature case on a well-formed keyblock *)

Lemma place_signature_spec (walk : nat) (issuer : PKT_public_key)
    (s : check_state) (pre post : list nat) (c n : nat) (sig : PKT_signature) :
  keyblock D (st_heap s) (st_kb s) (pre ++ n :: post) →
  sig_of D n = Some sig →
  cc_of D sel None pre = Some c →
  (length (pre ++ n :: post) < walk)%nat →
  placed D s pre post n sig (classify D pk issuer (pre ++ n :: post) sig c)
    (place_signature walk pk issuer s (prevp_of pre) c n sig).
Proof.
  intros Hk Hsig Hcc Hw.
  assert (c ∈ pre ++ n :: post) as Hc.
  { apply cc_of_elem in Hcc as [?|?]; [| done]. apply elem_of_app. by left. }
  unfold place_signature.
  destruct (classify D pk issuer (pre ++ n :: post) sig c) eqn:Ecl;
    unfold classify in Ecl;
    destruct (negb (openpgp_pk_test_algo (pubkey_algo sig) =? 0)); try done;
    destruct (negb (openpgp_md_test_algo (digest_algo sig) =? 0)); try done;
    rewrite (find_target_spec D _ _ pk issuer sig c _ walk Hk Hc Hw);
    cbn [bind];
    destruct (target_of D pk issuer sig c (pre ++ n :: post)) as [t'|] eqn:Et;
    try done; destruct (decide (c = t')) as [Ect|Ect]; try done.
  injection Ecl as ->.
  (* the relocation *)
  unfold target_of in Et. destruct (verifies D pk issuer sig c); [congruence |].
  apply scan_target_Some in Et as (Hin & Hne & Hv).
  destruct (verifies_live _ _ _ Hv) as (ndt & HDt & Hdel).
  destruct (keyblock_elem _ _ _ _ t Hk Hin) as (nd0 & HD0 & Hd).
  assert (nd0 = ndt) as -> by congruence.
  unfold placed. unfold live_component. rewrite HDt, Hdel. cbn [negb andb].
  rewrite Hd. cbn [bind].
  change (pkt (with_next ndt (succ_in (pre ++ n :: post) t))) with (pkt ndt).
  destruct (is_component (pkt ndt)) eqn:Hcomp; cbn [negb]; [| done].
  assert (t ≠ n) as Htn.
  { intros ->. apply sig_of_not_component in Hsig.
    unfold live_component in Hsig. rewrite HDt, Hdel, Hcomp in Hsig. done. }
  assert (t ∈ pre ++ post) as Hin'.
  { apply elem_of_app in Hin as [?|Hin]; apply elem_of_app; [by left |].
    apply elem_of_cons in Hin as [?|?]; [done | by right]. }
  assert (last pre ≠ Some t) as Hlast.
  { intros Hl. apply Hne. symmetry. eapply cc_of_last; [done | | done].
    unfold live_component. by rewrite HDt, Hdel, Hcomp. }
  destruct (splice_spec D s pre post n t Hk Hin' Hlast)
    as (h3 & kb3 & ndn & Hrun & Hk3 & Hn3 & Hnext).
  exists h3, kb3, ndn. split; [| done].
  apply bind_Ok in Hrun as (nd & Hnd & Hrun). rewrite Hnd. cbn [bind].
  apply bind_Ok in Hrun as (s1 & Hs1 & Hrun). rewrite Hs1. cbn [bind].
  apply bind_Ok in Hrun as (t1 & Ht1 & Hrun). rewrite Ht1. cbn [bind].
  apply bind_Ok in Hrun as (s2 & Hs2 & Hrun). rewrite Hs2. cbn [bind].
  rewrite Hrun. done.
Qed.

Lemma check_signature_node_spec (walk : nat) (s : check_state)
    (pre post : list nat) (n : nat) (sig : PKT_signature) :
  keyblock D (st_heap s) (st_kb s) (pre ++ n :: post) →
  sig_of D n = Some sig →
  (length (pre ++ n :: post) < walk)%nat →
  placed D s pre post n sig
    (judge D pk self (pre ++ n :: post) (cc_of D sel None pre) sig)
    (check_signature_node walk pk self s (prevp_of pre)
       (cc_of D sel None pre) n sig).
Proof.
  intros Hk Hsig Hw. unfold check_signature_node, judge.
  destruct (cc_of D sel None pre) as [c|] eqn:Hcc; [| done].
  destruct (keyid_cmp (pk_keyid pk) (keyid sig) =? 0).
  - by apply place_signature_spec.
  - destruct self; [done |].
    destruct (get_pubkey (keyid sig)) as [issuer|]; [| done].
    by apply place_signature_spec.
Qed.
End Verdicts.

(** * The second loop on a well-formed keyblock *)

Lemma filter_ext_elem {A : Type} (P Q : A → Prop) `{!∀ x, Decision (P x)}
    `{!∀ x, Decision (Q x)} (l : list A) :
  (∀ x, x ∈ l → (P x ↔ Q x)) → filter P l = filter Q l.
Proof.
  induction l as [|a l IH]; intros Hext; [done |].
  rewrite !filter_cons.
  assert (P a ↔ Q a) as Ha by (apply Hext; left).
  rewrite IH by (intros x Hx; apply Hext; by right).
  destruct (decide (P a)), (decide (Q a)); tauto.
Qed.

Lemma moved_of_snoc (tr : list event) (e : event) :
  moved_of (tr ++ [e]) =
  moved_of tr ++ match e with EvOutOfOrder n _ _ => [n] | _ => [] end.
Proof. unfold moved_of. rewrite omap_app. simpl. by destruct e. Qed.

Lemma moved_of_record (v : verdict) (n : nat) (sig : PKT_signature)
    (s : check_state) :
  moved_of (trace (record_verdict v n sig s)) =
  moved_of (trace s) ++ match v with VMove _ => [n] | _ => [] end.
Proof.
  destruct v; simpl; rewrite ?moved_of_snoc; simpl; by rewrite ?app_nil_r.
Qed.

Lemma bad_of_record (v : verdict) (n : nat) (sig : PKT_signature)
    (s : check_state) :
  bad_of (trace (record_verdict v n sig s)) =
  bad_of (trace s) ++ match v with VBad => [n] | _ => [] end.
Proof.
  unfold bad_of.
  destruct v; simpl; rewrite ?omap_app; simpl; by rewrite ?app_nil_r.
Qed.

Lemma head_move_after (t n : nat) (l : list nat) :
  head l ≠ Some n → head (move_after t n l) = head l.
Proof.
  intros Hh. unfold move_after. rewrite head_insert_after.
  destruct l as [|b l]; [done |].
  rewrite filter_cons_True; [done |]. simpl in Hh. congruence.
Qed.

Lemma primary_ok_sig (D : gmap nat kbnode_struct) (pk_ptr n : nat)
    (sig : PKT_signature) :
  sig_of D n = Some sig → primary_ok D pk_ptr n.
Proof.
  unfold sig_of, primary_ok. intros Hs nd pk' HD Hdel Hp.
  rewrite HD, Hdel, Hp in Hs. done.
Qed.

Lemma filter_not_moved_snoc (M : list nat) (n : nat) (l : list nat) :
  filter (λ a, a ∉ M ++ [n]) l = filter (λ a, a ≠ n) (filter (λ a, a ∉ M) l).
Proof.
  rewrite list_filter_filter. apply filter_ext_elem. intros x _.
  rewrite not_elem_of_app, not_elem_of_cons. split.
  - intros (? & ? & _). done.
  - intros [? ?]. repeat split; [done.. |]. apply not_elem_of_nil.
Qed.

Lemma length_filter_not_moved_snoc (M : list nat) (n : nat) (l : list nat) :
  (length (filter (λ a, a ∉ M ++ [n]) l) ≤ length (filter (λ a, a ∉ M) l))%nat.
Proof. rewrite filter_not_moved_snoc. apply length_filter. Qed.

Section Placement.
Context `{Collaborators}.
Context (D : gmap nat kbnode_struct) (pk : PKT_public_key) (pk_ptr : nat).
Context (sel self : bool) (L0 : list nat) (s0 : check_state).

Local Abbreviation Inv := (placement_inv D pk sel self pk_ptr L0 s0).
Local Abbreviation vat := (verdict_at D pk sel self).

Lemma count_verdict_snoc (v : verdict) (l pre : list nat) (a : nat) :
  count_verdict D pk sel self v l (pre ++ [a])
  = count_verdict D pk sel self v l pre
    + (if decide (vat l a = v) then 1 else 0).
Proof.
  unfold count_verdict. rewrite filter_app, length_app, filter_cons, filter_nil.
  destruct (decide (vat l a = v)); simpl; lia.
Qed.

Lemma placement_inv_init :
  keyblock D (st_heap s0) (st_kb s0) L0 →
  moved_of (trace s0) = [] → bad_of (trace s0) = [] →
  Inv s0 [] L0.
Proof.
  intros Hk Hm Hb. split; simpl; rewrite ?Hm, ?Hb.
  - done.
  - done.
  - done.
  - intros m Hin. by apply elem_of_nil in Hin.
  - intros m Hin. by apply elem_of_nil in Hin.
  - intros m Hin. by apply elem_of_nil in Hin.
  - constructor.
  - intros m Hin. by apply elem_of_nil in Hin.
  - done.
  - unfold count_verdict. simpl. lia.
  - unfold count_verdict. simpl. lia.
  - done.
  - intros m Hin. by apply elem_of_nil in Hin.
Qed.

(** The loop passes node [a] without touching the keyblock. *)
Lemma placement_inv_pass (s s' : check_state) (pre post : list nat) (a : nat) :
  Inv s pre (a :: post) →
  st_heap s' = st_heap s → st_kb s' = st_kb s →
  moved_of (trace s') = moved_of (trace s) →
  (∀ n, n ∈ bad_of (trace s') →
        n ∈ bad_of (trace s) ∨ (n = a ∧ vat (pre ++ a :: post) a = VBad)) →
  primary_ok D pk_ptr a →
  is_move (vat (pre ++ a :: post) a) = false →
  bad_signature s' = bad_signature s
    + (if decide (vat (pre ++ a :: post) a = VBad) then 1 else 0) →
  missing_issuer s' = missing_issuer s
    + (if decide (vat (pre ++ a :: post) a = VMissing) then 1 else 0) →
  Inv s' (pre ++ [a]) post.
Proof.
  intros [Hk Hp Hhd Hpr Hs Hmo Hm Hbf Ho Hb Hmi Hq Hbh]
    Hh Hkb Hmv Hbo Hprim Hv Hbad Hmiss.
  split; rewrite <- ?app_assoc; simpl; rewrite ?Hh, ?Hkb, ?Hmv; try done.
  - intros m Hin. apply elem_of_app in Hin as [Hin|Hin]; [by apply Hpr |].
    by apply list_elem_of_singleton in Hin as ->.
  - intros m Hin. apply elem_of_app in Hin as [Hin|Hin]; [by apply Hs |].
    by apply list_elem_of_singleton in Hin as ->.
  - intros n Hn. destruct (Hbo n Hn) as [Hold|[-> Hva]].
    + destruct (Hbf n Hold). split; [| done]. apply elem_of_app. by left.
    + split; [apply elem_of_app; right; left |].
      intros Hin. destruct (Hmo a Hin) as [E|E]; rewrite E in Hva; done.
  - rewrite Hbad, Hb, count_verdict_snoc. lia.
  - rewrite Hmiss, Hmi, count_verdict_snoc. lia.
Qed.

(** The loop relocates node [n] behind node [t]. *)
Lemma placement_inv_move (s : check_state) (pre post : list nat) (n t : nat)
    (sig : PKT_signature) (h3 : gmap nat kbnode_struct) (kb3 : option nat) :
  Inv s pre (n :: post) →
  sig_of D n = Some sig →
  judge D pk self (pre ++ n :: post) (cc_of D sel None pre) sig = VMove t →
  live_component D t = true →
  keyblock D h3 kb3 (move_after t n (pre ++ n :: post)) →
  (n ∉ moved_of (trace s))
  ∧ ((t ∈ pre
      ∧ Inv (record_verdict (VMove t) n sig (set_kb (set_heap s h3) kb3))
          (insert_after t n pre) post)
     ∨ (t ∈ post
        ∧ Inv (record_verdict (VMove t) n sig (set_kb (set_heap s h3) kb3))
            pre (insert_after t n post))).
Proof.
  intros [Hk Hp Hhd Hpr Hs Hmo Hm Hbf Ho Hb Hmi Hq Hbh] Hsig Hj Hlive Hk3.
  pose proof (keyblock_NoDup _ _ _ _ Hk) as Hnd.
  destruct (NoDup_app_cons_not_elem _ _ _ Hnd) as [Hn1 Hn2].
  set (L := pre ++ n :: post) in *.
  assert (n ∈ L) as HnL by (apply elem_of_app; right; left).
  destruct (judge_move D pk self _ _ _ _ L Hj) as (c & Hcc & HtL & Htc & _ & _).
  assert (t ≠ n) as Htn.
  { intros ->. apply sig_of_not_component in Hsig. congruence. }
  assert (live_component D n = false) as Hnc
    by (by eapply sig_of_not_component).
  assert (vat L n = VMove 0%nat) as Hvn.
  { unfold L. rewrite (verdict_at_cursor D pk sel self pre post n sig) by done.
    fold L. by rewrite Hj. }
  assert (n ∉ moved_of (trace s)) as HnM.
  { intros Hin. destruct (Hmo n Hin) as [E|E]; rewrite E in Hvn; done. }
  split; [done |].
  set (s' := record_verdict (VMove t) n sig (set_kb (set_heap s h3) kb3)).
  assert (moved_of (trace s') = moved_of (trace s) ++ [n]) as HM'.
  { unfold s'. by rewrite moved_of_record. }
  assert (bad_of (trace s') = bad_of (trace s)) as HB'.
  { unfold s'. by rewrite bad_of_record, app_nil_r. }
  assert (vat (move_after t n L) n = VGood ∨ vat (move_after t n L) n = VSkip)
    as Hvn' by (by eapply verdict_at_moved).
  assert (∀ m, m ≠ n → vat (move_after t n L) m = vat L m) as Hvo.
  { intros m Hmn. by apply verdict_at_move_other. }
  assert (move_after t n L ≡ₚ L) as Hperm by (by apply move_after_perm).
  assert (head L ≠ Some n) as HhL.
  { unfold L. destruct pre as [|b pre]; [done |]. simpl. intros [= ->].
    apply Hn1. left. }
  assert (∀ pre' post', move_after t n L = pre' ++ post' →
            (∀ m, m ∈ pre' ↔ (m = n ∧ t ∈ pre) ∨ m ∈ pre) →
            (∀ v, v = VBad ∨ v = VMissing →
                  count_verdict D pk sel self v (pre' ++ post') pre'
                  = count_verdict D pk sel self v L pre) →
            Inv s' pre' post') as Hbuild.
  { intros pre' post' HL' Hpre' Hcount. split.
    - rewrite <- HL'. done.
    - rewrite <- HL'. by rewrite Hperm.
    - rewrite <- HL'. by rewrite head_move_after.
    - intros m Hin. apply Hpre' in Hin as [[-> _]|Hin]; [| by apply Hpr].
      by eapply primary_ok_sig.
    - rewrite <- HL'. intros m Hin.
      destruct (decide (m = n)) as [->|Hmn].
      { by destruct Hvn' as [-> | ->]. }
      rewrite Hvo by done. apply Hs.
      apply Hpre' in Hin as [[? _]|Hin]; done.
    - rewrite <- HL', HM'. intros m Hin.
      destruct (decide (m = n)) as [->|Hmn]; [done |].
      rewrite Hvo by done. apply Hmo.
      apply elem_of_app in Hin as [Hin|Hin]; [done |].
      by apply list_elem_of_singleton in Hin.
    - rewrite HM'. apply NoDup_app. split; [done |]. split.
      + intros x Hx Hx'. apply list_elem_of_singleton in Hx' as ->. done.
      + apply NoDup_singleton.
    - rewrite HB', HM'. intros m Hin. destruct (Hbf m Hin) as [Hmp HmM].
      split; [apply Hpre'; by right |].
      rewrite not_elem_of_app. split; [done |].
      intros Hmn. apply list_elem_of_singleton in Hmn as ->. done.
    - rewrite <- HL', HM'. rewrite filter_move_after.
      + rewrite !filter_not_moved_snoc. by rewrite Ho.
      + intros Hn. apply Hn. apply elem_of_app. right. left.
    - rewrite Hcount by auto. done.
    - rewrite Hcount by auto. done.
    - intros Hall. exfalso. destruct (Hq Hall) as (HL0 & _).
      specialize (Hall n). rewrite <- HL0 in Hall.
      specialize (Hall HnL). fold L in Hall. by rewrite Hvn in Hall.
    - rewrite <- HL', HM'. intros m Hin.
      destruct (decide (m = n)) as [->|Hmn].
      + destruct (judge_move_issuer D pk self _ _ _ _ Hj)
          as (issuer & Hissuer & Hver).
        exists t, sig, issuer. split_and!; try done.
        rewrite context_of_moved by done. by apply step_component_all.
      + apply elem_of_app in Hin as [Hin|Hin];
          [| by apply list_elem_of_singleton in Hin].
        destruct (Hbh m Hin) as (t' & sig' & issuer' & ? & ? & ? & ? & Hctx).
        exists t', sig', issuer'. split_and!; try done.
        by rewrite context_of_move_after. }
  apply elem_of_app in HtL as [Htp|Htq].
  - left. split; [done |]. apply Hbuild.
    + by apply move_after_pre.
    + intros m. rewrite elem_of_insert_after by done. tauto.
    + intros v Hv. rewrite <- move_after_pre by done. fold L.
      unfold count_verdict. f_equal. f_equal.
      rewrite filter_insert_after.
      * apply filter_ext_elem. intros x Hx. rewrite Hvo; [done |].
        intros ->. done.
      * destruct Hvn' as [-> | ->]; destruct Hv as [-> | ->]; done.
  - apply elem_of_cons in Htq as [?|Htq]; [done |].
    right. split; [done |]. apply Hbuild.
    + by apply move_after_post.
    + intros m. split; [auto |]. intros [[_ Htp]|?]; [| done].
      exfalso. apply NoDup_app in Hnd as (_ & Hd & _).
      apply (Hd t Htp). by right.
    + intros v Hv. rewrite <- move_after_post by done. fold L.
      unfold count_verdict. f_equal. f_equal.
      apply filter_ext_elem. intros x Hx. rewrite Hvo; [done |].
      intros ->. done.
Qed.

Lemma placement_loop_unfold (fuel walk : nat) (s : check_state)
    (n_prevp : kbnode_ptr) (cc : option nat) (a : nat) :
  placement_loop (S fuel) walk pk pk_ptr sel self s n_prevp cc (Some a)
  = let* nd := deref (st_heap s) a in
    let* r :=
      if is_deleted_kbnode nd then Ok (s, cc)
      else placement_body walk pk pk_ptr sel self s n_prevp cc a nd in
    let* nd' := deref (st_heap r.1) a in
    placement_loop fuel walk pk pk_ptr sel self r.1
      (if decide (next nd' = next nd) then AddrOfNext a else n_prevp)
      r.2 (next nd).
Proof. done. Qed.

Lemma placement_measure_pass (s s' : check_state) (a : nat) (post : list nat) :
  moved_of (trace s') = moved_of (trace s) →
  (placement_measure s' post < placement_measure s (a :: post))%nat.
Proof.
  intros Hm. unfold placement_measure. rewrite Hm, filter_cons. simpl.
  destruct (decide (a ∉ moved_of (trace s))); simpl; lia.
Qed.

(** The loop on a well-formed keyblock: it returns with the invariant, or
    stops at an assertion, which needs a signature out of place or a second
    primary key, and a second primary key or a verification that succeeds
    over a packet that is not a component. *)
Lemma placement_loop_strong (walk fuel : nat) (s : check_state)
    (pre post : list nat) :
  Inv s pre post →
  (length L0 < walk)%nat →
  (placement_measure s post < fuel)%nat →
  match placement_loop fuel walk pk pk_ptr sel self s (prevp_of pre)
          (cc_of D sel None pre) (head post) with
  | Ok s' => ∃ L', Inv s' L' []
  | AssertFail =>
      ¬ (all_placed D pk sel self L0 ∧ ∀ m, m ∈ L0 → primary_ok D pk_ptr m)
      ∧ ¬ ((∀ m, m ∈ L0 → primary_ok D pk_ptr m) ∧ components_only pk)
  | Fault | OutOfFuel => False
  end.
Proof.
  intros HI Hw. revert s pre post HI.
  induction fuel as [|fuel IH]; intros s pre post HI Hf; [lia |].
  destruct post as [|a post].
  { simpl. exists pre. done. }
  pose proof (inv_keyblock _ _ _ _ _ _ _ _ _ _ HI) as Hk.
  pose proof (keyblock_NoDup _ _ _ _ Hk) as Hnd.
  destruct (keyblock_cursor _ _ _ _ _ _ Hk) as (nd0 & HD & Hd).
  assert (length (pre ++ a :: post) = length L0) as Hlen.
  { by rewrite (inv_perm _ _ _ _ _ _ _ _ _ _ HI). }
  assert (a ∈ L0) as HaL0.
  { rewrite <- (inv_perm _ _ _ _ _ _ _ _ _ _ HI).
    apply elem_of_app. right. left. }
  cbn [head]. rewrite placement_loop_unfold. rewrite Hd. cbn [bind].
  change (is_deleted_kbnode (with_next nd0 (head post)))
    with (is_deleted_kbnode nd0).
  change (next (with_next nd0 (head post))) with (head post).
  (* what happens when the body leaves the keyblock alone *)
  assert (∀ s' cc', st_heap s' = st_heap s → st_kb s' = st_kb s →
            moved_of (trace s') = moved_of (trace s) →
            (∀ n, n ∈ bad_of (trace s') →
                  n ∈ bad_of (trace s)
                  ∨ (n = a ∧ vat (pre ++ a :: post) a = VBad)) →
            primary_ok D pk_ptr a →
            is_move (vat (pre ++ a :: post) a) = false →
            bad_signature s' = bad_signature s
              + (if decide (vat (pre ++ a :: post) a = VBad) then 1 else 0) →
            missing_issuer s' = missing_issuer s
              + (if decide (vat (pre ++ a :: post) a = VMissing)
                 then 1 else 0) →
            cc' = step_component D sel (cc_of D sel None pre) a →
            match
              (let* nd' := deref (st_heap s') a in
               placement_loop fuel walk pk pk_ptr sel self s'
                 (if decide (next nd' = head post) then AddrOfNext a
                  else prevp_of pre) cc' (head post))
            with
            | Ok s'' => ∃ L', Inv s'' L' []
            | AssertFail =>
                ¬ (all_placed D pk sel self L0
                   ∧ ∀ m, m ∈ L0 → primary_ok D pk_ptr m)
                ∧ ¬ ((∀ m, m ∈ L0 → primary_ok D pk_ptr m)
                     ∧ components_only pk)
            | _ => False
            end) as Hpass.
  { intros s' cc' Hh Hkb Hmv Hbo Hprim Hv Hbad Hmiss ->.
    rewrite Hh, Hd. cbn [bind].
    change (next (with_next nd0 (head post))) with (head post).
    rewrite decide_True by done.
    rewrite <- (prevp_of_snoc pre a), <- cc_of_snoc.
    apply IH.
    - by apply (placement_inv_pass s).
    - pose proof (placement_measure_pass s s' a post Hmv). lia. }
  assert (∀ v, v = VBad ∨ v = VMissing → sig_of D a = None →
            (if decide (vat (pre ++ a :: post) a = v) then 1 else 0) = 0)
    as Hnosig.
  { intros v Hv Hs. rewrite verdict_at_no_sig by done.
    destruct Hv as [-> | ->]; by rewrite decide_False. }
  (* a node that holds no live signature *)
  assert (∀ cc', sig_of D a = None → primary_ok D pk_ptr a →
            cc' = step_component D sel (cc_of D sel None pre) a →
            match
              (let* nd' := deref (st_heap s) a in
               placement_loop fuel walk pk pk_ptr sel self s
                 (if decide (next nd' = head post) then AddrOfNext a
                  else prevp_of pre) cc' (head post))
            with
            | Ok s'' => ∃ L', Inv s'' L' []
            | AssertFail =>
                ¬ (all_placed D pk sel self L0
                   ∧ ∀ m, m ∈ L0 → primary_ok D pk_ptr m)
                ∧ ¬ ((∀ m, m ∈ L0 → primary_ok D pk_ptr m)
                     ∧ components_only pk)
            | _ => False
            end) as Hplain.
  { intros cc' Hs Hprim Hcc'. apply Hpass; try done.
    - auto.
    - by rewrite verdict_at_no_sig.
    - rewrite Hnosig by auto. lia.
    - rewrite Hnosig by auto. lia. }
  destruct (is_deleted_kbnode nd0) eqn:Hdel.
  { cbn [bind fst snd]. apply Hplain.
    - unfold sig_of. by rewrite HD, Hdel.
    - intros nd pk' HD' Hdel'. congruence.
    - unfold step_component. by rewrite HD, Hdel. }
  unfold placement_body.
  change (pkt (with_next nd0 (head post))) with (pkt nd0).
  change (flag_set (with_next nd0 (head post))) with (flag_set nd0).
  destruct (pkt nd0) eqn:Hpkt.
  - (* primary key *)
    change (pkt_ptr (with_next nd0 (head post))) with (pkt_ptr nd0).
    destruct (decide (pkt_ptr nd0 = pk_ptr)) as [Ea|Ea].
    2:{ rewrite bool_decide_eq_false_2 by done. cbn [negb bind].
        split; [intros [_ Hprim] | intros [Hprim _]];
          apply Ea; by eapply (Hprim a HaL0). }
    rewrite bool_decide_eq_true_2 by done. cbn [negb].
    assert (step_component D sel (cc_of D sel None pre) a
            = if sel && negb (flag_set nd0 NODFLG_SELKEY) then None
              else Some a) as Hstep.
    { unfold step_component, selects. rewrite HD, Hdel, Hpkt. simpl.
      by destruct (sel && negb (flag_set nd0 NODFLG_SELKEY)). }
    destruct (sel && negb (flag_set nd0 NODFLG_SELKEY)); cbn [bind fst snd];
      apply Hplain; try done;
      try (unfold sig_of; by rewrite HD, Hdel, Hpkt);
      intros nd pk' HD' _ _; congruence.
  - (* subkey *)
    assert (step_component D sel (cc_of D sel None pre) a
            = if sel && negb (flag_set nd0 NODFLG_SELKEY) then None
              else Some a) as Hstep.
    { unfold step_component, selects. rewrite HD, Hdel, Hpkt. simpl.
      by destruct (sel && negb (flag_set nd0 NODFLG_SELKEY)). }
    destruct (sel && negb (flag_set nd0 NODFLG_SELKEY)); cbn [bind fst snd];
      apply Hplain; try done;
      try (unfold sig_of; by rewrite HD, Hdel, Hpkt);
      intros nd pk' HD' _ Hp'; congruence.
  - (* user id *)
    assert (step_component D sel (cc_of D sel None pre) a
            = if sel && negb (flag_set nd0 NODFLG_SELUID) then None
              else Some a) as Hstep.
    { unfold step_component, selects. rewrite HD, Hdel, Hpkt. simpl.
      by destruct (sel && negb (flag_set nd0 NODFLG_SELUID)). }
    destruct (sel && negb (flag_set nd0 NODFLG_SELUID)); cbn [bind fst snd];
      apply Hplain; try done;
      try (unfold sig_of; by rewrite HD, Hdel, Hpkt);
      intros nd pk' HD' _ Hp'; congruence.
  - (* signature *)
    assert (sig_of D a = Some sig) as Hs.
    { unfold sig_of. by rewrite HD, Hdel, Hpkt. }
    assert (step_component D sel (cc_of D sel None pre) a
            = cc_of D sel None pre) as Hstep.
    { apply step_component_other. by eapply sig_of_not_component. }
    pose proof (check_signature_node_spec D pk sel self walk s pre post a sig
                  Hk Hs ltac:(lia)) as Hplaced.
    pose proof (verdict_at_cursor D pk sel self pre post a sig Hnd Hs) as Hvat.
    pose proof (primary_ok_sig D pk_ptr a sig Hs) as Hprim.
    destruct (judge D pk self (pre ++ a :: post) (cc_of D sel None pre) sig)
      as [| | | | |t|] eqn:Hj; unfold placed in Hplaced.
    1-5,7: rewrite Hplaced; cbn [bind fst snd]; apply Hpass; try done;
      try (by rewrite moved_of_record, app_nil_r);
      try (by rewrite Hvat);
      try (rewrite bad_of_record; intros n Hn;
           rewrite ?app_nil_r in Hn; auto);
      try (rewrite Hvat; simpl; lia).
    { apply elem_of_app in Hn as [Hn|Hn]; [by left |].
      apply list_elem_of_singleton in Hn. right. by rewrite Hvat. }
    destruct (live_component D t) eqn:Hlive.
    2:{ rewrite Hplaced. cbn [bind]. split.
        - intros [Hall _].
          destruct (inv_quiet _ _ _ _ _ _ _ _ _ _ HI Hall) as (HL0 & _).
          specialize (Hall a HaL0). rewrite <- HL0, Hvat in Hall. done.
        - intros [_ Hcomp].
          rewrite (judge_move_component D pk self _ _ _ _ Hj Hcomp) in Hlive.
          done. }
    destruct Hplaced as (h3 & kb3 & ndn & Hrun & Hk3 & Hn3 & Hnext).
    rewrite Hrun. cbn [bind fst snd].
    unfold deref.
    change (st_heap (record_verdict (VMove t) a sig
                       (set_kb (set_heap s h3) kb3))) with h3.
    rewrite Hn3. cbn [bind]. rewrite decide_False by done.
    destruct (placement_inv_move s pre post a t sig h3 kb3 HI Hs Hj Hlive Hk3)
      as (HaM & [[Htp HI']|[Htq HI']]).
    + (* moved back *)
      assert (last pre ≠ Some t) as Hlast.
      { intros Hl.
        destruct (judge_move D pk self _ _ _ _ [] Hj) as (c & Hcc & _ & Htc & _).
        apply Htc. symmetry. by eapply cc_of_last. }
      assert (prevp_of (insert_after t a pre) = prevp_of pre) as <-.
      { unfold prevp_of. by rewrite last_insert_after. }
      rewrite <- (cc_of_insert_after D sel None pre t a)
        by (by eapply sig_of_not_component).
      apply IH; [done |].
      unfold placement_measure in *. rewrite moved_of_record.
      pose proof (length_filter_not_moved_snoc (moved_of (trace s)) a post).
      cbn [set_kb set_heap trace] in *.
      rewrite filter_cons in Hf. cbn [length] in Hf.
      destruct (decide (a ∉ moved_of (trace s))); [| done].
      cbn [length] in Hf. lia.
    + (* moved ahead *)
      rewrite <- (head_insert_after t a post).
      apply IH; [done |].
      unfold placement_measure in *. rewrite moved_of_record.
      cbn [set_kb set_heap trace] in *.
      rewrite length_insert_after by done.
      rewrite filter_insert_after.
      2:{ intros Hn. apply Hn. apply elem_of_app. right. left. }
      pose proof (length_filter_not_moved_snoc (moved_of (trace s)) a post).
      rewrite filter_cons in Hf. cbn [length] in Hf.
      destruct (decide (a ∉ moved_of (trace s))); [| done].
      cbn [length] in Hf. lia.
  - (* any other packet *)
    cbn [bind fst snd]. apply Hplain.
    + unfold sig_of. by rewrite HD, Hdel, Hpkt.
    + intros nd pk' HD' _ Hp'. congruence.
    + unfold step_component. by rewrite HD, Hdel, Hpkt.
Qed.

Lemma placement_loop_spec (walk fuel : nat) (s : check_state)
    (pre post : list nat) :
  Inv s pre post →
  (length L0 < walk)%nat →
  (placement_measure s post < fuel)%nat →
  match placement_loop fuel walk pk pk_ptr sel self s (prevp_of pre)
          (cc_of D sel None pre) (head post) with
  | Ok s' => ∃ L', Inv s' L' []
  | AssertFail =>
      ¬ (all_placed D pk sel self L0 ∧ ∀ m, m ∈ L0 → primary_ok D pk_ptr m)
  | Fault | OutOfFuel => False
  end.
Proof.
  intros HI Hw Hf. pose proof (placement_loop_strong walk fuel s pre post HI Hw Hf)
    as Hstrong.
  destruct (placement_loop fuel walk pk pk_ptr sel self s (prevp_of pre)
              (cc_of D sel None pre) (head post)); try done.
  by destruct Hstrong.
Qed.
End Placement.

(** * The first block: the scan of the sorted array *)

Lemma live_sigs_elem (D : gmap nat kbnode_struct) (l : list nat) (a : nat)
    (sig : PKT_signature) :
  (a, sig) ∈ live_sigs D l ↔ a ∈ l ∧ sig_of D a = Some sig.
Proof.
  unfold live_sigs. rewrite list_elem_of_omap. split.
  - intros (x & Hx & Hf). destruct (sig_of D x) as [s|] eqn:E; [| done].
    simpl in Hf. by injection Hf as -> ->.
  - intros [Ha Hs]. exists a. split; [done |]. by rewrite Hs.
Qed.

Lemma live_sigs_fst (D : gmap nat kbnode_struct) (l : list nat) :
  (live_sigs D l).*1 = filter (λ a, is_Some (sig_of D a)) l.
Proof.
  induction l as [|a l IH]; [done |].
  rewrite live_sigs_cons, filter_cons.
  destruct (sig_of D a) as [s|] eqn:E.
  - rewrite decide_True by done. rewrite fmap_cons. simpl. by rewrite IH.
  - rewrite decide_False by (by intros [? ?]). done.
Qed.

Lemma live_sigs_NoDup (D : gmap nat kbnode_struct) (l : list nat) :
  NoDup l → NoDup (live_sigs D l).*1.
Proof. intros Hnd. rewrite live_sigs_fst. by apply NoDup_filter. Qed.

Lemma filter_all {A : Type} (P : A → Prop) `{!∀ x, Decision (P x)}
    (l : list A) :
  (∀ x, x ∈ l → P x) → filter P l = l.
Proof.
  induction l as [|a l IH]; intros Hall; [done |].
  rewrite filter_cons_True by (apply Hall; left).
  rewrite IH; [done |]. intros x Hx. apply Hall. by right.
Qed.

Lemma killed_of_snoc (tr : list event) (e : event) :
  killed_of (tr ++ [e]) =
  killed_of tr ++ match e with EvDuplicate n _ => [n] | _ => [] end.
Proof. unfold killed_of. rewrite omap_app. simpl. by destruct e. Qed.

Section Dedup.
Context `{Collaborators}.

Lemma dedup_kills_subset (rest : list (nat * PKT_signature))
    (last : nat * PKT_signature) (a : nat) :
  a ∈ dedup_kills last rest → a ∈ (last :: rest).*1.
Proof.
  revert last. induction rest as [|cur rest IH]; intros last; simpl.
  - intros Hin. by apply elem_of_nil in Hin.
  - destruct (sig_comparison last.2 cur.2 =? 0).
    + intros Hin. apply elem_of_cons in Hin as [->|Hin]; [left |].
      right. by apply IH.
    + intros Hin. right. by apply IH.
Qed.

(** Every entry has an equal entry that is kept. *)
Lemma dedup_survivor (rest : list (nat * PKT_signature))
    (last x : nat * PKT_signature) :
  NoDup (last :: rest).*1 → x ∈ last :: rest →
  ∃ y, y ∈ last :: rest ∧ (y.1 ∉ dedup_kills last rest)
       ∧ sig_comparison x.2 y.2 = 0.
Proof.
  revert last x. induction rest as [|cur rest IH]; intros last x Hnd Hx.
  - apply list_elem_of_singleton in Hx as ->. exists last.
    split; [left |]. split; [apply not_elem_of_nil |].
    apply sig_comparison_refl.
  - rewrite fmap_cons in Hnd. apply NoDup_cons in Hnd as [Hl Hnd].
    assert (∀ z, z ∈ cur :: rest →
              ∃ y, y ∈ last :: cur :: rest
                   ∧ (y.1 ∉ dedup_kills last (cur :: rest))
                   ∧ sig_comparison z.2 y.2 = 0) as Hrest.
    { intros z Hz. destruct (IH cur z Hnd Hz) as (y & Hy & Hk & Hc).
      exists y. split; [by right |]. split; [| done]. simpl.
      destruct (sig_comparison last.2 cur.2 =? 0); [| done].
      apply not_elem_of_cons. split; [| done].
      intros E. apply Hl. rewrite <- E. by apply list_elem_of_fmap_2. }
    apply elem_of_cons in Hx as [->|Hx]; [| by apply Hrest].
    simpl. destruct (Z.eqb_spec (sig_comparison last.2 cur.2) 0) as [E|E].
    + destruct (Hrest cur) as (y & Hy & Hk & Hc); [left |].
      simpl in Hk. rewrite (proj2 (Z.eqb_eq _ _) E) in Hk.
      exists y. split; [done |]. split; [done |].
      by eapply sig_comparison_zero_trans.
    + exists last. split; [left |]. split; [| apply sig_comparison_refl].
      intros Hin. apply dedup_kills_subset in Hin. done.
Qed.

Lemma sorted_adjacent (last cur y : nat * PKT_signature)
    (rest : list (nat * PKT_signature)) :
  StronglySorted (cmp_le sig_entry_cmp) (last :: cur :: rest) →
  y ∈ cur :: rest → sig_comparison last.2 y.2 = 0 →
  sig_comparison last.2 cur.2 = 0.
Proof.
  intros Hs Hy Hly.
  apply StronglySorted_inv in Hs as [Hs Hl].
  apply StronglySorted_inv in Hs as [_ Hc].
  assert (sig_comparison last.2 cur.2 ≤ 0) as H1.
  { apply Forall_cons in Hl as [Hl _]. exact Hl. }
  assert (sig_comparison cur.2 y.2 ≤ 0) as H2.
  { apply elem_of_cons in Hy as [->|Hy].
    - rewrite sig_comparison_refl. lia.
    - rewrite Forall_forall in Hc. by apply (Hc y). }
  assert (sig_comparison y.2 last.2 ≤ 0) as H3.
  { rewrite (sig_comparison_sym _ _ Hly). lia. }
  pose proof (sig_comparison_trans _ _ _ H2 H3) as H4.
  pose proof (sig_comparison_antisym last.2 cur.2) as Ha.
  lia.
Qed.

(** In a sorted array the entries that are kept are pairwise different. *)
Lemma dedup_kept_distinct (rest : list (nat * PKT_signature))
    (last x y : nat * PKT_signature) :
  StronglySorted (cmp_le sig_entry_cmp) (last :: rest) →
  NoDup (last :: rest).*1 →
  x ∈ last :: rest → y ∈ last :: rest →
  x.1 ∉ dedup_kills last rest → y.1 ∉ dedup_kills last rest →
  sig_comparison x.2 y.2 = 0 → x.1 = y.1.
Proof.
  revert last x y. induction rest as [|cur rest IH];
    intros last x y Hs Hnd Hx Hy Hkx Hky Hc.
  - apply list_elem_of_singleton in Hx as ->.
    by apply list_elem_of_singleton in Hy as ->.
  - pose proof Hs as Hs'. apply StronglySorted_inv in Hs' as [Hs' _].
    pose proof Hnd as Hnd'. rewrite fmap_cons in Hnd'.
    apply NoDup_cons in Hnd' as [_ Hnd'].
    simpl in Hkx, Hky.
    destruct (Z.eqb_spec (sig_comparison last.2 cur.2) 0) as [E|E].
    + apply not_elem_of_cons in Hkx as [Hxl Hkx].
      apply not_elem_of_cons in Hky as [Hyl Hky].
      apply elem_of_cons in Hx as [->|Hx]; [done |].
      apply elem_of_cons in Hy as [->|Hy]; [done |].
      by apply (IH cur).
    + apply elem_of_cons in Hx as [->|Hx];
        apply elem_of_cons in Hy as [->|Hy]; [done | | |].
      * exfalso. apply E. by eapply sorted_adjacent.
      * exfalso. apply E. eapply sorted_adjacent; [done.. |].
        by apply sig_comparison_sym.
      * by apply (IH cur).
Qed.

Lemma dedup_kills_nil (rest : list (nat * PKT_signature))
    (last : nat * PKT_signature) :
  NoDup (last :: rest).*1 →
  (∀ x y, x ∈ last :: rest → y ∈ last :: rest →
          sig_comparison x.2 y.2 = 0 → x.1 = y.1) →
  dedup_kills last rest = [].
Proof.
  revert last. induction rest as [|cur rest IH]; intros last Hnd Hd; [done |].
  simpl. destruct (Z.eqb_spec (sig_comparison last.2 cur.2) 0) as [E|E].
  - exfalso. rewrite !fmap_cons in Hnd. apply NoDup_cons in Hnd as [Hl _].
    apply Hl. rewrite (Hd last cur); [left | left | right; left | done].
  - apply IH.
    + rewrite fmap_cons in Hnd. by apply NoDup_cons in Hnd as [_ Hnd].
    + intros x y Hx Hy. apply Hd; by right.
Qed.

Context (D : gmap nat kbnode_struct).

Lemma remove_duplicate_spec (fuel : nat) (s : check_state) (l1 l2 : list nat)
    (t : nat) (described : PKT_signature) :
  keyblock D (st_heap s) (st_kb s) (l1 ++ t :: l2) →
  (length l1 < fuel)%nat →
  ∃ h' kb',
    remove_duplicate fuel s t described
    = Ok (count_dup (log_event (set_kb (set_heap s h') kb')
                       (EvDuplicate t described)))
    ∧ keyblock D h' kb' (l1 ++ l2).
Proof.
  intros Hk Hf. unfold remove_duplicate.
  pose proof (find_prevp_spec D (st_heap s) (st_kb s) l1 [] l2 t fuel Hk Hf)
    as Hfind.
  rewrite <- (keyblock_head _ _ _ _ Hk) in Hfind.
  change (prevp_of []) with AddrOfKb in Hfind. rewrite Hfind. cbn [bind app].
  destruct (keyblock_cursor _ _ _ _ _ _ Hk) as (nd0 & HD & Hd).
  rewrite Hd. cbn [bind].
  change (next (with_next nd0 (head l2))) with (head l2).
  destruct (unlink_spec D s l1 l2 t Hk) as (h1 & kb1 & Hst & Hk1).
  rewrite Hst. cbn [bind]. exists (delete t h1), kb1. split; [done |]. done.
Qed.

Lemma filter_not_elem_cons (t : nat) (K l : list nat) :
  filter (λ a, a ∉ t :: K) l = filter (λ a, a ∉ K) (filter (λ a, a ≠ t) l).
Proof.
  rewrite list_filter_filter. apply filter_ext_elem. intros x _.
  rewrite not_elem_of_cons. tauto.
Qed.

Lemma dedup_scan_spec (fuel : nat) (rest : list (nat * PKT_signature))
    (s : check_state) (last : nat * PKT_signature) (Lc : list nat) :
  keyblock D (st_heap s) (st_kb s) Lc →
  NoDup (last :: rest).*1 →
  (∀ x, x ∈ last :: rest → x.1 ∈ Lc) →
  (length Lc < fuel)%nat →
  ∃ s', dedup_scan fuel s last rest = Ok s'
        ∧ keyblock D (st_heap s') (st_kb s')
            (filter (λ a, a ∉ dedup_kills last rest) Lc)
        ∧ killed_of (trace s') = killed_of (trace s) ++ dedup_kills last rest
        ∧ moved_of (trace s') = moved_of (trace s)
        ∧ bad_of (trace s') = bad_of (trace s)
        ∧ bad_signature s' = bad_signature s
        ∧ missing_issuer s' = missing_issuer s
        ∧ (dedup_kills last rest = [] → s' = s).
Proof.
  revert s last Lc. induction rest as [|cur rest IH];
    intros s last Lc Hk Hnd Hin Hf.
  - exists s. simpl. rewrite app_nil_r.
    rewrite filter_all by (intros x _; apply not_elem_of_nil).
    by split_and!.
  - pose proof Hnd as Hnd'. rewrite fmap_cons in Hnd'.
    apply NoDup_cons in Hnd' as [Hl Hnd'].
    cbn [dedup_scan dedup_kills].
    destruct (sig_comparison last.2 cur.2 =? 0).
    + assert (last.1 ∈ Lc) as Ht by (apply Hin; left).
      apply list_elem_of_split in Ht as (l1 & l2 & ->).
      destruct (remove_duplicate_spec fuel s l1 l2 last.1 cur.2 Hk)
        as (h' & kb' & Hrm & Hk').
      { rewrite length_app in Hf. lia. }
      rewrite Hrm. cbn [bind].
      pose proof (keyblock_NoDup _ _ _ _ Hk) as HndL.
      destruct (IH (count_dup (log_event (set_kb (set_heap s h') kb')
                                 (EvDuplicate last.1 cur.2))) cur (l1 ++ l2))
        as (s' & Hrun & Hks & Hkill & Hmov & Hbad & Hb & Hm & _).
      * done.
      * done.
      * intros x Hx. rewrite <- (filter_ne_zipper l1 l2 last.1 HndL).
        apply list_elem_of_filter. split; [| apply Hin; by right].
        intros E. apply Hl. rewrite <- E. by apply list_elem_of_fmap_2.
      * rewrite length_app in *. simpl in Hf. lia.
      * exists s'. split; [done |]. split; [| split; [| split; [| split]]].
        -- rewrite filter_not_elem_cons. by rewrite filter_ne_zipper.
        -- rewrite Hkill. cbn [trace count_dup log_event set_kb set_heap].
           rewrite killed_of_snoc. by rewrite <- app_assoc.
        -- rewrite Hmov. cbn [trace count_dup log_event set_kb set_heap].
           by rewrite moved_of_snoc, app_nil_r.
        -- rewrite Hbad. cbn [trace count_dup log_event set_kb set_heap].
           unfold bad_of. rewrite omap_app. simpl. by rewrite app_nil_r.
        -- rewrite Hb, Hm. done.
    + apply IH; try done. intros x Hx. apply Hin. by right.
Qed.
End Dedup.

(** * The whole function on a well-formed keyblock *)

Lemma count_events_killed (tr : list event) :
  count_events is_EvDuplicate tr = Z.of_nat (length (killed_of tr)).
Proof.
  unfold count_events, killed_of. f_equal.
  induction tr as [|e tr IH]; [done |].
  rewrite filter_cons. destruct e; simpl; rewrite ?IH; done.
Qed.

Lemma count_events_moved (tr : list event) :
  count_events is_EvOutOfOrder tr = Z.of_nat (length (moved_of tr)).
Proof.
  unfold count_events, moved_of. f_equal.
  induction tr as [|e tr IH]; [done |].
  rewrite filter_cons. destruct e; simpl; rewrite ?IH; done.
Qed.

Lemma filter_none {A : Type} (l : list A) : filter (λ _, False) l = [].
Proof.
  induction l as [|a l IH]; [done |]. by rewrite filter_cons_False by tauto.
Qed.

Lemma perm_filter_split (K L : list nat) :
  NoDup K → NoDup L → (∀ a, a ∈ K → a ∈ L) →
  L ≡ₚ K ++ filter (λ a, a ∉ K) L.
Proof.
  intros HK HL Hsub.
  rewrite <- (filter_app_complement (λ a, a ∈ K) L) at 1.
  apply Permutation_app; [| done].
  apply NoDup_Permutation; [by apply NoDup_filter | done |].
  intros x. rewrite list_elem_of_filter. split; [by intros [? _] | auto].
Qed.

Lemma dedup_kills_NoDup `{Collaborators} (rest : list (nat * PKT_signature))
    (last : nat * PKT_signature) :
  NoDup (last :: rest).*1 → NoDup (dedup_kills last rest).
Proof.
  revert last. induction rest as [|cur rest IH]; intros last Hnd; simpl.
  - constructor.
  - rewrite fmap_cons in Hnd. apply NoDup_cons in Hnd as [Hl Hnd].
    destruct (sig_comparison last.2 cur.2 =? 0); [| by apply IH].
    apply NoDup_cons. split; [| by apply IH].
    intros Hin. apply dedup_kills_subset in Hin. done.
Qed.

Section Main.
Context `{Collaborators} `{!QsortSpec}.
Context (D : gmap nat kbnode_struct).

Lemma remove_duplicates_spec (fuel : nat) (s : check_state) (L : list nat) :
  keyblock D (st_heap s) (st_kb s) L → (length L < fuel)%nat →
  ∃ s' K,
    remove_duplicates fuel s (live_sigs D L) = Ok s'
    ∧ keyblock D (st_heap s') (st_kb s') (filter (λ a, a ∉ K) L)
    ∧ killed_of (trace s') = killed_of (trace s) ++ K
    ∧ moved_of (trace s') = moved_of (trace s)
    ∧ bad_of (trace s') = bad_of (trace s)
    ∧ bad_signature s' = bad_signature s
    ∧ missing_issuer s' = missing_issuer s
    ∧ NoDup K
    ∧ (∀ a, a ∈ K →
         ∃ sa b sb, a ∈ L ∧ sig_of D a = Some sa ∧ b ∈ L ∧ (b ∉ K)
                    ∧ sig_of D b = Some sb ∧ sig_comparison sa sb = 0)
    ∧ no_duplicates D (filter (λ a, a ∉ K) L)
    ∧ (no_duplicates D L → K = [] ∧ s' = s).
Proof.
  intros Hk Hf. unfold remove_duplicates.
  pose proof (qsort_perm _ sig_entry_cmp (live_sigs D L)
                sig_entry_cmp_consistent) as Hperm.
  pose proof (qsort_sorted _ sig_entry_cmp (live_sigs D L)
                sig_entry_cmp_consistent) as Hsorted.
  pose proof (keyblock_NoDup _ _ _ _ Hk) as HndL.
  assert (NoDup (qsort sig_entry_cmp (live_sigs D L)).*1) as Hnd.
  { rewrite Hperm. by apply live_sigs_NoDup. }
  assert (∀ x, x ∈ qsort sig_entry_cmp (live_sigs D L) →
               x.1 ∈ L ∧ sig_of D x.1 = Some x.2) as Hent.
  { intros [a sa] Hx. rewrite Hperm in Hx. by apply live_sigs_elem in Hx. }
  assert (∀ a sa, a ∈ L → sig_of D a = Some sa →
                  (a, sa) ∈ qsort sig_entry_cmp (live_sigs D L)) as Hback.
  { intros a sa Ha Hs. rewrite Hperm. by apply live_sigs_elem. }
  destruct (qsort sig_entry_cmp (live_sigs D L)) as [|first rest] eqn:Eq.
  - exists s, []. rewrite app_nil_r.
    rewrite filter_all by (intros x _; apply not_elem_of_nil).
    split_and!; try done; try constructor.
    + intros a Ha. by apply elem_of_nil in Ha.
    + intros a b sa sb Ha Hb Hsa Hsb _.
      specialize (Hback a sa Ha Hsa). by apply elem_of_nil in Hback.
  - destruct (dedup_scan_spec D fuel rest s first L Hk Hnd)
      as (s' & Hrun & Hk' & Hkill & Hmov & Hbad & Hb & Hm & Hnil).
    { intros x Hx. by destruct (Hent x Hx). }
    { done. }
    exists s', (dedup_kills first rest). split_and!; try done.
    + by apply dedup_kills_NoDup.
    + intros a Ha. pose proof Ha as Ha'.
      apply dedup_kills_subset in Ha'.
      apply list_elem_of_fmap in Ha' as ([a' sa] & -> & Hx).
      destruct (dedup_survivor rest first (a', sa) Hnd Hx)
        as ([b sb] & Hy & Hky & Hc).
      destruct (Hent _ Hx) as [HaL Hsa]. destruct (Hent _ Hy) as [HbL Hsb].
      exists sa, b, sb. done.
    + intros a b sa sb Ha Hb' Hsa Hsb Hc.
      apply list_elem_of_filter in Ha as [HaK HaL].
      apply list_elem_of_filter in Hb' as [HbK HbL].
      apply (dedup_kept_distinct rest first (a, sa) (b, sb)); try done.
      * by apply Hback.
      * by apply Hback.
    + intros Hno.
      assert (dedup_kills first rest = []) as E.
      { apply dedup_kills_nil; [done |].
        intros [a sa] [b sb] Hx Hy Hc.
        destruct (Hent _ Hx) as [HaL Hsa]. destruct (Hent _ Hy) as [HbL Hsb].
        by apply (Hno a b sa sb). }
      split; [done | by apply Hnil].
Qed.

Lemma no_sigs_placed (pk : PKT_public_key) (sel self : bool)
    (L l : list nat) (m : nat) :
  live_sigs D L = [] → m ∈ L → verdict_at D pk sel self l m = VSkip.
Proof.
  intros Hno Hm. apply verdict_at_no_sig.
  destruct (sig_of D m) as [sig|] eqn:E; [| done].
  assert ((m, sig) ∈ live_sigs D L) as Hin by (by apply live_sigs_elem).
  rewrite Hno in Hin. by apply elem_of_nil in Hin.
Qed.

Lemma count_verdict_no_sigs (pk : PKT_public_key) (sel self : bool)
    (v : verdict) (L : list nat) :
  live_sigs D L = [] → v ≠ VSkip →
  count_verdict D pk sel self v L L = 0.
Proof.
  intros Hno Hv. unfold count_verdict.
  rewrite (filter_ext_elem _ (λ _, False)).
  - by rewrite filter_none.
  - intros x Hx. rewrite (no_sigs_placed pk sel self L L x Hno Hx).
    split; [congruence | done].
Qed.

(** The run with a successful allocation. *)
Lemma key_check_strong (fuel : nat) (h : gmap nat kbnode_struct)
    (pk_node : nat) (nd0 : kbnode_struct) (pk : PKT_public_key)
    (sel self : bool) (L0 : list nat) :
  keyblock D h (Some pk_node) L0 →
  D !! pk_node = Some nd0 → pkt nd0 = PktPublicKey pk →
  (2 * length L0 < fuel)%nat →
  match key_check_all_keysigs fuel true h (Some pk_node) sel self with
  | Ok (rv, s) =>
      rv = modified s
      ∧ ∃ L', check_post D pk pk_node sel self h L0 s L'
              ∧ check_more D pk sel self L0 s L'
  | AssertFail =>
      ¬ (no_duplicates D L0 ∧ all_placed D pk sel self L0
         ∧ (live_sigs D L0 ≠ [] → ∀ m, m ∈ L0 → primary_ok D (pkt_ptr nd0) m))
      ∧ ¬ ((∀ m, m ∈ L0 → primary_ok D (pkt_ptr nd0) m) ∧ components_only pk)
      ∧ ∃ K : list nat, ¬ (all_placed D pk sel self (filter (λ a, a ∉ K) L0)
                ∧ ∀ m, m ∈ L0 → primary_ok D (pkt_ptr nd0) m)
  | Fault | OutOfFuel => False
  end.
Proof.
  intros Hk HD Hpk Hf.
  pose proof (keyblock_NoDup _ _ _ _ Hk) as HndL.
  assert (pk_node ∈ L0) as Hin0.
  { destruct Hk as (Hh & _). destruct L0 as [|b l]; [done |].
    injection Hh as ->. left. }
  destruct (keyblock_elem _ _ _ _ _ Hk Hin0) as (nd0' & HD' & Hd).
  assert (nd0' = nd0) as -> by congruence.
  unfold key_check_all_keysigs. rewrite Hd. cbn [bind].
  change (pkt (with_next nd0 (succ_in L0 pk_node))) with (pkt nd0).
  change (pkt_ptr (with_next nd0 (succ_in L0 pk_node))) with (pkt_ptr nd0).
  rewrite Hpk.
  pose proof (count_sigs_spec D h (Some pk_node) L0 [] 0 fuel Hk ltac:(lia))
    as Hcount.
  rewrite <- (keyblock_head _ _ _ _ Hk) in Hcount.
  rewrite Hcount. cbn [bind].
  destruct (Z.eqb_spec (0 + Z.of_nat (length (live_sigs D L0))) 0) as [E|E].
  { (* no signature at all *)
    assert (live_sigs D L0 = []) as Hno.
    { destruct (live_sigs D L0); [done | simpl in E; lia]. }
    split; [done |]. exists L0. split; [split | split].
    - done.
    - done.
    - done.
    - intros a Ha. by apply elem_of_nil in Ha.
    - intros a b sa sb Ha _ Hsa _ _.
      assert ((a, sa) ∈ live_sigs D L0) as Hx by (by apply live_sigs_elem).
      rewrite Hno in Hx. by apply elem_of_nil in Hx.
    - intros m Hm. by rewrite (no_sigs_placed pk sel self L0 L0 m).
    - done.
    - constructor.
    - intros n Hn. by apply elem_of_nil in Hn.
    - cbn [trace initial_state killed_of moved_of omap].
      by rewrite !filter_all by (intros x _; apply not_elem_of_nil).
    - by rewrite count_verdict_no_sigs.
    - by rewrite count_verdict_no_sigs.
    - done.
    - done.
    - apply accounted_initial.
    - done.
    - intros m Hm. by apply elem_of_nil in Hm.
    - intros _. cbn [trace initial_state killed_of moved_of omap].
      by rewrite filter_all by (intros x _; apply not_elem_of_nil).
    - intros m Hm. by apply elem_of_nil in Hm. }
  cbn [negb].
  pose proof (collect_sigs_spec D h (Some pk_node) L0 [] fuel Hk ltac:(lia))
    as Hcollect.
  rewrite <- (keyblock_head _ _ _ _ Hk) in Hcollect.
  rewrite Hcollect. cbn [bind].
  rewrite (proj2 (Z.eqb_eq _ _)) by lia. cbn [negb].
  assert (live_sigs D L0 ≠ []) as Hsome.
  { intros Hno. rewrite Hno in E. simpl in E. lia. }
  set (s0 := initial_state h (Some pk_node)).
  destruct (remove_duplicates_spec fuel s0 L0 Hk ltac:(lia))
    as (s1 & K & Hrun1 & Hk1 & Hkill1 & Hmov1 & Hbadof1 & Hbad1 & Hmiss1
        & HndK & Hsurv & Hnodup & Hsame).
  rewrite Hrun1. cbn [bind].
  set (L1 := filter (λ a, a ∉ K) L0) in *.
  assert (L0 ≡ₚ K ++ L1) as HpermK.
  { apply perm_filter_split; try done.
    intros a Ha. by destruct (Hsurv a Ha) as (? & ? & ? & ? & _). }
  assert (length L1 ≤ length L0)%nat as Hlen1 by apply length_filter.
  assert (placement_inv D pk sel self (pkt_ptr nd0) L1 s1 s1 [] L1) as Hinit.
  { by apply placement_inv_init. }
  pose proof (placement_loop_strong D pk (pkt_ptr nd0) sel self L1 s1 fuel
                fuel s1 [] L1 Hinit ltac:(lia)) as Hloop.
  change (prevp_of []) with AddrOfKb in Hloop.
  change (cc_of D sel None []) with (@None nat) in Hloop.
  rewrite <- (keyblock_head _ _ _ _ Hk1) in Hloop.
  assert (placement_measure s1 L1 < fuel)%nat as Hmeas.
  { unfold placement_measure.
    pose proof (length_filter (λ a, a ∉ moved_of (trace s1)) L1). lia. }
  specialize (Hloop Hmeas).
  destruct (placement_loop fuel fuel pk (pkt_ptr nd0) sel self s1 AddrOfKb
              None (st_kb s1)) as [s2| | |] eqn:Hrun2; try done.
  2:{ cbn [bind]. destruct Hloop as [Hloop Hsafe]. split_and!.
      - intros (Hno & Hall & Hprim). apply Hloop.
        destruct (Hsame Hno) as [-> _]. unfold L1.
        rewrite filter_all by (intros x _; apply not_elem_of_nil). auto.
      - intros [Hprim Hcomp]. apply Hsafe. split; [| done].
        intros m Hm. apply Hprim.
        by apply list_elem_of_filter in Hm as [_ Hm].
      - exists K. intros [Hall Hprim]. apply Hloop. split; [done |].
        intros m Hm. apply Hprim.
        by apply list_elem_of_filter in Hm as [_ Hm]. }
  cbn [bind]. destruct Hloop as (L' & HI).
  destruct HI as [Hk2 Hp2 Hhd2 Hpr2 Hs2 Hmo2 Hm2 Hbf2 Ho2 Hb2 Hmi2 Hq2 Hbh2].
  rewrite app_nil_r in *.
  pose proof (selfsig_audit_spec D (st_heap s2) (st_kb s2) pk L' [] None false 0
                fuel Hk2) as Haudit.
  rewrite <- (keyblock_head _ _ _ _ Hk2) in Haudit.
  rewrite Haudit; [| rewrite Hp2; lia | done]. cbn [bind].
  split; [done |]. exists L'.
  pose proof (placement_loop_effect _ _ _ _ _ _ _ _ _ _ _ Hrun2) as Heff2.
  pose proof (remove_duplicates_effect _ _ _ _ Hrun1) as Heff1.
  destruct (placement_keeps_dups _ _ _ _ Heff2) as [Hd2 Hkill2].
  assert (killed_of (trace s2) = K) as HK2.
  { rewrite Hkill2, Hkill1. done. }
  assert (moved_of (trace s1) = []) as Hm1 by (by rewrite Hmov1).
  assert (sig_of D pk_node = None) as Hpksig.
  { unfold sig_of. rewrite HD, Hpk. by destruct (is_deleted_kbnode nd0). }
  assert (head L1 = Some pk_node) as Hhd1.
  { destruct Hk as (Hh & _). destruct L0 as [|b l]; [done |].
    injection Hh as ->. unfold L1. rewrite filter_cons_True; [done |].
    intros HinK. destruct (Hsurv _ HinK) as (sa & _ & _ & _ & Hsa & _).
    congruence. }
  split; [split | split];
    cbn [st_heap st_kb trace set_missing_selfsig bad_signature
         missing_issuer missing_selfsig].
  - done.
  - rewrite (keyblock_head _ _ _ _ Hk2). by rewrite Hhd2.
  - rewrite HK2. by rewrite Hp2.
  - rewrite HK2. intros a Ha.
    destruct (Hsurv a Ha) as (sa & b & sb & HaL & Hsa & HbL & HbK & Hsb & Hc).
    exists sa, b, sb. split_and!; try done.
    rewrite Hp2. apply list_elem_of_filter. done.
  - intros a b sa sb Ha Hb. rewrite Hp2 in Ha, Hb. by apply Hnodup.
  - intros m Hm. by apply Hs2.
  - intros _ nd0' HD0'. by replace nd0' with nd0 by congruence.
  - done.
  - done.
  - rewrite HK2. done.
  - rewrite Hb2, Hbad1. done.
  - rewrite Hmi2, Hmiss1. done.
  - done.
  - done.
  - assert (accounted s2) as Hacc.
    { eapply accounted_rtc_placement; [| exact Heff2].
      eapply accounted_rtc_dedup; [| exact Heff1]. apply accounted_initial. }
    exact Hacc.
  - intros Hno Hall. destruct (Hsame Hno) as [EK Es1].
    assert (L1 = L0) as EL.
    { unfold L1. rewrite EK.
      by rewrite filter_all by (intros x _; apply not_elem_of_nil). }
    rewrite EL in Hq2. destruct (Hq2 Hall) as (EL' & Emov & Eh & _).
    rewrite HK2, EK, Emov, Hm1, Eh, Es1. done.
  - done.
  - rewrite HK2. fold L1. intros Hall.
    destruct (Hq2 Hall) as (EL' & Emov & _). by rewrite Emov.
  - done.
Qed.

Theorem key_check_spec (fuel : nat) (h : gmap nat kbnode_struct)
    (pk_node : nat) (nd0 : kbnode_struct) (pk : PKT_public_key)
    (sel self : bool) (L0 : list nat) :
  keyblock D h (Some pk_node) L0 →
  D !! pk_node = Some nd0 → pkt nd0 = PktPublicKey pk →
  (2 * length L0 < fuel)%nat →
  match key_check_all_keysigs fuel true h (Some pk_node) sel self with
  | Ok (rv, s) =>
      rv = modified s ∧ ∃ L', check_post D pk pk_node sel self h L0 s L'
  | AssertFail =>
      ¬ (no_duplicates D L0 ∧ all_placed D pk sel self L0
         ∧ (live_sigs D L0 ≠ [] → ∀ m, m ∈ L0 → primary_ok D (pkt_ptr nd0) m))
  | Fault | OutOfFuel => False
  end.
Proof.
  intros Hk HD Hpk Hf.
  pose proof (key_check_strong fuel h pk_node nd0 pk sel self L0 Hk HD Hpk Hf)
    as Hstrong.
  destruct (key_check_all_keysigs fuel true h (Some pk_node) sel self)
    as [[rv s]| | |]; try done.
  - destruct Hstrong as (Hrv & L' & Hpost & _). split; [done |]. by exists L'.
  - by destruct Hstrong.
Qed.
End Main.

(** * Keyblocks read off a heap *)

Lemma reach_keyblock (fuel : nat) (h : gmap nat kbnode_struct)
    (kb : option nat) (l : list nat) :
  reach fuel h kb = Some l → NoDup l → keyblock h h kb l.
Proof.
  revert kb l. induction fuel as [|fuel IH]; intros kb l Hr Hnd.
  - destruct kb; [done |]. injection Hr as <-. split_and!; [done.. |].
    intros a Ha. by apply elem_of_nil in Ha.
  - destruct kb as [a|]; simpl in Hr.
    2:{ injection Hr as <-. split_and!; [done.. |].
        intros x Hx. by apply elem_of_nil in Hx. }
    destruct (h !! a) as [nd|] eqn:Hnd'; [| done].
    destruct (reach fuel h (next nd)) as [l'|] eqn:Hr'; [| done].
    injection Hr as <-.
    apply NoDup_cons in Hnd as [Ha Hnd].
    destruct (IH _ _ Hr' Hnd) as (Hh & _ & Hn).
    split_and!; [done | by apply NoDup_cons |].
    intros x Hx. simpl. destruct (decide (a = x)) as [->|Hax].
    + exists nd. split; [done |]. rewrite Hh. by rewrite with_next_id.
    + apply elem_of_cons in Hx as [?|Hx]; [congruence |]. by apply Hn.
Qed.

(** * The sample [qsort] sorts *)

Lemma sample_qsort : @QsortSpec Sample.sample.
Proof.
  split; intros A cmp l [Hanti Htrans]; simpl.
  - apply merge_sort_Permutation.
  - apply StronglySorted_merge_sort.
    + intros x y z. apply Htrans.
    + intros x y. unfold cmp_le. specialize (Hanti x y). lia.
Qed.

Lemma lax_qsort : @QsortSpec Sample.lax.
Proof.
  split; intros A cmp l [Hanti Htrans]; simpl.
  - apply merge_sort_Permutation.
  - apply StronglySorted_merge_sort.
    + intros x y z. apply Htrans.
    + intros x y. unfold cmp_le. specialize (Hanti x y). lia.
Qed.

(** * Runs that return *)

Lemma count_events_bad (tr : list event) :
  count_events is_EvBad tr = Z.of_nat (length (bad_of tr)).
Proof.
  unfold count_events, bad_of. f_equal.
  induction tr as [|e tr IH]; [done |].
  rewrite filter_cons. destruct e; simpl; rewrite ?IH; done.
Qed.

Lemma live_sigs_app (D : gmap nat kbnode_struct) (l1 l2 : list nat) :
  live_sigs D (l1 ++ l2) = live_sigs D l1 ++ live_sigs D l2.
Proof. unfold live_sigs. apply omap_app. Qed.

Lemma live_sigs_perm (D : gmap nat kbnode_struct) (l1 l2 : list nat) :
  l1 ≡ₚ l2 → live_sigs D l1 ≡ₚ live_sigs D l2.
Proof.
  intros Hp. unfold live_sigs.
  induction Hp as [|x l l' _ IH|x y l|l l' l'' _ IH1 _ IH2].
  - done.
  - simpl. destruct (sig_of D x); simpl; [by constructor | done].
  - simpl. destruct (sig_of D x), (sig_of D y); simpl; try done. constructor.
  - by etrans.
Qed.

Lemma scan_target_found `{Collaborators} (D : gmap nat kbnode_struct)
    (pk issuer : PKT_public_key) (sig : PKT_signature) (cc t : nat)
    (l : list nat) :
  t ∈ l → t ≠ cc → verifies D pk issuer sig t = true →
  ∃ t', scan_target D pk issuer sig cc l = Some t'.
Proof.
  intros Hin Hne Hv.
  destruct (scan_target D pk issuer sig cc l) as [t'|] eqn:E; [by exists t' |].
  apply scan_target_None in E. rewrite Forall_forall in E.
  specialize (E t Hin). rewrite Hv, andb_true_r in E.
  by apply bool_decide_eq_false in E.
Qed.

(** ** The last loop against the count the specification describes *)

Lemma audit_step_spec (D : gmap nat kbnode_struct) (pk : PKT_public_key)
    (a : nat) (l : list nat) (cc : option nat) (has : bool) (m : Z) :
  (∀ c, cc = Some c → is_Some (D !! c)) →
  ∃ cc' has' m',
    audit_step D pk (cc, has, m) a = (cc', has', m')
    ∧ (∀ c, cc' = Some c → is_Some (D !! c))
    ∧ m' + spec_missing_selfsig D pk l + open_component D pk cc' has' l
      = m + spec_missing_selfsig D pk (a :: l)
        + open_component D pk cc has (a :: l).
Proof.
  intros Hcc. unfold audit_step. cbn [spec_missing_selfsig].
  destruct (D !! a) as [nd|] eqn:Hnd.
  2:{ exists cc, has, m. split_and!; [done | done |].
      unfold open_component. simpl. rewrite Hnd. lia. }
  destruct (is_deleted_kbnode nd) eqn:Hdel.
  { exists cc, has, m. split_and!; [done | done |].
    unfold open_component. simpl. rewrite Hnd, Hdel. simpl. lia. }
  assert (Hopen : (∀ sig, pkt nd ≠ PktSignature sig) →
            open_component D pk cc has (a :: l)
            = if bool_decide (cc ≠ None) && negb has then 1 else 0).
  { intros Hp. unfold open_component. destruct cc as [c|]; [| done].
    destruct (Hcc c eq_refl) as [cnd ->]. simpl. rewrite Hnd, Hdel.
    destruct has; [done |].
    destruct (pkt nd) as [| | |sg|]; try done. by destruct (Hp sg). }
  assert (Hself : open_component D pk (Some a) false l
                  = if followed_by_selfsig D pk (pkt nd) l then 0 else 1).
  { unfold open_component. by rewrite Hnd. }
  assert (Hhere : ∀ c, Some a = Some c → is_Some (D !! c)).
  { intros c [= <-]. by rewrite Hnd. }
  simpl negb. rewrite andb_true_l.
  destruct (pkt nd) as [k|k|u|sig|o] eqn:Hpkt.
  - eexists _, _, _. split_and!; [done | done |].
    rewrite Hopen, Hself by done. simpl.
    destruct (bool_decide (cc ≠ None) && negb has),
      (followed_by_selfsig D pk (PktPublicKey k) l); simpl; lia.
  - eexists _, _, _. split_and!; [done | done |].
    rewrite Hopen, Hself by done. simpl.
    destruct (bool_decide (cc ≠ None) && negb has),
      (followed_by_selfsig D pk (PktPublicSubkey k) l); simpl; lia.
  - eexists _, _, _. split_and!; [done | done |].
    rewrite Hopen, Hself by done. simpl.
    destruct (bool_decide (cc ≠ None) && negb has),
      (followed_by_selfsig D pk (PktUserId u) l); simpl; lia.
  - simpl is_component. cbn [andb].
    destruct cc as [c|]; [| by exists None, has, m].
    destruct (Hcc c eq_refl) as [cnd Hc]. rewrite Hc.
    assert (Hfol : followed_by_selfsig D pk (pkt cnd) (a :: l)
              = flags_checked sig && flags_valid sig
                && (keyid_cmp (pk_keyid pk) (keyid sig) =? 0)
                && selfsig_class_matches (pkt cnd) sig
                || followed_by_selfsig D pk (pkt cnd) l).
    { simpl. by rewrite Hnd, Hdel, Hpkt. }
    destruct has.
    { exists (Some c), true, m. split_and!; [done | done |].
      unfold open_component. rewrite Hc. lia. }
    destruct (flags_checked sig && flags_valid sig); simpl in *.
    2:{ exists (Some c), false, m. split_and!; [done | done |].
        unfold open_component. rewrite Hc, Hfol. lia. }
    destruct (keyid_cmp (pk_keyid pk) (keyid sig) =? 0); simpl in *.
    2:{ exists (Some c), false, m. split_and!; [done | done |].
        unfold open_component. rewrite Hc, Hfol. lia. }
    eexists _, _, _. split_and!; [done | done |].
    unfold open_component. rewrite Hc, Hfol.
    destruct (selfsig_class_matches (pkt cnd) sig); simpl; lia.
  - eexists _, _, _. split_and!; [done | done |].
    rewrite Hopen by done. simpl.
    destruct (bool_decide (cc ≠ None) && negb has); simpl; lia.
Qed.

Lemma audit_fold_spec (D : gmap nat kbnode_struct) (pk : PKT_public_key)
    (l : list nat) (cc : option nat) (has : bool) (m : Z) :
  (∀ c, cc = Some c → is_Some (D !! c)) →
  (fold_left (audit_step D pk) l (cc, has, m)).2
  + pending_component (fold_left (audit_step D pk) l (cc, has, m))
  = m + spec_missing_selfsig D pk l + open_component D pk cc has l.
Proof.
  revert cc has m. induction l as [|a l IH]; intros cc has m Hcc.
  { simpl. unfold open_component. destruct cc as [c|]; [| lia].
    destruct (Hcc c eq_refl) as [cnd ->]. destruct has; simpl; lia. }
  destruct (audit_step_spec D pk a l cc has m Hcc)
    as (cc' & has' & m' & Hstep & Hcc' & Heq).
  cbn [fold_left]. rewrite Hstep, IH by done. lia.
Qed.

(** The count of the loop is the count of the specification, less the
    component the loop is still in when the keyblock ends. *)
Lemma audit_spec (D : gmap nat kbnode_struct) (pk : PKT_public_key)
    (l : list nat) :
  audit D pk l = spec_missing_selfsig D pk l - unterminated D pk l.
Proof.
  unfold audit, unterminated.
  pose proof (audit_fold_spec D pk l None false 0 ltac:(done)) as Hf.
  unfold open_component in Hf. lia.
Qed.

(** A keyblock that ends in a component leaves the loop in it. *)
Lemma unterminated_last (D : gmap nat kbnode_struct) (pk : PKT_public_key)
    (l : list nat) (c : nat) :
  last l = Some c → live_component D c = true → unterminated D pk l = 1.
Proof.
  intros Hlast Hlive. apply last_Some in Hlast as [l' ->].
  unfold unterminated. rewrite fold_left_app. simpl.
  destruct (fold_left (audit_step D pk) l' (None, false, 0)) as [[cc has] m].
  unfold audit_step. unfold live_component in Hlive.
  destruct (D !! c) as [nd|]; [| done].
  destruct (is_deleted_kbnode nd); [done |]. simpl in Hlive.
  by destruct (pkt nd).
Qed.

Section Run.
Context `{Collaborators}.

Lemma key_check_inv (fuel : nat) (alloc_ok : bool) (h : gmap nat kbnode_struct)
    (kb : option nat) (sel self : bool) (rv : Z) (s : check_state) :
  key_check_all_keysigs fuel alloc_ok h kb sel self = Ok (rv, s) →
  ∃ pk_node head pk,
    kb = Some pk_node ∧ h !! pk_node = Some head ∧ pkt head = PktPublicKey pk
    ∧ run_shape fuel alloc_ok h kb sel self pk rv s.
Proof.
  unfold key_check_all_keysigs. destruct kb as [pk_node|]; [| done].
  intros Hrun. apply bind_Ok in Hrun as (head & Hhead & Hrun).
  unfold deref in Hhead. destruct (h !! pk_node) as [nd|] eqn:Hnd; [| done].
  injection Hhead as ->.
  destruct (pkt head) as [pk| | | |] eqn:Hpkt; try done.
  exists pk_node, head, pk. split_and!; try done.
  apply bind_Ok in Hrun as (nsigs & Hcount & Hrun).
  destruct (nsigs =? 0) eqn:Hz.
  { apply Z.eqb_eq in Hz as ->. injection Hrun as <- <-.
    by apply RunNoSigs. }
  apply Z.eqb_neq in Hz.
  destruct alloc_ok; simpl in Hrun.
  - apply bind_Ok in Hrun as (sigs & Hsigs & Hrun).
    destruct (negb (Z.of_nat (length sigs) =? nsigs)); [done |].
    apply bind_Ok in Hrun as (s1 & Hs1 & Hrun).
    apply bind_Ok in Hrun as (s2 & Hs2 & Hrun).
    apply bind_Ok in Hrun as (missing & _ & Hrun).
    injection Hrun as <- <-.
    by eapply (RunChecked _ _ _ _ _ _ _ _ _ nsigs sigs s1 s2 missing
                 (pkt_ptr head)).
  - injection Hrun as <- <-.
    by eapply (RunAllocFailed _ _ _ _ _ _ _ _ _ nsigs).
Qed.

(** Whatever the heap holds, the counters of a run that returns count the
    events of its trace, and the value returned is the [modified] flag. *)
Lemma key_check_accounted (fuel : nat) (alloc_ok : bool)
    (h : gmap nat kbnode_struct) (kb : option nat) (sel self : bool)
    (rv : Z) (s : check_state) :
  key_check_all_keysigs fuel alloc_ok h kb sel self = Ok (rv, s) →
  accounted s ∧ rv = modified s.
Proof.
  intros Hrun. apply key_check_inv in Hrun
    as (pk_node & head & pk & -> & _ & _ & Hshape).
  destruct Hshape as [_ -> ->|nsigs _ _ _ -> ->
                     |nsigs sigs s1 s2 missing a _ _ _ _ Hs1 Hs2 -> ->].
  - split; [apply accounted_initial | done].
  - split; [| done]. by repeat split.
  - split; [| done].
    assert (accounted s2) as (Hd & Hm & Hr & Hb & Hmod).
    { eapply accounted_rtc_placement; [| by eapply placement_loop_effect].
      eapply accounted_rtc_dedup; [| by eapply remove_duplicates_effect].
      apply accounted_initial. }
    by repeat split.
Qed.

(** A run whose allocation fails, on a well-formed keyblock. *)
Lemma key_check_alloc_failed (D h : gmap nat kbnode_struct) (pk_node : nat)
    (nd0 : kbnode_struct) (pk : PKT_public_key) (sel self : bool)
    (L0 : list nat) (fuel : nat) :
  keyblock D h (Some pk_node) L0 → D !! pk_node = Some nd0 →
  pkt nd0 = PktPublicKey pk → (length L0 < fuel)%nat →
  key_check_all_keysigs fuel false h (Some pk_node) sel self
  = if decide (live_sigs D L0 = [])
    then Ok (0, initial_state h (Some pk_node))
    else Ok (0, log_event (initial_state h (Some pk_node)) EvAllocError).
Proof.
  intros Hkb Hnd0 Hpk Hfuel.
  pose proof (keyblock_head _ _ _ _ Hkb) as Hhd.
  assert (Hin : pk_node ∈ L0).
  { destruct L0 as [|a L]; [done |]. injection Hhd as ->. apply elem_of_cons.
    by left. }
  destruct (keyblock_elem _ _ _ _ _ Hkb Hin) as (nd & HD & Hh).
  assert (nd = nd0) as -> by congruence.
  unfold key_check_all_keysigs. rewrite Hh. cbn [bind with_next pkt].
  rewrite Hpk.
  pose proof (count_sigs_spec D h (Some pk_node) L0 [] 0 fuel) as Hc.
  rewrite <- Hhd in Hc. rewrite Hc by done. cbn [bind].
  destruct (decide (live_sigs D L0 = [])) as [->|Hne]; [done |].
  by destruct (live_sigs D L0).
Qed.

Lemma live_sigs_nonempty (D : gmap nat kbnode_struct) (l : list nat) :
  live_sigs D l ≠ [] ↔ ∃ a sig, a ∈ l ∧ sig_of D a = Some sig.
Proof.
  split.
  - intros Hne. destruct (live_sigs D l) as [|[a sig] r] eqn:E; [done |].
    exists a, sig. apply live_sigs_elem. rewrite E. left.
  - intros (a & sig & Ha & Hs) E.
    assert (Hin : (a, sig) ∈ live_sigs D l) by by apply live_sigs_elem.
    rewrite E in Hin. by apply elem_of_nil in Hin.
Qed.

(** What is left by a run holds a signature exactly when the keyblock it
    started from does. *)
Lemma check_post_live_sigs (D : gmap nat kbnode_struct) (pk : PKT_public_key)
    (pk_node : nat) (sel self : bool) (h : gmap nat kbnode_struct)
    (L0 L' : list nat) (s : check_state) :
  check_post D pk pk_node sel self h L0 s L' →
  live_sigs D L0 ≠ [] ↔ live_sigs D L' ≠ [].
Proof.
  intros Hpost. rewrite !live_sigs_nonempty. split.
  - intros (a & sig & Ha & Hs).
    rewrite (post_perm _ _ _ _ _ _ _ _ _ Hpost) in Ha.
    apply elem_of_app in Ha as [Ha|Ha]; [| by exists a, sig].
    destruct (post_killed _ _ _ _ _ _ _ _ _ Hpost a Ha)
      as (_ & b & sb & _ & Hb & Hsb & _).
    by exists b, sb.
  - intros (a & sig & Ha & Hs). exists a, sig. split; [| done].
    rewrite (post_perm _ _ _ _ _ _ _ _ _ Hpost). apply elem_of_app. by right.
Qed.

(** A second run on what a first run with a successful allocation left. *)
Lemma key_check_twice `{!QsortSpec} (D h : gmap nat kbnode_struct)
    (pk_node : nat) (nd0 : kbnode_struct) (pk : PKT_public_key)
    (sel self : bool) (L0 : list nat) (fuel : nat) (rv1 : Z)
    (s1 : check_state) :
  keyblock D h (Some pk_node) L0 → D !! pk_node = Some nd0 →
  pkt nd0 = PktPublicKey pk → (2 * length L0 < fuel)%nat →
  key_check_all_keysigs fuel true h (Some pk_node) sel self = Ok (rv1, s1) →
  ∃ rv2 s2,
    key_check_all_keysigs fuel true (st_heap s1) (st_kb s1) sel self
    = Ok (rv2, s2)
    ∧ rv2 = 0 ∧ dups s2 = 0 ∧ reordered s2 = 0
    ∧ bad_signature s2 = bad_signature s1
    ∧ missing_issuer s2 = missing_issuer s1
    ∧ missing_selfsig s2 = missing_selfsig s1
    ∧ st_heap s2 = st_heap s1 ∧ st_kb s2 = st_kb s1.
Proof.
  intros Hkb Hnd0 Hpk Hfuel Hrun.
  pose proof (key_check_spec D fuel h pk_node nd0 pk sel self L0
                Hkb Hnd0 Hpk Hfuel) as Hfirst.
  rewrite Hrun in Hfirst. destruct Hfirst as (_ & L1 & Hpost).
  pose proof (check_post_live_sigs _ _ _ _ _ _ _ _ _ Hpost) as Hlive.
  pose proof (post_keyblock _ _ _ _ _ _ _ _ _ Hpost) as Hkb1.
  pose proof (post_head _ _ _ _ _ _ _ _ _ Hpost) as Hhead1.
  rewrite Hhead1 in Hkb1 |- *.
  assert (Hlen : (length L1 ≤ length L0)%nat).
  { rewrite (post_perm _ _ _ _ _ _ _ _ _ Hpost), length_app. lia. }
  pose proof (key_check_spec D fuel (st_heap s1) pk_node nd0 pk sel self L1
                Hkb1 Hnd0 Hpk ltac:(lia)) as Hsecond.
  destruct (key_check_all_keysigs fuel true (st_heap s1) (Some pk_node)
              sel self) as [[rv2 s2]| | |]; [| | done | done].
  - destruct Hsecond as (-> & L2 & Hpost2). exists (modified s2), s2.
    destruct (post_unchanged _ _ _ _ _ _ _ _ _ Hpost2) as (-> & HK & HM & Hh).
    { apply (post_no_duplicates _ _ _ _ _ _ _ _ _ Hpost). }
    { apply (post_placed _ _ _ _ _ _ _ _ _ Hpost). }
    destruct (post_accounted _ _ _ _ _ _ _ _ _ Hpost2)
      as (Hd & _ & Hr & _ & Hmod).
    rewrite count_events_killed, HK in Hd.
    rewrite count_events_moved, HM in Hr. simpl in Hd, Hr.
    split_and!; try done.
    + by rewrite Hmod, Hd, Hr.
    + by rewrite (post_bad _ _ _ _ _ _ _ _ _ Hpost2),
        (post_bad _ _ _ _ _ _ _ _ _ Hpost).
    + by rewrite (post_missing _ _ _ _ _ _ _ _ _ Hpost2),
        (post_missing _ _ _ _ _ _ _ _ _ Hpost).
    + destruct (decide (live_sigs D L0 = [])) as [He|Hne].
      * rewrite (post_no_sigs _ _ _ _ _ _ _ _ _ Hpost He).
        apply (post_no_sigs _ _ _ _ _ _ _ _ _ Hpost2).
        destruct (decide (live_sigs D L1 = [])) as [|Hne1]; [done |].
        by apply Hlive in Hne1.
      * rewrite (post_selfsig _ _ _ _ _ _ _ _ _ Hpost Hne).
        apply (post_selfsig _ _ _ _ _ _ _ _ _ Hpost2). by apply Hlive.
    + by rewrite (post_head _ _ _ _ _ _ _ _ _ Hpost2).
  - exfalso. apply Hsecond. split_and!.
    + apply (post_no_duplicates _ _ _ _ _ _ _ _ _ Hpost).
    + apply (post_placed _ _ _ _ _ _ _ _ _ Hpost).
    + intros Hne1. apply (post_primary _ _ _ _ _ _ _ _ _ Hpost); [| done].
      by apply Hlive.
Qed.
End Run.

(** * What the function writes, whatever the heap holds *)

Lemma only_next_written_refl (h : gmap nat kbnode_struct) :
  only_next_written h h.
Proof. intros a nd Ha. exists nd. split; [done |]. by destruct nd. Qed.

Lemma only_next_written_store (h h' : gmap nat kbnode_struct) (a : nat)
    (nd : kbnode_struct) (v : option nat) :
  only_next_written h h' → h' !! a = Some nd →
  only_next_written h (<[a := with_next nd v]> h').
Proof.
  intros Hw Ha b nd' Hb. destruct (decide (b = a)) as [->|Hne].
  - rewrite lookup_insert_eq in Hb. injection Hb as <-.
    destruct (Hw a nd Ha) as (nd0 & H0 & Hnd). exists nd0.
    split; [done |]. by rewrite Hnd.
  - rewrite lookup_insert_ne in Hb by done. by apply Hw.
Qed.

Lemma only_next_written_delete (h h' : gmap nat kbnode_struct) (a : nat) :
  only_next_written h h' → only_next_written h (delete a h').
Proof.
  intros Hw b nd' Hb. apply lookup_delete_Some in Hb as [_ Hb]. by apply Hw.
Qed.

Lemma freed_exactly_store (h h' : gmap nat kbnode_struct) (a : nat)
    (nd nd' : kbnode_struct) (freed : list nat) :
  freed_exactly h h' freed → h' !! a = Some nd →
  freed_exactly h (<[a := nd']> h') freed.
Proof.
  intros Hf Ha b. destruct (decide (b = a)) as [->|Hne].
  - rewrite lookup_insert_eq. split; [intros _ | by eauto].
    apply Hf. by rewrite Ha.
  - rewrite lookup_insert_ne by done. apply Hf.
Qed.

Lemma freed_exactly_delete (h h' : gmap nat kbnode_struct) (a : nat)
    (freed : list nat) :
  freed_exactly h h' freed →
  freed_exactly h (delete a h') (freed ++ [a]).
Proof.
  intros Hf b. rewrite not_elem_of_app, list_elem_of_singleton.
  destruct (decide (b = a)) as [->|Hne].
  - rewrite lookup_delete_eq. split; [by intros [? ?] | by intros (_ & _ & ?)].
  - rewrite lookup_delete_ne by done. pose proof (Hf b). tauto.
Qed.

(** A signature read from a heap the run has reached is a signature of the
    heap it started from. *)
Lemma only_next_written_sig (h h' : gmap nat kbnode_struct) (a : nat)
    (nd : kbnode_struct) (sig : PKT_signature) :
  only_next_written h h' → h' !! a = Some nd →
  is_deleted_kbnode nd = false → pkt nd = PktSignature sig →
  sig_of h a = Some sig.
Proof.
  intros Hw Ha Hdel Hpkt. destruct (Hw a nd Ha) as (nd0 & H0 & Hnd).
  unfold sig_of. rewrite H0. rewrite Hnd in Hdel, Hpkt.
  change (is_deleted_kbnode nd0 = false) in Hdel.
  change (pkt nd0 = PktSignature sig) in Hpkt. by rewrite Hdel, Hpkt.
Qed.

Section Sound.
Context `{Collaborators}.
Context (h : gmap nat kbnode_struct) (pk : PKT_public_key).

Lemma sound_initial (kb : option nat) : sound h pk (initial_state h kb).
Proof.
  split_and!.
  - apply only_next_written_refl.
  - intros a. simpl. split; [intros ?; split; [done | apply not_elem_of_nil] |].
    by intros [? _].
  - constructor.
Qed.

Lemma sound_store (s s' : check_state) (p : kbnode_ptr) (v : option nat) :
  store s p v = Ok s' → sound h pk s → sound h pk s'.
Proof.
  intros Hst (Hw & Hf & He). destruct p as [|a]; simpl in Hst.
  - by injection Hst as <-.
  - apply bind_Ok in Hst as (nd & Hnd & [= <-]). unfold deref in Hnd.
    destruct (st_heap s !! a) as [nd1|] eqn:Ha; [| done].
    injection Hnd as ->. split_and!; simpl.
    + by apply only_next_written_store.
    + by eapply freed_exactly_store.
    + done.
Qed.

(** Writing a line that is not about a duplicate. *)
Lemma sound_log (s : check_state) (e : event) :
  sound h pk s → event_sound h pk e →
  (∀ t sig, e ≠ EvDuplicate t sig) →
  sound h pk (log_event s e).
Proof.
  intros (Hw & Hf & He) Hev Hnd. split_and!; simpl.
  - done.
  - unfold killed_of. rewrite omap_app. simpl.
    destruct e; rewrite ?app_nil_r; try done. by destruct (Hnd killed sig).
  - apply Forall_app. split; [done | by apply Forall_singleton].
Qed.

Lemma sound_counters (s s' : check_state) :
  st_heap s' = st_heap s → trace s' = trace s →
  sound h pk s → sound h pk s'.
Proof. intros Hh Ht (Hw & Hf & He). unfold sound. by rewrite Hh, Ht. Qed.

Lemma remove_duplicate_sound (fuel : nat) (s s' : check_state) (t : nat)
    (described : PKT_signature) :
  remove_duplicate fuel s t described = Ok s' → sound h pk s → sound h pk s'.
Proof.
  unfold remove_duplicate. intros Hrun Hs.
  apply bind_Ok in Hrun as (prevp & _ & Hrun).
  apply bind_Ok in Hrun as (nd & Hnd & Hrun).
  apply bind_Ok in Hrun as (s1 & Hs1 & [= <-]).
  assert (Ht : is_Some (h !! t)).
  { destruct Hs as (_ & Hf & _). unfold deref in Hnd.
    destruct (st_heap s !! t) as [nd1|] eqn:E; [| done].
    by apply (Hf t). }
  assert (Hk : killed_of (trace s1) = killed_of (trace s)).
  { destruct prevp as [|a]; simpl in Hs1.
    - by injection Hs1 as <-.
    - apply bind_Ok in Hs1 as (nd1 & _ & [= <-]). done. }
  apply sound_store in Hs1 as (Hw & Hf & He); [| done].
  split_and!; simpl.
  - by apply only_next_written_delete.
  - unfold killed_of. rewrite omap_app. simpl. fold (killed_of (trace s1)).
    by apply freed_exactly_delete.
  - apply Forall_app. split; [done | by apply Forall_singleton].
Qed.

Lemma dedup_scan_sound (fuel : nat) (rest : list (nat * PKT_signature))
    (s s' : check_state) (last : nat * PKT_signature) :
  dedup_scan fuel s last rest = Ok s' → sound h pk s → sound h pk s'.
Proof.
  revert s last. induction rest as [|cur rest IH]; intros s last; simpl.
  - by intros [= <-].
  - destruct (sig_comparison last.2 cur.2 =? 0); [| apply IH].
    intros Hrun Hs. apply bind_Ok in Hrun as (s1 & Hs1 & Hrun).
    eapply IH; [done |]. by eapply remove_duplicate_sound.
Qed.

Lemma remove_duplicates_sound (fuel : nat)
    (sigs : list (nat * PKT_signature)) (s s' : check_state) :
  remove_duplicates fuel s sigs = Ok s' → sound h pk s → sound h pk s'.
Proof.
  unfold remove_duplicates. destruct (qsort sig_entry_cmp sigs) as [|x rest].
  - by intros [= <-].
  - apply dedup_scan_sound.
Qed.

(** The node the search stops at is not deleted, and the signature
    verifies over its packet. *)
Lemma search_keyblock_found (fuel : nat) (h' : gmap nat kbnode_struct)
    (issuer : PKT_public_key) (sig : PKT_signature) (cc : nat)
    (n2 : option nat) (t : nat) :
  search_keyblock fuel h' pk issuer sig cc n2 = Ok (Some t) →
  ∃ ndt, h' !! t = Some ndt ∧ is_deleted_kbnode ndt = false
         ∧ check_signature_over_key_or_uid issuer sig pk (pkt ndt) = 0.
Proof.
  revert n2. induction fuel as [|fuel IH]; intros n2; destruct n2 as [a|];
    simpl; try done.
  intros Hrun. apply bind_Ok in Hrun as (nd & Hnd & Hrun).
  unfold deref in Hnd. destruct (h' !! a) as [nd1|] eqn:Ha; [| done].
  injection Hnd as ->.
  destruct (is_deleted_kbnode nd) eqn:Hdel; [by apply IH in Hrun |].
  destruct (decide (a = cc)); [by apply IH in Hrun |].
  destruct (check_signature_over_key_or_uid issuer sig pk (pkt nd) =? 0)
    eqn:Hv; [| by apply IH in Hrun].
  injection Hrun as <-. exists nd. by apply Z.eqb_eq in Hv.
Qed.

Lemma find_target_found (fuel : nat) (h' : gmap nat kbnode_struct)
    (kb : option nat) (issuer : PKT_public_key) (sig : PKT_signature)
    (cc t : nat) :
  find_target fuel h' kb pk issuer sig cc = Ok (Some t) →
  ∃ ndt, h' !! t = Some ndt ∧ is_deleted_kbnode ndt = false
         ∧ check_signature_over_key_or_uid issuer sig pk (pkt ndt) = 0.
Proof.
  unfold find_target. intros Hrun. apply bind_Ok in Hrun as (nd & Hnd & Hrun).
  unfold deref in Hnd. destruct (h' !! cc) as [nd1|] eqn:Hc; [| done].
  injection Hnd as ->.
  destruct (is_deleted_kbnode nd) eqn:Hdel;
    [by apply search_keyblock_found in Hrun |].
  destruct (check_signature_over_key_or_uid issuer sig pk (pkt nd) =? 0)
    eqn:Hv; [| by apply search_keyblock_found in Hrun].
  injection Hrun as <-. exists nd. by apply Z.eqb_eq in Hv.
Qed.
End Sound.

Section SoundLoop.
Context `{Collaborators}.
Context (h : gmap nat kbnode_struct) (pk : PKT_public_key).

Lemma place_signature_sound (fuel : nat) (issuer : PKT_public_key)
    (s s' : check_state) (n_prevp : kbnode_ptr) (cc n : nat)
    (sig : PKT_signature) :
  place_signature fuel pk issuer s n_prevp cc n sig = Ok s' →
  sound h pk s → sig_of h n = Some sig → issuer_of pk sig issuer →
  sound h pk s'.
Proof.
  unfold place_signature. intros Hrun Hs Hsig Hiss.
  destruct (openpgp_pk_test_algo (pubkey_algo sig) =? 0) eqn:Hpka;
    cbn [negb] in Hrun.
  2:{ injection Hrun as <-. apply sound_log; [done | | done].
      split; [done |]. by apply Z.eqb_neq. }
  destruct (openpgp_md_test_algo (digest_algo sig) =? 0) eqn:Hmda;
    cbn [negb] in Hrun.
  2:{ injection Hrun as <-. apply sound_log; [done | | done].
      split; [done |]. by apply Z.eqb_neq. }
  apply Z.eqb_eq in Hpka, Hmda.
  apply bind_Ok in Hrun as (n2 & Hfind & Hrun).
  destruct n2 as [t|].
  2:{ injection Hrun as <-. apply (sound_counters h pk (log_event s (EvBad n sig)));
        [done | done |].
      apply sound_log; [done | | done]. split_and!; try done. by exists issuer. }
  destruct (decide (cc = t)).
  { injection Hrun as <-. apply sound_log; [done | | done].
    split_and!; try done. by exists issuer. }
  apply find_target_found in Hfind as (ndt & Ht & Hdel & Hv).
  apply bind_Ok in Hrun as (target & Htarget & Hrun).
  unfold deref in Htarget. rewrite Ht in Htarget. injection Htarget as <-.
  destruct (is_component (pkt ndt)) eqn:Hcomp; cbn [negb] in Hrun; [| done].
  apply bind_Ok in Hrun as (nd & _ & Hrun).
  apply bind_Ok in Hrun as (s1 & Hs1 & Hrun).
  apply bind_Ok in Hrun as (target1 & _ & Hrun).
  apply bind_Ok in Hrun as (s2 & Hs2 & Hrun).
  apply bind_Ok in Hrun as (s3 & Hs3 & [= <-]).
  assert (Hev : event_sound h pk (EvOutOfOrder n sig t)).
  { destruct Hs as (Hw & _ & _). destruct (Hw t ndt Ht) as (nd0 & H0 & Hnd).
    rewrite Hnd in Hdel, Hcomp, Hv.
    split_and!; try done. by exists issuer, nd0. }
  unfold store_next in Hs2, Hs3.
  apply (sound_store h pk) in Hs1; [| done].
  apply (sound_store h pk) in Hs2; [| done].
  apply (sound_store h pk) in Hs3; [| done].
  apply (sound_counters h pk (log_event s3 (EvOutOfOrder n sig t)));
    [done | done |].
  by apply sound_log.
Qed.

Lemma check_signature_node_sound (fuel : nat) (self : bool)
    (s s' : check_state) (n_prevp : kbnode_ptr) (cc : option nat) (n : nat)
    (sig : PKT_signature) :
  check_signature_node fuel pk self s n_prevp cc n sig = Ok s' →
  sound h pk s → sig_of h n = Some sig → sound h pk s'.
Proof.
  unfold check_signature_node. intros Hrun Hs Hsig.
  destruct cc as [c|]; [| by injection Hrun as <-].
  destruct (keyid_cmp (pk_keyid pk) (keyid sig) =? 0) eqn:Hid.
  { eapply place_signature_sound; try done.
    unfold issuer_of. by rewrite Hid. }
  destruct self; [by injection Hrun as <- |].
  destruct (get_pubkey (keyid sig)) as [issuer|] eqn:Hget.
  { eapply place_signature_sound; try done.
    unfold issuer_of. by rewrite Hid. }
  injection Hrun as <-.
  apply (sound_counters h pk (log_event s (EvMissingIssuer n sig)));
    [done | done |].
  apply sound_log; [done | | done]. split_and!; try done.
  by apply Z.eqb_neq.
Qed.

Lemma placement_body_sound (fuel : nat) (pk_ptr : nat) (sel self : bool)
    (s : check_state) (n_prevp : kbnode_ptr) (cc : option nat) (n : nat)
    (nd : kbnode_struct) (r : check_state * option nat) :
  placement_body fuel pk pk_ptr sel self s n_prevp cc n nd = Ok r →
  sound h pk s → st_heap s !! n = Some nd → is_deleted_kbnode nd = false →
  sound h pk r.1.
Proof.
  unfold placement_body. intros Hrun Hs Hn Hdel.
  destruct (pkt nd) as [k|k|u|sig|o] eqn:Hpkt.
  - destruct (negb (bool_decide (pkt_ptr nd = pk_ptr))); [done |].
    by destruct (sel && negb (flag_set nd NODFLG_SELKEY));
      injection Hrun as <-.
  - by destruct (sel && negb (flag_set nd NODFLG_SELKEY));
      injection Hrun as <-.
  - by destruct (sel && negb (flag_set nd NODFLG_SELUID));
      injection Hrun as <-.
  - apply bind_Ok in Hrun as (s' & Hs' & [= <-]). simpl.
    eapply check_signature_node_sound; try done.
    destruct Hs as (Hw & _ & _). by eapply only_next_written_sig.
  - by injection Hrun as <-.
Qed.

Lemma placement_loop_sound (fuel walk : nat) (pk_ptr : nat)
    (sel self : bool) (s s' : check_state) (n_prevp : kbnode_ptr)
    (cc n : option nat) :
  placement_loop fuel walk pk pk_ptr sel self s n_prevp cc n = Ok s' →
  sound h pk s → sound h pk s'.
Proof.
  revert s n_prevp cc n. induction fuel as [|fuel IH]; intros s n_prevp cc n.
  - destruct n; simpl; [done |]. by intros [= <-].
  - destruct n as [a|]; simpl; [| by intros [= <-]].
    intros Hrun Hs. apply bind_Ok in Hrun as (nd & Hnd & Hrun).
    unfold deref in Hnd. destruct (st_heap s !! a) as [nd1|] eqn:Ha; [| done].
    injection Hnd as ->.
    apply bind_Ok in Hrun as (r & Hr & Hrun).
    apply bind_Ok in Hrun as (nd' & _ & Hrun).
    eapply IH; [done |].
    destruct (is_deleted_kbnode nd) eqn:Hdel.
    + by injection Hr as <-.
    + by eapply placement_body_sound.
Qed.

(** A run that returns on any heap. *)
Lemma key_check_sound (fuel : nat) (alloc_ok : bool) (kb : option nat)
    (sel self : bool) (rv : Z) (s : check_state) (pk_node : nat)
    (nd0 : kbnode_struct) :
  key_check_all_keysigs fuel alloc_ok h kb sel self = Ok (rv, s) →
  kb = Some pk_node → h !! pk_node = Some nd0 → pkt nd0 = PktPublicKey pk →
  sound h pk s.
Proof.
  intros Hrun Hkb Hnd0 Hpk.
  apply key_check_inv in Hrun
    as (pk_node' & nd0' & pk' & Hkb' & Hnd0' & Hpk' & Hshape).
  assert (pk_node' = pk_node) as -> by congruence.
  assert (nd0' = nd0) as -> by congruence.
  assert (pk' = pk) as -> by congruence.
  destruct Hshape as [_ _ ->|nsigs _ _ _ _ ->
                     |nsigs sigs s1 s2 missing a _ _ _ _ Hs1 Hs2 _ ->].
  - apply sound_initial.
  - apply sound_log; [apply sound_initial | done | done].
  - apply (sound_counters h pk s2); [done | done |].
    eapply placement_loop_sound; [done |].
    eapply remove_duplicates_sound; [done |]. apply sound_initial.
Qed.
End SoundLoop.

(** ** Consequences for the nodes named in the trace *)

Lemma moved_are_signatures `{Collaborators} (h : gmap nat kbnode_struct)
    (pk : PKT_public_key) (tr : list event) (n : nat) :
  Forall (event_sound h pk) tr → n ∈ moved_of tr → is_Some (sig_of h n).
Proof.
  intros Hall Hn. unfold moved_of in Hn.
  apply list_elem_of_omap in Hn as (e & He & Hn).
  rewrite Forall_forall in Hall. specialize (Hall e He).
  destruct e; try done. injection Hn as <-. by destruct Hall as [-> _].
Qed.

Lemma filter_filter_weaker {A : Type} (P Q : A → Prop)
    `{!∀ x, Decision (P x)} `{!∀ x, Decision (Q x)} (l : list A) :
  (∀ x, x ∈ l → P x → Q x) → filter P (filter Q l) = filter P l.
Proof.
  induction l as [|a l IH]; intros Himp; [done |].
  assert (IH' : filter P (filter Q l) = filter P l).
  { apply IH. intros x Hx. apply Himp. by right. }
  rewrite (filter_cons Q). destruct (decide (Q a)) as [Hq|Hq].
  - rewrite !filter_cons. by rewrite IH'.
  - rewrite IH', filter_cons. destruct (decide (P a)) as [Hp|Hp]; [| done].
    destruct Hq. apply Himp; [left | done].
Qed.

Lemma live_sigs_all (D : gmap nat kbnode_struct) (l : list nat) :
  (∀ a, a ∈ l → is_Some (sig_of D a)) → length (live_sigs D l) = length l.
Proof.
  induction l as [|a l IH]; intros Hall; [done |].
  rewrite live_sigs_cons. destruct (Hall a ltac:(left)) as [sig ->]. simpl.
  rewrite IH; [done |]. intros b Hb. apply Hall. by right.
Qed.

(** ** Verdicts *)

Section MoreVerdicts.
Context `{Collaborators}.
Context (D : gmap nat kbnode_struct) (pk : PKT_public_key).



End MoreVerdicts.

(** ** The last loop without flagged signatures *)

Section Unflagged.
Context (h : gmap nat kbnode_struct) (pk : PKT_public_key).




End Unflagged.

(** ** Nodes that hold no signature stay where they are *)

Lemma nonsig_nodes_stay `{Collaborators} (h : gmap nat kbnode_struct)
    (pk : PKT_public_key) (pk_node : nat) (sel self : bool)
    (L0 L' : list nat) (s : check_state) :
  check_post h pk pk_node sel self h L0 s L' →
  Forall (event_sound h pk) (trace s) →
  filter (λ a, sig_of h a = None) L' = filter (λ a, sig_of h a = None) L0.
Proof.
  intros Hpost Hev.
  assert (Hmoved : ∀ x, sig_of h x = None → x ∉ moved_of (trace s)).
  { intros x Hx Hin.
    destruct (moved_are_signatures h pk _ _ Hev Hin) as [sig Hsig].
    congruence. }
  assert (Hkilled : ∀ x, sig_of h x = None → x ∉ killed_of (trace s)).
  { intros x Hx Hin.
    destruct (post_killed _ _ _ _ _ _ _ _ _ Hpost x Hin)
      as (sa & _ & _ & Hsa & _).
    congruence. }
  rewrite <- (filter_filter_weaker (λ a, sig_of h a = None)
                (λ a, a ∉ moved_of (trace s)) L') by (intros; auto).
  rewrite (post_order _ _ _ _ _ _ _ _ _ Hpost).
  rewrite filter_filter_weaker by (intros; auto).
  apply filter_filter_weaker. intros; auto.
Qed.

(** ** Which of the nodes with equal signatures are unlinked *)

Section Killed.
Context `{Collaborators}.

Lemma remove_duplicate_killed (fuel : nat) (s s' : check_state) (t : nat)
    (described : PKT_signature) :
  remove_duplicate fuel s t described = Ok s' →
  killed_of (trace s') = killed_of (trace s) ++ [t].
Proof.
  unfold remove_duplicate. intros Hb.
  apply bind_Ok in Hb as (prevp & _ & Hb).
  apply bind_Ok in Hb as (nd & _ & Hb).
  apply bind_Ok in Hb as (s1 & Hst & [= <-]).
  apply store_effect in Hst as (h' & kb' & ->). simpl.
  by rewrite killed_of_snoc.
Qed.

Lemma dedup_scan_killed (fuel : nat) (rest : list (nat * PKT_signature))
    (s s' : check_state) (last : nat * PKT_signature) :
  dedup_scan fuel s last rest = Ok s' →
  killed_of (trace s') = killed_of (trace s) ++ dedup_kills last rest.
Proof.
  revert s last. induction rest as [|cur rest IH]; intros s last; simpl.
  - intros [= <-]. by rewrite app_nil_r.
  - destruct (sig_comparison last.2 cur.2 =? 0); [| apply IH].
    intros Hb. apply bind_Ok in Hb as (s1 & Hrm & Hb).
    rewrite (IH _ _ Hb), (remove_duplicate_killed _ _ _ _ _ Hrm).
    by rewrite <- app_assoc.
Qed.

(** An entry of the sorted array that has an equal entry behind it is
    unlinked. *)
Lemma dedup_kills_earlier (pre mid post rest : list (nat * PKT_signature))
    (first x y : nat * PKT_signature) :
  StronglySorted (cmp_le sig_entry_cmp) (first :: rest) →
  first :: rest = pre ++ x :: mid ++ y :: post →
  sig_comparison x.2 y.2 = 0 →
  x.1 ∈ dedup_kills first rest.
Proof.
  revert first rest. induction pre as [|p pre IH]; intros first rest Hs Heq Hc.
  - simpl in Heq. injection Heq as -> ->.
    destruct mid as [|cur mid]; simpl in *.
    + rewrite Hc. simpl. left.
    + rewrite (sorted_adjacent x cur y (mid ++ y :: post) Hs); [left | | done].
      right. apply elem_of_app. right. left.
  - simpl in Heq. injection Heq as -> ->.
    destruct (pre ++ x :: mid ++ y :: post) as [|cur rest'] eqn:E.
    { by destruct pre. }
    simpl. apply StronglySorted_inv in Hs as [Hs _].
    specialize (IH cur rest' Hs eq_refl Hc).
    destruct (sig_comparison p.2 cur.2 =? 0); [by right | done].
Qed.

(** The last entry of the sorted array is kept. *)
Lemma dedup_kills_last (rest : list (nat * PKT_signature))
    (first z : nat * PKT_signature) :
  NoDup (first :: rest).*1 → last (first :: rest) = Some z →
  z.1 ∉ dedup_kills first rest.
Proof.
  revert first. induction rest as [|cur rest IH]; intros first Hnd Hl.
  - apply not_elem_of_nil.
  - rewrite fmap_cons in Hnd. apply NoDup_cons in Hnd as [Hf Hnd].
    change (last (cur :: rest) = Some z) in Hl.
    specialize (IH cur Hnd Hl). simpl.
    destruct (sig_comparison first.2 cur.2 =? 0); [| done].
    apply not_elem_of_cons. split; [| done].
    intros E. apply Hf. rewrite <- E.
    apply list_elem_of_fmap_2. by apply last_Some_elem_of.
Qed.

(** The nodes a run with a successful allocation unlinks. *)
Lemma key_check_killed `{!QsortSpec} (D h : gmap nat kbnode_struct)
    (kb : option nat) (L0 : list nat) (fuel : nat) (sel self : bool)
    (rv : Z) (s : check_state) :
  keyblock D h kb L0 → (length L0 < fuel)%nat →
  key_check_all_keysigs fuel true h kb sel self = Ok (rv, s) →
  killed_of (trace s)
  = match qsort sig_entry_cmp (live_sigs D L0) with
    | [] => []
    | first :: rest => dedup_kills first rest
    end.
Proof.
  intros Hkb Hfuel Hrun.
  pose proof (count_sigs_spec D h kb L0 [] 0 fuel Hkb Hfuel) as Hcount.
  pose proof (collect_sigs_spec D h kb L0 [] fuel Hkb Hfuel) as Hcollect.
  rewrite <- (keyblock_head _ _ _ _ Hkb) in Hcount, Hcollect.
  apply key_check_inv in Hrun as (pk_node & nd & pk & -> & Hnd & Hpk & Hsh).
  destruct Hsh as [Hc _ ->|nsigs _ _ Ha _ _
                  |nsigs sigs s1 s2 missing a _ _ _ Hsigs Hs1 Hs2 _ ->];
    [| done |].
  - assert (live_sigs D L0 = []) as ->.
    { rewrite Hcount in Hc. injection Hc as Hc.
      destruct (live_sigs D L0); [done | simpl in Hc; lia]. }
    pose proof (qsort_perm _ sig_entry_cmp [] sig_entry_cmp_consistent)
      as Hperm.
    by apply Permutation_nil_r in Hperm as ->.
  - simpl. apply placement_loop_effect, placement_keeps_dups in Hs2 as [_ ->].
    assert (sigs = live_sigs D L0) as -> by congruence.
    unfold remove_duplicates in Hs1.
    destruct (qsort sig_entry_cmp (live_sigs D L0)) as [|first rest].
    + by injection Hs1 as <-.
    + by rewrite (dedup_scan_killed _ _ _ _ _ Hs1).
Qed.
End Killed.

(** * The keyblock a run leaves, against the keyblock it started from *)

Lemma filter_left (K L0 L' : list nat) :
  NoDup L0 → L0 ≡ₚ K ++ L' →
  filter (λ a, a ∈ L') L0 = filter (λ a, a ∉ K) L0.
Proof.
  intros Hnd Hperm. apply filter_ext_elem. intros x Hx.
  rewrite Hperm in Hnd. apply NoDup_app in Hnd as (_ & Hdisj & _).
  rewrite Hperm in Hx. apply elem_of_app in Hx as [Hx|Hx].
  - split; [| done]. intros Hx'. by destruct (Hdisj x Hx).
  - split; [| done]. intros _ Hx'. by destruct (Hdisj x Hx').
Qed.

(** Where [current_component], taken over all components, is [t] at node
    [n], the node stands behind [t] with no component that is not deleted
    in between. *)
Lemma context_of_segment (D : gmap nat kbnode_struct) (l : list nat)
    (cc : option nat) (n t : nat) :
  context_of D false cc l n = Some t →
  (cc = Some t
   ∧ ∃ mid post, l = mid ++ n :: post
                 ∧ ∀ x, x ∈ mid → live_component D x = false)
  ∨ (∃ pre mid post, l = pre ++ t :: mid ++ n :: post
                     ∧ ∀ x, x ∈ mid → live_component D x = false).
Proof.
  revert cc. induction l as [|a l IH]; intros cc; [done |]. simpl.
  destruct (decide (a = n)) as [->|Hne].
  { intros ->. left. split; [done |]. exists [], l. split; [done |].
    intros x Hx. by apply elem_of_nil in Hx. }
  intros Hc. destruct (IH _ Hc) as [[Hstep (mid & post & -> & Hmid)]
                                   |(pre & mid & post & -> & Hmid)].
  - destruct (live_component D a) eqn:Hlive.
    + rewrite step_component_all in Hstep by done. injection Hstep as ->.
      right. exists [], mid, post. done.
    + rewrite step_component_other in Hstep by done. left. split; [done |].
      exists (a :: mid), post. split; [done |]. intros x Hx.
      apply elem_of_cons in Hx as [->|Hx]; [done | by apply Hmid].
  - right. exists (a :: pre), mid, post. done.
Qed.

Section Left.
Context `{Collaborators}.

(** An entry of the sorted array is unlinked only if an equal entry stands
    behind it. *)
Lemma dedup_kills_later (pre post rest : list (nat * PKT_signature))
    (first x : nat * PKT_signature) :
  NoDup (first :: rest).*1 →
  first :: rest = pre ++ x :: post →
  x.1 ∈ dedup_kills first rest →
  ∃ y, y ∈ post ∧ sig_comparison x.2 y.2 = 0.
Proof.
  revert first rest. induction pre as [|p pre IH]; intros first rest Hnd Heq Hx.
  - simpl in Heq. injection Heq as -> ->.
    destruct post as [|cur post]; [by apply elem_of_nil in Hx |].
    simpl in Hx. destruct (Z.eqb_spec (sig_comparison x.2 cur.2) 0) as [E|E].
    { exists cur. split; [left | done]. }
    exfalso. rewrite fmap_cons in Hnd. apply NoDup_cons in Hnd as [Hf _].
    apply Hf. by apply dedup_kills_subset in Hx.
  - simpl in Heq. injection Heq as -> ->.
    rewrite fmap_cons in Hnd. apply NoDup_cons in Hnd as [Hf Hnd].
    destruct (pre ++ x :: post) as [|cur rest'] eqn:E.
    { by destruct pre. }
    simpl in Hx.
    assert (x.1 ≠ p.1) as Hxp.
    { intros Exp. apply Hf. rewrite <- Exp. apply list_elem_of_fmap_2.
      rewrite <- E. apply elem_of_app. right. left. }
    assert (x.1 ∈ dedup_kills cur rest') as Hx'.
    { destruct (sig_comparison p.2 cur.2 =? 0); [| done].
      by apply elem_of_cons in Hx as [?|?]. }
    by apply (IH cur rest' Hnd eq_refl).
Qed.

(** The counters against the two lists. *)
Lemma post_left (D : gmap nat kbnode_struct) (pk : PKT_public_key)
    (pk_node : nat) (sel self : bool) (h0 : gmap nat kbnode_struct)
    (L0 L' : list nat) (s : check_state) :
  NoDup L0 →
  check_post D pk pk_node sel self h0 L0 s L' →
  check_more D pk sel self L0 s L' →
  filter (λ a, a ∈ L') L0 = filter (λ a, a ∉ killed_of (trace s)) L0
  ∧ dups s = Z.of_nat (length L0) - Z.of_nat (length L')
  ∧ reordered s = Z.of_nat (length (moved_of (trace s)))
  ∧ (0 < reordered s ↔ L' ≠ filter (λ a, a ∈ L') L0)
  ∧ (modified s = 1 ↔ L' ≠ L0).
Proof.
  intros Hnd Hpost Hmore.
  pose proof (post_perm _ _ _ _ _ _ _ _ _ Hpost) as Hperm.
  destruct (post_accounted _ _ _ _ _ _ _ _ _ Hpost)
    as (Hd & _ & Hr & _ & Hmod).
  rewrite count_events_killed in Hd. rewrite count_events_moved in Hr.
  pose proof (filter_left _ _ _ Hnd Hperm) as Hfl.
  assert (length L0 = (length (killed_of (trace s)) + length L')%nat) as Hlen.
  { by rewrite Hperm, length_app. }
  assert (0 < reordered s ↔ L' ≠ filter (λ a, a ∈ L') L0) as Hre.
  { rewrite Hfl. split.
    - intros Hpos HL'.
      pose proof (post_placed _ _ _ _ _ _ _ _ _ Hpost) as Hpl.
      rewrite HL' in Hpl.
      destruct (more_quiet _ _ _ _ _ _ _ Hmore Hpl) as [_ Hm].
      rewrite Hm in Hr. simpl in Hr. lia.
    - intros Hne. destruct (moved_of (trace s)) as [|m M] eqn:Hm;
        [| rewrite Hr; simpl; lia].
      exfalso. apply Hne.
      pose proof (post_order _ _ _ _ _ _ _ _ _ Hpost) as Ho.
      rewrite Hm in Ho.
      by rewrite !filter_all in Ho by (intros x _; apply not_elem_of_nil). }
  split_and!; [done | lia | done | done |].
  rewrite Hmod. split.
  - intros Hone HL'. subst L'.
    destruct (killed_of (trace s)) as [|k K] eqn:HK; [| simpl in Hlen; lia].
    destruct (Z.ltb_spec 0 (dups s + reordered s)) as [Hpos|]; [| done].
    simpl in Hd. assert (0 < reordered s) as Hpos' by lia.
    apply Hre in Hpos'. apply Hpos'. symmetry. by apply filter_all.
  - intros Hne. destruct (Z.ltb_spec 0 (dups s + reordered s)) as [|Hz];
      [done |].
    exfalso. apply Hne.
    assert (killed_of (trace s) = []) as HK.
    { destruct (killed_of (trace s)); [done | simpl in Hd; lia]. }
    assert (¬ 0 < reordered s) as Hnr by lia.
    rewrite Hre in Hnr. apply dec_stable in Hnr. rewrite Hnr, Hfl, HK.
    by rewrite filter_all by (intros x _; apply not_elem_of_nil).
Qed.

Context `{Hq : !QsortSpec}.

(** The keyblock a run leaves on a well-formed keyblock, with or without
    the array of the first block. *)
Lemma key_check_left (fuel : nat) (alloc_ok : bool)
    (h : gmap nat kbnode_struct) (pk_node : nat) (nd0 : kbnode_struct)
    (pk : PKT_public_key) (sel self : bool) (L0 : list nat) (rv : Z)
    (s : check_state) :
  keyblock h h (Some pk_node) L0 → h !! pk_node = Some nd0 →
  pkt nd0 = PktPublicKey pk → (2 * length L0 < fuel)%nat →
  key_check_all_keysigs fuel alloc_ok h (Some pk_node) sel self = Ok (rv, s) →
  ∃ L', keyblock h (st_heap s) (st_kb s) L'
    ∧ L0 ≡ₚ killed_of (trace s) ++ L'
    ∧ (∀ a, a ∈ killed_of (trace s) →
         (a ∉ L') ∧ st_heap s !! a = None
         ∧ ∃ sa b sb, sig_of h a = Some sa ∧ b ∈ L' ∧ sig_of h b = Some sb
                      ∧ sig_comparison sa sb = 0)
    ∧ dups s = Z.of_nat (length L0) - Z.of_nat (length L')
    ∧ reordered s = Z.of_nat (length (moved_of (trace s)))
    ∧ (0 < reordered s ↔ L' ≠ filter (λ a, a ∈ L') L0)
    ∧ (rv = 1 ↔ L' ≠ L0)
    ∧ (alloc_ok = true →
       check_post h pk pk_node sel self h L0 s L'
       ∧ check_more h pk sel self L0 s L').
Proof.
  intros Hkb Hnd0 Hpk Hfuel Hrun.
  pose proof (keyblock_NoDup _ _ _ _ Hkb) as Hnd.
  destruct alloc_ok.
  - pose proof (key_check_sound h pk fuel true (Some pk_node) sel self rv s
                  pk_node nd0 Hrun eq_refl Hnd0 Hpk) as (_ & Hfreed & _).
    pose proof (key_check_strong h fuel h pk_node nd0 pk sel self L0 Hkb Hnd0
                  Hpk Hfuel) as Hstrong.
    rewrite Hrun in Hstrong. destruct Hstrong as (-> & L' & Hpost & Hmore).
    exists L'.
    pose proof (post_perm _ _ _ _ _ _ _ _ _ Hpost) as Hperm.
    destruct (post_left _ _ _ _ _ _ _ _ _ Hnd Hpost Hmore)
      as (_ & Hd & Hr & Hre & Hmod).
    split_and!; try done.
    + apply (post_keyblock _ _ _ _ _ _ _ _ _ Hpost).
    + intros a Ha. split_and!.
      * rewrite Hperm in Hnd. apply NoDup_app in Hnd as (_ & Hdisj & _).
        by apply Hdisj.
      * destruct (st_heap s !! a) as [nd|] eqn:E; [| done].
        assert (is_Some (st_heap s !! a)) as Hs by (by rewrite E).
        apply Hfreed in Hs as [_ Hs]. done.
      * by apply (post_killed _ _ _ _ _ _ _ _ _ Hpost).
  - rewrite (key_check_alloc_failed h h pk_node nd0 pk sel self L0 fuel Hkb
               Hnd0 Hpk ltac:(lia)) in Hrun.
    assert (rv = 0 ∧ st_heap s = h ∧ st_kb s = Some pk_node
            ∧ killed_of (trace s) = [] ∧ moved_of (trace s) = []
            ∧ dups s = 0 ∧ reordered s = 0)
      as (-> & Hh & Hk & HK & HM & Hd & Hr).
    { by destruct (decide (live_sigs h L0 = [])); injection Hrun as <- <-. }
    exists L0. rewrite Hh, Hk, HK, HM, Hd, Hr.
    assert (filter (λ a, a ∈ L0) L0 = L0) as Hfl by (by apply filter_all).
    split_and!; try done.
    + intros a Ha. by apply elem_of_nil in Ha.
    + lia.
Qed.
End Left.

(** * The claims of the specification *)

(** ** The value returned *)

(** C1: whenever [key_check_all_keysigs] returns, it returns 1 if and only if
    a duplicate was removed or a signature was reordered, and it returns 0
    otherwise; the counters of missing issuers and of bad signatures do not
    enter the value returned.  On a well-formed keyblock this is a
    statement on the keyblock the run leaves: [dups] is the number of nodes
    that have left the list, [reordered] is positive exactly when the
    nodes left do not stand in the order they had, and the value returned
    is 1 exactly when the list of nodes differs from the one the run
    started from. *)
Theorem C1_return_value `{Collaborators} (fuel : nat) (alloc_ok : bool)
    (h : heap_t) (kb : KBNODE) (only_selected only_selfsigs : bool)
    (rv : Z) (s : check_state) :
  key_check_all_keysigs fuel alloc_ok h kb only_selected only_selfsigs
  = Ok (rv, s) →
  (rv = 1 ↔ 0 < dups s ∨ 0 < reordered s)
  ∧ (dups s = 0 → reordered s = 0 → rv = 0)
  ∧ (rv = 0 ∨ rv = 1)
  ∧ (QsortSpec → ∀ L0 : list addr,
       keyblock h h kb L0 → (2 * length L0 < fuel)%nat →
       ∃ L', keyblock h (st_heap s) (st_kb s) L'
         ∧ dups s = Z.of_nat (length L0) - Z.of_nat (length L')
         ∧ (∀ a, a ∈ L0 → a ∉ L' → st_heap s !! a = None)
         ∧ (0 < reordered s ↔ L' ≠ filter (λ a, a ∈ L') L0)
         ∧ (rv = 1 ↔ L' ≠ L0)).
Proof.
  intros Hrun.
  assert (Hgen : (rv = 1 ↔ 0 < dups s ∨ 0 < reordered s)
                 ∧ (dups s = 0 → reordered s = 0 → rv = 0)
                 ∧ (rv = 0 ∨ rv = 1)).
  { apply key_check_accounted in Hrun as [Ha ->].
    destruct Ha as (Hd & _ & Hr & _ & Hmod).
    pose proof (count_events_nonneg is_EvDuplicate (trace s)).
    pose proof (count_events_nonneg is_EvOutOfOrder (trace s)).
    rewrite Hmod. destruct (Z.ltb_spec 0 (dups s + reordered s)).
    - split_and!; [split; [lia | done] | lia | by right].
    - split_and!; [split; [done | lia] | done | by left]. }
  destruct Hgen as (Hiff & Hzero & Hbool). split_and!; try done.
  intros Hq L0 Hkb Hfuel.
  pose proof Hrun as Hinv.
  apply key_check_inv in Hinv as (pk_node & nd0 & pk & -> & Hnd0 & Hpk & _).
  destruct (key_check_left fuel alloc_ok h pk_node nd0 pk only_selected
              only_selfsigs L0 rv s Hkb Hnd0 Hpk Hfuel Hrun)
    as (L' & HkL' & Hperm & Hkilled & Hd & _ & Hre & Hrv & _).
  exists L'. split_and!; try done.
  intros a Ha Ha'. rewrite Hperm in Ha.
  apply elem_of_app in Ha as [Ha|Ha]; [| done].
  by destruct (Hkilled a Ha) as (_ & Hfree & _).
Qed.

(** A keyblock with a bad signature and nothing to repair: the counter of
    bad signatures is 1, the value returned is 0 and the list of nodes is
    the one the run started from.  A keyblock with a duplicate and a
    signature out of place: the value returned is 1, the list is one node
    shorter and the nodes left stand in another order. *)
Lemma C1_return_value_witness :
  match @key_check_all_keysigs Sample.sample 50 true Sample.kb_bad
          (Some 0%nat) false false with
  | Ok (rv, s) =>
      bad_signature s = 1
      ∧ rv = 0
      ∧ (rv = 1 ↔ 0 < dups s ∨ 0 < reordered s)
      ∧ (dups s = 0 → reordered s = 0 → rv = 0)
      ∧ (rv = 0 ∨ rv = 1)
      ∧ ∃ L', keyblock Sample.kb_bad (st_heap s) (st_kb s) L'
              ∧ L' = [0; 1; 2; 3]%nat
  | _ => False
  end
  ∧ match @key_check_all_keysigs Sample.sample 50 true More.kb_dup_misplaced
            (Some 0%nat) false false with
    | Ok (rv, s) =>
        rv = 1 ∧ dups s = 1 ∧ reordered s = 1
        ∧ ∃ L', keyblock More.kb_dup_misplaced (st_heap s) (st_kb s) L'
                ∧ length L' = 5%nat
                ∧ L' ≠ filter (λ a, a ∈ L') [0; 1; 2; 3; 4; 5]%nat
                ∧ ∀ a, a ∈ [0; 1; 2; 3; 4; 5]%nat → a ∉ L' →
                       st_heap s !! a = None
    | _ => False
    end.
Proof.
  split.
  - destruct (@key_check_all_keysigs Sample.sample 50 true Sample.kb_bad
                (Some 0%nat) false false) as [[rv s]| | |] eqn:Hrun;
      try (vm_compute in Hrun; discriminate).
    pose proof (C1_return_value (H := Sample.sample) _ _ _ _ _ _ _ _ Hrun)
      as (Hiff & Hzero & Hbool & Hleft).
    destruct (Hleft sample_qsort [0; 1; 2; 3]%nat)
      as (L' & HkL' & _ & _ & _ & Hrv).
    { apply (reach_keyblock 50); [by vm_compute | compute_done]. }
    { simpl. lia. }
    vm_compute in Hrun. injection Hrun as <- <-.
    split; [reflexivity |]. split; [reflexivity |].
    split; [exact Hiff |]. split; [exact Hzero |]. split; [exact Hbool |].
    exists L'. split; [exact HkL' |].
    destruct (decide (L' = [0; 1; 2; 3]%nat)) as [E|E]; [exact E |].
    apply Hrv in E. discriminate E.
  - destruct (@key_check_all_keysigs Sample.sample 50 true
                More.kb_dup_misplaced (Some 0%nat) false false)
      as [[rv s]| | |] eqn:Hrun; try (vm_compute in Hrun; discriminate).
    pose proof (C1_return_value (H := Sample.sample) _ _ _ _ _ _ _ _ Hrun)
      as (_ & _ & _ & Hleft).
    destruct (Hleft sample_qsort [0; 1; 2; 3; 4; 5]%nat)
      as (L' & HkL' & Hd & Hfree & Hre & _).
    { apply (reach_keyblock 50); [by vm_compute | compute_done]. }
    { simpl. lia. }
    vm_compute in Hrun. injection Hrun as <- <-.
    split; [reflexivity |]. split; [reflexivity |]. split; [reflexivity |].
    exists L'. split; [exact HkL' |].
    split; [simpl in Hd; lia |].
    split; [apply Hre; reflexivity | exact Hfree].
Defined.

(** ** The comparator *)

(** The loop over the MPIs reads the [data] of the two signatures only. *)
Lemma sig_comparison_loop_data (a a' b b' : PKT_signature) (i todo : nat) :
  data a = data a' → data b = data b' →
  sig_comparison_loop a b i todo = sig_comparison_loop a' b' i todo.
Proof.
  intros Ha Hb. revert i. induction todo as [|todo IH]; intros i; [done |].
  simpl. rewrite Ha, Hb. by rewrite IH.
Qed.

(** C2: [sig_comparison] returns 0 exactly when the digest algorithms are
    equal, [pubkey_get_nsig] gives the same count for both public-key
    algorithms, and the MPIs below that count are pairwise equal under
    [gcry_mpi_cmp]; replacing the key id, the class, the time stamp and the
    flags of either signature leaves the result as it is. *)
Theorem C2_comparator_equality `{Collaborators} (a b : PKT_signature) :
  (sig_comparison a b = 0 ↔
     digest_algo a = digest_algo b
     ∧ pubkey_get_nsig (pubkey_algo a) = pubkey_get_nsig (pubkey_algo b)
     ∧ ∀ i, (i < Z.to_nat (pubkey_get_nsig (pubkey_algo a)))%nat →
            gcry_mpi_cmp (nth i (data a) 0%N) (nth i (data b) 0%N) = 0)
  ∧ (∀ (k : keyid_t) (c t : Z) (ck v : bool),
       sig_comparison
         (mkSignature k (pubkey_algo a) (digest_algo a) c t (data a) ck v) b
       = sig_comparison a b)
  ∧ (∀ (k : keyid_t) (c t : Z) (ck v : bool),
       sig_comparison a
         (mkSignature k (pubkey_algo b) (digest_algo b) c t (data b) ck v)
       = sig_comparison a b).
Proof.
  split_and!; [apply sig_comparison_zero_spec | |];
    intros k c t ck v; unfold sig_comparison; simpl;
    by rewrite (sig_comparison_loop_data _ a _ b).
Qed.

(** ** The self-signature audit *)

(** C5: the loop that looks for components without a self-signature counts
    a component when it reaches the next component or an unhandled packet,
    and not at the end of the keyblock; and it is not reached when the
    keyblock holds no signature.  So on a well-formed keyblock a run that
    returns sets [missing_selfsig] to zero when there is no signature, and
    otherwise to the count the specification describes less one if the
    keyblock ends inside a component that has no self-signature; a keyblock
    whose last node is a component always ends so. *)
Theorem C5_audit_skips_last_component `{Collaborators} `{Hq : !QsortSpec}
    (fuel : nat) (h : heap_t) (pk_node : addr) (nd0 : kbnode_struct)
    (pk : PKT_public_key) (only_selected only_selfsigs : bool)
    (L0 : list addr) :
  keyblock h h (Some pk_node) L0 → h !! pk_node = Some nd0 →
  pkt nd0 = PktPublicKey pk → (2 * length L0 < fuel)%nat →
  match key_check_all_keysigs fuel true h (Some pk_node) only_selected
          only_selfsigs with
  | Ok (rv, s) =>
      ∃ L',
        keyblock h (st_heap s) (st_kb s) L'
        ∧ missing_selfsig s
          = (if decide (live_sigs h L0 = []) then 0
             else spec_missing_selfsig h pk L' - unterminated h pk L')
        ∧ (∀ c, last L' = Some c → live_component h c = true →
                unterminated h pk L' = 1)
  | AssertFail => True
  | Fault | OutOfFuel => False
  end.
Proof.
  intros Hkb Hnd0 Hpk Hfuel.
  pose proof (key_check_spec h fuel h pk_node nd0 pk only_selected
                only_selfsigs L0 Hkb Hnd0 Hpk Hfuel) as Hspec.
  destruct (key_check_all_keysigs fuel true h (Some pk_node) only_selected
              only_selfsigs) as [[rv s]| | |]; try done.
  destruct Hspec as (_ & L' & Hpost). exists L'. split_and!.
  - apply (post_keyblock _ _ _ _ _ _ _ _ _ Hpost).
  - destruct (decide (live_sigs h L0 = [])) as [He|Hne].
    + apply (post_no_sigs _ _ _ _ _ _ _ _ _ Hpost He).
    + rewrite (post_selfsig _ _ _ _ _ _ _ _ _ Hpost Hne). apply audit_spec.
  - intros c. apply unterminated_last.
Qed.

(** A primary key with a direct-key signature, followed by a user id
    without any signature: the count the specification describes is one,
    the function leaves [missing_selfsig] at zero. *)
Lemma C5_audit_skips_last_component_witness :
  spec_missing_selfsig Sample.kb_trailing (mkPublicKey (1, 1) 100 1)
    [0; 1; 2]%nat = 1
  ∧ pkt <$> Sample.kb_trailing !! 2%nat = Some Sample.UID
  ∧ match @key_check_all_keysigs Sample.sample 50 true Sample.kb_trailing
            (Some 0%nat) false false with
    | Ok (rv, s) =>
        rv = 0 ∧ missing_selfsig s = 0
        ∧ ∃ L',
          keyblock Sample.kb_trailing (st_heap s) (st_kb s) L'
          ∧ missing_selfsig s
            = (if decide (live_sigs Sample.kb_trailing [0; 1; 2]%nat = [])
               then 0
               else spec_missing_selfsig Sample.kb_trailing
                      (mkPublicKey (1, 1) 100 1) L'
                    - unterminated Sample.kb_trailing
                        (mkPublicKey (1, 1) 100 1) L')
          ∧ (∀ c, last L' = Some c →
                  live_component Sample.kb_trailing c = true →
                  unterminated Sample.kb_trailing
                    (mkPublicKey (1, 1) 100 1) L' = 1)
    | _ => False
    end.
Proof.
  assert (Hkb : keyblock Sample.kb_trailing Sample.kb_trailing (Some 0%nat)
                  [0; 1; 2]%nat).
  { apply (reach_keyblock 50); [by vm_compute | compute_done]. }
  pose proof (C5_audit_skips_last_component (H := Sample.sample)
                (Hq := sample_qsort) 50 Sample.kb_trailing 0%nat
                (mkNode (Some 1%nat) Sample.PK 0 0 0%nat) (mkPublicKey (1, 1) 100 1)
                false false [0; 1; 2]%nat Hkb eq_refl eq_refl
                ltac:(simpl; lia)) as Hspec.
  split; [by vm_compute |]. split; [by vm_compute |].
  destruct (@key_check_all_keysigs Sample.sample 50 true Sample.kb_trailing
              (Some 0%nat) false false)
    as [[rv s]| | |] eqn:Hrun; try (vm_compute in Hrun; discriminate).
  split; [| split; [| exact Hspec]];
    vm_compute in Hrun; injection Hrun as <- <-; reflexivity.
Defined.

(** ** A failed allocation *)

(** C7, as the specification states it, fails: on the same keyblock the run
    whose allocation fails and the run that checks the keyblock and leaves
    it as it was both return 0. *)
Lemma C7_alloc_failure_not_distinct :
  ¬ @alloc_failure_distinct Sample.sample 50 Sample.kb_clean Sample.kb_clean
      (Some 0%nat) false false.
Proof.
  unfold alloc_failure_distinct. intros Hc.
  remember (@key_check_all_keysigs Sample.sample 50 false Sample.kb_clean
              (Some 0%nat) false false) as r1 eqn:H1.
  remember (@key_check_all_keysigs Sample.sample 50 true Sample.kb_clean
              (Some 0%nat) false false) as r2 eqn:H2.
  vm_compute in H1. vm_compute in H2. subst r1 r2.
  by apply (Hc _ _ _ _ eq_refl eq_refl eq_refl).
Qed.

(** C7, amended: when the allocation fails on a keyblock that holds a
    signature, the function logs the error and returns 0 at once: the
    keyblock is left as it was, no counter is touched and the error log is
    the only trace of the failure; the value returned is the one every run
    without a repair returns. *)
Theorem C7_alloc_failure `{Collaborators} (fuel : nat) (h : heap_t)
    (pk_node : addr) (nd0 : kbnode_struct) (pk : PKT_public_key)
    (only_selected only_selfsigs : bool) (L0 : list addr) :
  keyblock h h (Some pk_node) L0 → h !! pk_node = Some nd0 →
  pkt nd0 = PktPublicKey pk → (length L0 < fuel)%nat →
  live_sigs h L0 ≠ [] →
  ∃ s, key_check_all_keysigs fuel false h (Some pk_node) only_selected
         only_selfsigs = Ok (0, s)
       ∧ trace s = [EvAllocError]
       ∧ st_heap s = h ∧ st_kb s = Some pk_node
       ∧ dups s = 0 ∧ missing_issuer s = 0 ∧ reordered s = 0
       ∧ bad_signature s = 0 ∧ missing_selfsig s = 0 ∧ modified s = 0.
Proof.
  intros Hkb Hnd0 Hpk Hfuel Hsigs.
  rewrite (key_check_alloc_failed h h pk_node nd0 pk _ _ L0) by done.
  destruct (decide (live_sigs h L0 = [])); [done |].
  eexists. split; [done |]. by split_and!.
Qed.

(** The keyblock with a signature out of place: nothing is moved. *)
Lemma C7_alloc_failure_witness :
  ∃ s, @key_check_all_keysigs Sample.sample 50 false Sample.kb_misplaced
         (Some 0%nat) false false = Ok (0, s)
       ∧ trace s = [EvAllocError]
       ∧ st_heap s = Sample.kb_misplaced ∧ st_kb s = Some 0%nat
       ∧ dups s = 0 ∧ missing_issuer s = 0 ∧ reordered s = 0
       ∧ bad_signature s = 0 ∧ missing_selfsig s = 0 ∧ modified s = 0.
Proof.
  apply (C7_alloc_failure (H := Sample.sample) 50 Sample.kb_misplaced 0%nat
           (mkNode (Some 1%nat) Sample.PK 0 0 0%nat) (mkPublicKey (1, 1) 100 1)
           false false [0; 1; 2; 3; 4]%nat).
  - apply (reach_keyblock 50); [by vm_compute | compute_done].
  - by vm_compute.
  - by vm_compute.
  - simpl. lia.
  - by vm_compute.
Defined.

(** ** Self-signatures only *)

(** C6: in self-signatures-only mode a signature whose issuer is not the
    primary key leaves the state of the second loop as it is; in a run that
    returns, every signature relocated or counted as bad was issued by the
    primary key, no missing issuer is counted, and the duplicates removed
    are those removed without the mode.  The removal of duplicates covers
    every signature: on a well-formed keyblock no two signatures of the
    keyblock the run leaves compare equal, whoever issued them, every node
    that has left the list held a signature equal to one that stays, and
    [dups] is the number of nodes that have left. *)
Theorem C6_selfsigs_only `{Collaborators} (fuel : nat) (alloc_ok : bool)
    (h : heap_t) (kb : KBNODE) (only_selected : bool) (rv : Z)
    (s : check_state) :
  key_check_all_keysigs fuel alloc_ok h kb only_selected true = Ok (rv, s) →
  (∀ walk pk st n_prevp cc n sig,
     keyid_cmp (pk_keyid pk) (keyid sig) ≠ 0 →
     check_signature_node walk pk true st n_prevp cc n sig = Ok st)
  ∧ (∃ pk_node nd pk,
       kb = Some pk_node ∧ h !! pk_node = Some nd ∧ pkt nd = PktPublicKey pk
       ∧ Forall (selfsig_event pk) (trace s))
  ∧ missing_issuer s = 0
  ∧ (∀ rv' s',
       key_check_all_keysigs fuel alloc_ok h kb only_selected false
       = Ok (rv', s') →
       dups s' = dups s ∧ killed_of (trace s') = killed_of (trace s))
  ∧ (QsortSpec → alloc_ok = true → ∀ L0 : list addr,
       keyblock h h kb L0 → (2 * length L0 < fuel)%nat →
       ∃ L', keyblock h (st_heap s) (st_kb s) L'
         ∧ no_duplicates h L'
         ∧ L0 ≡ₚ killed_of (trace s) ++ L'
         ∧ (∀ a, a ∈ killed_of (trace s) →
              (a ∉ L') ∧ st_heap s !! a = None
              ∧ ∃ sa b sb, sig_of h a = Some sa ∧ b ∈ L'
                           ∧ sig_of h b = Some sb
                           ∧ sig_comparison sa sb = 0)
         ∧ dups s = Z.of_nat (length L0) - Z.of_nat (length L')).
Proof.
  intros Hrun.
  assert (Hev : ∃ pk_node nd pk,
             kb = Some pk_node ∧ h !! pk_node = Some nd
             ∧ pkt nd = PktPublicKey pk ∧ Forall (selfsig_event pk) (trace s)).
  { apply key_check_inv in Hrun as (pk_node & nd & pk & -> & Hnd & Hpk & Hsh).
    exists pk_node, nd, pk. split_and!; try done.
    destruct Hsh as [_ _ ->|nsigs _ _ _ _ ->
                    |nsigs sigs s1 s2 missing a _ _ _ _ Hs1 Hs2 _ ->].
    - constructor.
    - simpl. by apply Forall_singleton.
    - simpl. eapply selfsig_events_placement;
        [| by eapply placement_loop_effect].
      eapply selfsig_events_dedup; [| by eapply remove_duplicates_effect].
      constructor. }
  split_and!.
  - intros walk pk st n_prevp cc n sig Hid. unfold check_signature_node.
    destruct cc; [| done]. by apply Z.eqb_neq in Hid as ->.
  - done.
  - destruct Hev as (_ & _ & pk & _ & _ & _ & Hall).
    apply key_check_accounted in Hrun as [(_ & -> & _) _].
    unfold count_events. induction Hall as [|e tr He _ IH]; [done |].
    rewrite filter_cons.
    destruct (decide (is_EvMissingIssuer e = true)) as [Hm|_]; [| done].
    by destruct e.
  - intros rv' s' Hrun'.
    apply key_check_inv in Hrun as (pk_node & nd & pk & -> & Hnd & Hpk & Hsh).
    apply key_check_inv in Hrun'
      as (pk_node' & nd' & pk' & [= <-] & Hnd' & Hpk' & Hsh').
    destruct Hsh as [Hc _ ->|nsigs Hc Hn Ha _ ->
                    |nsigs sigs s1 s2 missing a Hc Hn Ha Hsigs Hs1 Hs2 _ ->];
      destruct Hsh' as [Hc' _ ->|nsigs' Hc' Hn' Ha' _ ->
             |nsigs' sigs' s1' s2' missing' a' Hc' Hn' Ha' Hsigs' Hs1' Hs2' _ ->];
      try done; try congruence.
    simpl.
    apply placement_loop_effect, placement_keeps_dups in Hs2 as [-> ->].
    apply placement_loop_effect, placement_keeps_dups in Hs2' as [-> ->].
    assert (sigs' = sigs) as -> by congruence.
    assert (s1' = s1) as -> by congruence. done.
  - intros Hq -> L0 Hkb Hfuel.
    destruct Hev as (pk_node & nd0 & pk & -> & Hnd0 & Hpk & _).
    destruct (key_check_left fuel true h pk_node nd0 pk only_selected true L0
                rv s Hkb Hnd0 Hpk Hfuel Hrun)
      as (L' & HkL' & Hperm & Hkilled & Hd & _ & _ & _ & Hpost).
    destruct (Hpost eq_refl) as [Hpost' _].
    exists L'. split_and!; try done.
    apply (post_no_duplicates _ _ _ _ _ _ _ _ _ Hpost').
Qed.

(** A keyblock where a foreign key has certified the user id twice and
    the subkey before the subkey itself: with the mode on, one of the two
    equal certifications is removed, nothing is relocated or counted, and
    the keyblock left holds no two equal signatures. *)
Lemma C6_selfsigs_only_witness :
  match @key_check_all_keysigs Sample.sample 50 true More.kb_foreign_dup
          (Some 0%nat) false true with
  | Ok (rv, s) =>
      rv = 1 ∧ dups s = 1 ∧ reordered s = 0 ∧ bad_signature s = 0
      ∧ (∃ pk_node nd pk,
           Some 0%nat = Some pk_node
           ∧ More.kb_foreign_dup !! pk_node = Some nd
           ∧ pkt nd = PktPublicKey pk ∧ Forall (selfsig_event pk) (trace s))
      ∧ missing_issuer s = 0
      ∧ ∃ L', keyblock More.kb_foreign_dup (st_heap s) (st_kb s) L'
              ∧ @no_duplicates Sample.sample More.kb_foreign_dup L'
              ∧ [0; 1; 2; 3; 4; 5; 6; 7]%nat ≡ₚ killed_of (trace s) ++ L'
              ∧ length L' = 7%nat
  | _ => False
  end.
Proof.
  destruct (@key_check_all_keysigs Sample.sample 50 true More.kb_foreign_dup
              (Some 0%nat) false true) as [[rv s]| | |] eqn:Hrun;
    try (vm_compute in Hrun; discriminate).
  pose proof (C6_selfsigs_only (H := Sample.sample) _ _ _ _ _ _ _ Hrun)
    as (_ & Hev & Hmiss & _ & Hleft).
  destruct (Hleft sample_qsort eq_refl [0; 1; 2; 3; 4; 5; 6; 7]%nat)
    as (L' & HkL' & Hnodup & Hperm & _ & Hd).
  { apply (reach_keyblock 50); [by vm_compute | compute_done]. }
  { simpl. lia. }
  vm_compute in Hrun. injection Hrun as <- <-.
  split; [reflexivity |]. split; [reflexivity |]. split; [reflexivity |].
  split; [reflexivity |]. split; [exact Hev |]. split; [exact Hmiss |].
  exists L'. split; [exact HkL' |]. split; [exact Hnodup |].
  split; [exact Hperm |]. simpl in Hd. lia.
Defined.

(** ** Conservation *)

(** C3: on a well-formed keyblock, whatever the outcome of the allocation, a
    run that returns leaves a well-formed keyblock whose nodes carry the
    packets and flags they had before; the nodes of the start are the nodes
    left together with the nodes removed, and so are the signature records;
    every node removed carries a signature equal under [sig_comparison] to
    one that is left; a signature counted as bad is left, and was not
    moved; the nodes that were not moved keep their order.  The run neither
    faults nor runs out of fuel. *)
Theorem C3_conservation `{Collaborators} `{Hq : !QsortSpec} (fuel : nat)
    (alloc_ok : bool) (h : heap_t) (pk_node : addr) (nd0 : kbnode_struct)
    (pk : PKT_public_key) (only_selected only_selfsigs : bool)
    (L0 : list addr) :
  keyblock h h (Some pk_node) L0 → h !! pk_node = Some nd0 →
  pkt nd0 = PktPublicKey pk → (2 * length L0 < fuel)%nat →
  match key_check_all_keysigs fuel alloc_ok h (Some pk_node) only_selected
          only_selfsigs with
  | Ok (rv, s) =>
      ∃ L',
        keyblock h (st_heap s) (st_kb s) L'
        ∧ L0 ≡ₚ killed_of (trace s) ++ L'
        ∧ live_sigs h L0
          ≡ₚ live_sigs h (killed_of (trace s)) ++ live_sigs h L'
        ∧ (∀ a, a ∈ killed_of (trace s) →
             ∃ sa b sb, sig_of h a = Some sa ∧ b ∈ L' ∧ sig_of h b = Some sb
                        ∧ sig_comparison sa sb = 0)
        ∧ (∀ n, n ∈ bad_of (trace s) → n ∈ L' ∧ n ∉ moved_of (trace s))
        ∧ bad_signature s = Z.of_nat (length (bad_of (trace s)))
        ∧ filter (λ a, a ∉ moved_of (trace s)) L'
          = filter (λ a, a ∉ moved_of (trace s))
              (filter (λ a, a ∉ killed_of (trace s)) L0)
  | AssertFail => True
  | Fault | OutOfFuel => False
  end.
Proof.
  intros Hkb Hnd0 Hpk Hfuel. destruct alloc_ok.
  - pose proof (key_check_spec h fuel h pk_node nd0 pk only_selected
                  only_selfsigs L0 Hkb Hnd0 Hpk Hfuel) as Hspec.
    destruct (key_check_all_keysigs fuel true h (Some pk_node) only_selected
                only_selfsigs) as [[rv s]| | |]; try done.
    destruct Hspec as (_ & L' & Hpost). exists L'.
    pose proof (post_perm _ _ _ _ _ _ _ _ _ Hpost) as Hperm.
    split_and!.
    + apply (post_keyblock _ _ _ _ _ _ _ _ _ Hpost).
    + done.
    + rewrite <- live_sigs_app. by apply live_sigs_perm.
    + apply (post_killed _ _ _ _ _ _ _ _ _ Hpost).
    + apply (post_bad_fixed _ _ _ _ _ _ _ _ _ Hpost).
    + destruct (post_accounted _ _ _ _ _ _ _ _ _ Hpost) as (_ & _ & _ & -> & _).
      apply count_events_bad.
    + apply (post_order _ _ _ _ _ _ _ _ _ Hpost).
  - rewrite (key_check_alloc_failed h h pk_node nd0 pk _ _ L0)
      by (done || lia).
    destruct (decide (live_sigs h L0 = [])); exists L0; simpl;
      split_and!; try done; try (intros a Ha; by apply elem_of_nil in Ha);
      symmetry; apply filter_all; intros a _; apply not_elem_of_nil.
Qed.

(** Two signatures that compare equal: the node of one of them is removed. *)
Lemma C3_conservation_witness :
  match @key_check_all_keysigs Sample.sample 50 true Sample.kb_unknown_algos
          (Some 0%nat) false false with
  | Ok (rv, s) =>
      killed_of (trace s) = [4%nat]
      ∧ ∃ L',
        keyblock Sample.kb_unknown_algos (st_heap s) (st_kb s) L'
        ∧ [0; 1; 2; 3; 4]%nat ≡ₚ killed_of (trace s) ++ L'
        ∧ live_sigs Sample.kb_unknown_algos [0; 1; 2; 3; 4]%nat
          ≡ₚ live_sigs Sample.kb_unknown_algos (killed_of (trace s))
             ++ live_sigs Sample.kb_unknown_algos L'
        ∧ (∀ a, a ∈ killed_of (trace s) →
             ∃ sa b sb,
               sig_of Sample.kb_unknown_algos a = Some sa ∧ b ∈ L'
               ∧ sig_of Sample.kb_unknown_algos b = Some sb
               ∧ @sig_comparison Sample.sample sa sb = 0)
        ∧ (∀ n, n ∈ bad_of (trace s) → n ∈ L' ∧ n ∉ moved_of (trace s))
        ∧ bad_signature s = Z.of_nat (length (bad_of (trace s)))
        ∧ filter (λ a, a ∉ moved_of (trace s)) L'
          = filter (λ a, a ∉ moved_of (trace s))
              (filter (λ a, a ∉ killed_of (trace s)) [0; 1; 2; 3; 4]%nat)
  | _ => False
  end.
Proof.
  assert (Hkb : keyblock Sample.kb_unknown_algos Sample.kb_unknown_algos
                  (Some 0%nat) [0; 1; 2; 3; 4]%nat).
  { apply (reach_keyblock 50); [by vm_compute | compute_done]. }
  pose proof (C3_conservation (H := Sample.sample) (Hq := sample_qsort) 50
                true Sample.kb_unknown_algos 0%nat
                (mkNode (Some 1%nat) Sample.PK 0 0 0%nat) (mkPublicKey (1, 1) 100 1)
                false false [0; 1; 2; 3; 4]%nat Hkb eq_refl eq_refl
                ltac:(simpl; lia)) as Hspec.
  destruct (@key_check_all_keysigs Sample.sample 50 true
              Sample.kb_unknown_algos (Some 0%nat) false false)
    as [[rv s]| | |] eqn:Hrun; try (vm_compute in Hrun; discriminate).
  split; [| exact Hspec].
  vm_compute in Hrun. injection Hrun as <- <-. reflexivity.
Defined.

(** ** A second run *)

(** C4, as the specification states it, fails: a signature that verifies
    nowhere is counted as bad by the first run and again by the second. *)
Lemma C4_second_run_counts_bad_again :
  ¬ @second_run_all_zero Sample.sample 50 Sample.kb_bad (Some 0%nat)
      false false.
Proof.
  unfold second_run_all_zero. intros Hc.
  remember (@key_check_all_keysigs Sample.sample 50 true Sample.kb_bad
              (Some 0%nat) false false) as r1 eqn:H1.
  vm_compute in H1. subst r1.
  destruct (Hc _ _ eq_refl) as (rv2 & s2 & H2 & _ & _ & _ & Hbad & _).
  vm_compute in H2. injection H2 as <- <-. vm_compute in Hbad. discriminate.
Qed.

(** C4, amended: on a well-formed keyblock, and with the allocation turning
    out the same way in both runs, the run on what a first run left returns
    0, removes and reorders nothing and leaves the keyblock as it found it;
    its counters of bad signatures, of missing issuers and of missing
    self-signatures are those of the first run, which need not be zero. *)
Theorem C4_second_run `{Collaborators} `{Hq : !QsortSpec} (fuel : nat)
    (alloc_ok : bool) (h : heap_t) (pk_node : addr) (nd0 : kbnode_struct)
    (pk : PKT_public_key) (only_selected only_selfsigs : bool)
    (L0 : list addr) (rv1 : Z) (s1 : check_state) :
  keyblock h h (Some pk_node) L0 → h !! pk_node = Some nd0 →
  pkt nd0 = PktPublicKey pk → (2 * length L0 < fuel)%nat →
  key_check_all_keysigs fuel alloc_ok h (Some pk_node) only_selected
    only_selfsigs = Ok (rv1, s1) →
  ∃ rv2 s2,
    key_check_all_keysigs fuel alloc_ok (st_heap s1) (st_kb s1)
      only_selected only_selfsigs = Ok (rv2, s2)
    ∧ rv2 = 0 ∧ dups s2 = 0 ∧ reordered s2 = 0
    ∧ bad_signature s2 = bad_signature s1
    ∧ missing_issuer s2 = missing_issuer s1
    ∧ missing_selfsig s2 = missing_selfsig s1
    ∧ st_heap s2 = st_heap s1 ∧ st_kb s2 = st_kb s1.
Proof.
  intros Hkb Hnd0 Hpk Hfuel Hrun. destruct alloc_ok.
  - by eapply key_check_twice.
  - pose proof (key_check_alloc_failed h h pk_node nd0 pk only_selected
                  only_selfsigs L0 fuel Hkb Hnd0 Hpk ltac:(lia)) as Hfail.
    rewrite Hrun in Hfail. exists rv1, s1.
    destruct (decide (live_sigs h L0 = [])); injection Hfail as -> ->;
      (split; [exact Hrun | by split_and!]).
Qed.

(** The bad signature of the counterexample: both runs count it. *)
Lemma C4_second_run_witness :
  match @key_check_all_keysigs Sample.sample 50 true Sample.kb_bad
          (Some 0%nat) false false with
  | Ok (rv1, s1) =>
      bad_signature s1 = 1
      ∧ ∃ rv2 s2,
        @key_check_all_keysigs Sample.sample 50 true (st_heap s1) (st_kb s1)
          false false = Ok (rv2, s2)
        ∧ rv2 = 0 ∧ dups s2 = 0 ∧ reordered s2 = 0
        ∧ bad_signature s2 = bad_signature s1
        ∧ missing_issuer s2 = missing_issuer s1
        ∧ missing_selfsig s2 = missing_selfsig s1
        ∧ st_heap s2 = st_heap s1 ∧ st_kb s2 = st_kb s1
  | _ => False
  end.
Proof.
  assert (Hkb : keyblock Sample.kb_bad Sample.kb_bad (Some 0%nat)
                  [0; 1; 2; 3]%nat).
  { apply (reach_keyblock 50); [by vm_compute | compute_done]. }
  destruct (@key_check_all_keysigs Sample.sample 50 true Sample.kb_bad
              (Some 0%nat) false false)
    as [[rv1 s1]| | |] eqn:Hrun; try (vm_compute in Hrun; discriminate).
  pose proof (C4_second_run (H := Sample.sample) (Hq := sample_qsort) 50
                true Sample.kb_bad 0%nat (mkNode (Some 1%nat) Sample.PK 0 0 0%nat)
                (mkPublicKey (1, 1) 100 1) false false [0; 1; 2; 3]%nat
                rv1 s1 Hkb eq_refl eq_refl ltac:(simpl; lia) Hrun) as Hspec.
  split; [| exact Hspec].
  vm_compute in Hrun. injection Hrun as <- <-. reflexivity.
Defined.

(** ** The second loop *)

(** C8: started on a well-formed keyblock with more fuel than twice its
    length, the second loop returns or stops at an assertion; it never
    faults and never runs out of fuel.  When it returns, the keyblock is a
    rearrangement of the one it started from, no signature was relocated
    twice, every relocated signature is good or skipped where it now is,
    and no signature is left that would be relocated. *)
Theorem C8_placement_terminates `{Collaborators} (D : heap_t)
    (pk : PKT_public_key) (pk_node : addr)
    (only_selected only_selfsigs : bool) (L0 : list addr) (s0 : check_state)
    (fuel walk : nat) :
  keyblock D (st_heap s0) (st_kb s0) L0 →
  moved_of (trace s0) = [] → bad_of (trace s0) = [] →
  (length L0 < walk)%nat → (2 * length L0 < fuel)%nat →
  match placement_loop fuel walk pk pk_node only_selected only_selfsigs s0
          AddrOfKb None (st_kb s0) with
  | Ok s' =>
      ∃ L',
        keyblock D (st_heap s') (st_kb s') L'
        ∧ L' ≡ₚ L0
        ∧ NoDup (moved_of (trace s'))
        ∧ (∀ m, m ∈ moved_of (trace s') →
             verdict_at D pk only_selected only_selfsigs L' m = VGood
             ∨ verdict_at D pk only_selected only_selfsigs L' m = VSkip)
        ∧ all_placed D pk only_selected only_selfsigs L'
  | AssertFail =>
      ¬ (all_placed D pk only_selected only_selfsigs L0
         ∧ ∀ m, m ∈ L0 → primary_ok D pk_node m)
  | Fault | OutOfFuel => False
  end.
Proof.
  intros Hkb Hmoved Hbad Hwalk Hfuel.
  pose proof (placement_inv_init D pk pk_node only_selected only_selfsigs L0
                s0 Hkb Hmoved Hbad) as Hinit.
  pose proof (placement_loop_spec D pk pk_node only_selected only_selfsigs
                L0 s0 walk fuel s0 [] L0 Hinit Hwalk) as Hspec.
  rewrite <- (keyblock_head _ _ _ _ Hkb) in Hspec.
  change (prevp_of []) with AddrOfKb in Hspec.
  change (cc_of D only_selected None []) with (@None addr) in Hspec.
  assert (Hm : (placement_measure s0 L0 < fuel)%nat).
  { unfold placement_measure.
    pose proof (length_filter (λ a, a ∉ moved_of (trace s0)) L0). lia. }
  specialize (Hspec Hm).
  destruct (placement_loop fuel walk pk pk_node only_selected only_selfsigs
              s0 AddrOfKb None (st_kb s0)) as [s'| | |]; try done.
  destruct Hspec as (L' & Hinv). exists L'.
  pose proof (inv_keyblock _ _ _ _ _ _ _ _ _ _ Hinv) as Hkb'.
  pose proof (inv_perm _ _ _ _ _ _ _ _ _ _ Hinv) as Hperm.
  pose proof (inv_moved_ok _ _ _ _ _ _ _ _ _ _ Hinv) as Hok.
  pose proof (inv_settled _ _ _ _ _ _ _ _ _ _ Hinv) as Hset.
  rewrite app_nil_r in Hkb', Hperm, Hok, Hset. split_and!; try done.
  apply (inv_moved _ _ _ _ _ _ _ _ _ _ Hinv).
Qed.

(** The signature of the subkey stands before the subkey: it is moved
    behind it, once. *)
Lemma C8_placement_terminates_witness :
  match @placement_loop Sample.sample 50 50 (mkPublicKey (1, 1) 100 1)
          0%nat false false (initial_state Sample.kb_misplaced (Some 0%nat))
          AddrOfKb None (Some 0%nat) with
  | Ok s' =>
      moved_of (trace s') = [1%nat]
      ∧ ∃ L',
        keyblock Sample.kb_misplaced (st_heap s') (st_kb s') L'
        ∧ L' ≡ₚ [0; 1; 2; 3; 4]%nat
        ∧ NoDup (moved_of (trace s'))
        ∧ (∀ m, m ∈ moved_of (trace s') →
             @verdict_at Sample.sample Sample.kb_misplaced
               (mkPublicKey (1, 1) 100 1) false false L' m = VGood
             ∨ @verdict_at Sample.sample Sample.kb_misplaced
                 (mkPublicKey (1, 1) 100 1) false false L' m = VSkip)
        ∧ @all_placed Sample.sample Sample.kb_misplaced
            (mkPublicKey (1, 1) 100 1) false false L'
  | _ => False
  end.
Proof.
  assert (Hkb : keyblock Sample.kb_misplaced Sample.kb_misplaced (Some 0%nat)
                  [0; 1; 2; 3; 4]%nat).
  { apply (reach_keyblock 50); [by vm_compute | compute_done]. }
  pose proof (C8_placement_terminates (H := Sample.sample)
                Sample.kb_misplaced (mkPublicKey (1, 1) 100 1) 0%nat
                false false [0; 1; 2; 3; 4]%nat
                (initial_state Sample.kb_misplaced (Some 0%nat)) 50 50
                Hkb eq_refl eq_refl ltac:(simpl; lia) ltac:(simpl; lia))
    as Hspec.
  cbn [st_kb initial_state] in Hspec.
  destruct (@placement_loop Sample.sample 50 50 (mkPublicKey (1, 1) 100 1)
              0%nat false false
              (initial_state Sample.kb_misplaced (Some 0%nat))
              AddrOfKb None (Some 0%nat))
    as [s'| | |] eqn:Hrun; try (vm_compute in Hrun; discriminate).
  split; [| exact Hspec].
  vm_compute in Hrun. injection Hrun as <-. reflexivity.
Defined.

(** ** Signatures without MPIs to compare *)

(** C9: two signatures with the same digest algorithm whose public-key
    algorithms both have no MPIs according to [pubkey_get_nsig] compare
    equal, whatever else they hold; when both stand in a well-formed
    keyblock, a run that returns has removed the node of one of them,
    counted a duplicate and returns 1: that node is no longer in the
    keyblock the run leaves, which is shorter than the one it started
    from, and it has been released. *)
Theorem C9_zero_nsig_duplicates `{Collaborators} `{Hq : !QsortSpec}
    (fuel : nat) (h : heap_t) (pk_node : addr) (nd0 : kbnode_struct)
    (pk : PKT_public_key) (only_selected only_selfsigs : bool)
    (L0 : list addr) (a b : addr) (sa sb : PKT_signature) :
  keyblock h h (Some pk_node) L0 → h !! pk_node = Some nd0 →
  pkt nd0 = PktPublicKey pk → (2 * length L0 < fuel)%nat →
  a ∈ L0 → b ∈ L0 → a ≠ b →
  sig_of h a = Some sa → sig_of h b = Some sb →
  digest_algo sa = digest_algo sb →
  pubkey_get_nsig (pubkey_algo sa) = 0 →
  pubkey_get_nsig (pubkey_algo sb) = 0 →
  sig_comparison sa sb = 0
  ∧ match key_check_all_keysigs fuel true h (Some pk_node) only_selected
            only_selfsigs with
    | Ok (rv, s) =>
        rv = 1 ∧ 0 < dups s
        ∧ (a ∈ killed_of (trace s) ∨ b ∈ killed_of (trace s))
        ∧ ∃ L', keyblock h (st_heap s) (st_kb s) L'
                ∧ (length L' < length L0)%nat
                ∧ (((a ∉ L') ∧ st_heap s !! a = None)
                   ∨ ((b ∉ L') ∧ st_heap s !! b = None))
                ∧ (∀ x, x ∈ L' → x ∈ L0)
                ∧ no_duplicates h L'
    | AssertFail => True
    | Fault | OutOfFuel => False
    end.
Proof.
  intros Hkb Hnd0 Hpk Hfuel Ha Hb Hab Hsa Hsb Hdig Hna Hnb.
  assert (Hcmp : sig_comparison sa sb = 0).
  { apply sig_comparison_zero_spec. split_and!; [done | congruence |].
    rewrite Hna. simpl. lia. }
  split; [done |].
  pose proof (key_check_spec h fuel h pk_node nd0 pk only_selected
                only_selfsigs L0 Hkb Hnd0 Hpk Hfuel) as Hspec.
  destruct (key_check_all_keysigs fuel true h (Some pk_node) only_selected
              only_selfsigs) as [[rv s]| | |] eqn:Hrun; try done.
  clear Hspec.
  destruct (key_check_left fuel true h pk_node nd0 pk only_selected
              only_selfsigs L0 rv s Hkb Hnd0 Hpk Hfuel Hrun)
    as (L' & HkL' & Hperm & Hfreed & Hd & _ & _ & Hrv & Hpost).
  destruct (Hpost eq_refl) as [Hpost' _].
  pose proof (post_no_duplicates _ _ _ _ _ _ _ _ _ Hpost') as Hnodup.
  assert (Hkilled : a ∈ killed_of (trace s) ∨ b ∈ killed_of (trace s)).
  { rewrite Hperm in Ha, Hb.
    apply elem_of_app in Ha as [Ha|Ha]; [by left |].
    apply elem_of_app in Hb as [Hb|Hb]; [by right |].
    destruct Hab. by apply (Hnodup a b sa sb). }
  assert (length L0 = (length (killed_of (trace s)) + length L')%nat) as Hlen.
  { by rewrite Hperm, length_app. }
  assert (0 < length (killed_of (trace s)))%nat as Hpos.
  { destruct (killed_of (trace s)) as [|k K]; [| simpl; lia].
    destruct Hkilled as [Hk|Hk]; by apply elem_of_nil in Hk. }
  split_and!.
  - apply Hrv. intros ->. lia.
  - lia.
  - done.
  - exists L'. split_and!; try done.
    + lia.
    + destruct Hkilled as [Hk|Hk]; [left | right];
        by destruct (Hfreed _ Hk) as (? & ? & _).
    + intros x Hx. rewrite Hperm. apply elem_of_app. by right.
Qed.

(** Two signatures of unknown algorithms that differ in the issuer, the
    algorithm, the class and the MPI they carry: the run returns 1, and of
    the five nodes four are left. *)
Lemma C9_zero_nsig_duplicates_witness :
  @sig_comparison Sample.sample
    (mkSignature (1, 1) 50 8 0x13 300 [6%N] true true)
    (mkSignature (9, 1) 60 8 0x10 300 [7%N] true true) = 0
  ∧ match @key_check_all_keysigs Sample.sample 50 true
            Sample.kb_unknown_algos (Some 0%nat) false false with
    | Ok (rv, s) =>
        rv = 1 ∧ dups s = 1
        ∧ (3%nat ∈ killed_of (trace s) ∨ 4%nat ∈ killed_of (trace s))
        ∧ ∃ L', keyblock Sample.kb_unknown_algos (st_heap s) (st_kb s) L'
                ∧ (length L' < 5)%nat
                ∧ (((3%nat ∉ L') ∧ st_heap s !! 3%nat = None)
                   ∨ ((4%nat ∉ L') ∧ st_heap s !! 4%nat = None))
                ∧ (∀ x, x ∈ L' → x ∈ [0; 1; 2; 3; 4]%nat)
                ∧ @no_duplicates Sample.sample Sample.kb_unknown_algos L'
    | _ => False
    end.
Proof.
  pose proof (C9_zero_nsig_duplicates (H := Sample.sample) (Hq := sample_qsort)
           50 Sample.kb_unknown_algos 0%nat
           (mkNode (Some 1%nat) Sample.PK 0 0 0%nat) (mkPublicKey (1, 1) 100 1)
           false false [0; 1; 2; 3; 4]%nat 3%nat 4%nat
           (mkSignature (1, 1) 50 8 0x13 300 [6%N] true true)
           (mkSignature (9, 1) 60 8 0x10 300 [7%N] true true)) as Hthm.
  destruct Hthm as [Hcmp Hrun'].
  - apply (reach_keyblock 50); [by vm_compute | compute_done].
  - by vm_compute.
  - by vm_compute.
  - simpl. lia.
  - compute_done.
  - compute_done.
  - lia.
  - by vm_compute.
  - by vm_compute.
  - by vm_compute.
  - by vm_compute.
  - by vm_compute.
  - split; [exact Hcmp |].
    destruct (@key_check_all_keysigs Sample.sample 50 true
                Sample.kb_unknown_algos (Some 0%nat) false false)
      as [[rv s]| | |] eqn:Hrun; try (vm_compute in Hrun; discriminate).
    destruct Hrun' as (Hrv & _ & Hkilled & Hleft).
    vm_compute in Hrun. injection Hrun as <- <-.
    split; [exact Hrv |]. split; [reflexivity |]. split; [exact Hkilled |].
    exact Hleft.
Defined.

(** ** The search for the component a signature belongs to *)

(** C10: on a well-formed keyblock the search returns the current component
    if the signature verifies over it, and otherwise the first node that is
    not deleted, is not the current component and over whose packet the
    signature verifies; the kind of the packet plays no part, so a node of
    any kind that verifies makes the search succeed.  If the verification
    succeeds over components only, the node found is a component; with a
    verification that accepts a signature packet, the node found for the
    signature of the user id of a three-node keyblock is that signature
    itself, and the run stops at the assertion. *)
Theorem C10_search_tests_every_node `{Collaborators} (D h : heap_t)
    (kb : KBNODE) (L : list addr) (fuel : nat) (pk issuer : PKT_public_key)
    (sig : PKT_signature) (cc : addr) :
  keyblock D h kb L → cc ∈ L → (length L < fuel)%nat →
  find_target fuel h kb pk issuer sig cc
  = Ok (target_of D pk issuer sig cc L)
  ∧ (∀ t, t ∈ L → verifies D pk issuer sig t = true →
       ∃ t', target_of D pk issuer sig cc L = Some t')
  ∧ (∀ t, target_of D pk issuer sig cc L = Some t →
       t ∈ L ∧ verifies D pk issuer sig t = true)
  ∧ ((∀ p, check_signature_over_key_or_uid issuer sig pk p = 0 →
           is_component p = true) →
     ∀ t, target_of D pk issuer sig cc L = Some t →
          live_component D t = true)
  ∧ (@find_target Sample.lax 50 Sample.kb_sig_target (Some 0%nat)
       (mkPublicKey (1, 1) 100 1) (mkPublicKey (1, 1) 100 1)
       (mkSignature (1, 1) 1 8 0x13 300 [6%N] true true) 1%nat
     = Ok (Some 2%nat)
     ∧ live_component Sample.kb_sig_target 2%nat = false
     ∧ @key_check_all_keysigs Sample.lax 50 true Sample.kb_sig_target
         (Some 0%nat) false false = AssertFail).
Proof.
  intros Hkb Hcc Hfuel.
  assert (Hfound : ∀ t, target_of D pk issuer sig cc L = Some t →
                        t ∈ L ∧ verifies D pk issuer sig t = true).
  { intros t. unfold target_of.
    destruct (verifies D pk issuer sig cc) eqn:Hv.
    - by intros [= <-].
    - intros (Ht & _ & Hvt)%scan_target_Some. done. }
  split_and!.
  - by apply (find_target_spec D).
  - intros t Ht Hv. unfold target_of.
    destruct (verifies D pk issuer sig cc) eqn:Hvc; [by exists cc |].
    apply (scan_target_found D pk issuer sig cc t); [done | | done].
    intros ->. congruence.
  - done.
  - intros Hcomp t Ht. destruct (Hfound t Ht) as [_ Hv].
    unfold verifies in Hv. unfold live_component.
    destruct (D !! t) as [nd|]; [| done].
    apply andb_true_iff in Hv as [-> Hv]. apply Z.eqb_eq in Hv.
    by rewrite (Hcomp _ Hv).
  - by vm_compute.
  - by vm_compute.
  - by vm_compute.
Qed.

(** In the keyblock with the signature of the subkey out of place, the
    search from the primary key finds the subkey. *)
Lemma C10_search_tests_every_node_witness :
  @find_target Sample.sample 50 Sample.kb_misplaced (Some 0%nat)
    (mkPublicKey (1, 1) 100 1) (mkPublicKey (1, 1) 100 1)
    (mkSignature (1, 1) 1 8 0x18 200 [5%N] true true) 0%nat
  = Ok (Some 2%nat)
  ∧ live_component Sample.kb_misplaced 2%nat = true.
Proof.
  assert (Hkb : keyblock Sample.kb_misplaced Sample.kb_misplaced (Some 0%nat)
                  [0; 1; 2; 3; 4]%nat).
  { apply (reach_keyblock 50); [by vm_compute | compute_done]. }
  destruct (C10_search_tests_every_node (H := Sample.sample)
              Sample.kb_misplaced Sample.kb_misplaced (Some 0%nat)
              [0; 1; 2; 3; 4]%nat 50 (mkPublicKey (1, 1) 100 1)
              (mkPublicKey (1, 1) 100 1)
              (mkSignature (1, 1) 1 8 0x18 200 [5%N] true true) 0%nat
              Hkb ltac:(compute_done) ltac:(simpl; lia))
    as (Hfind & _ & _ & Hcomp & _).
  assert (Htarget : @target_of Sample.sample Sample.kb_misplaced
                      (mkPublicKey (1, 1) 100 1) (mkPublicKey (1, 1) 100 1)
                      (mkSignature (1, 1) 1 8 0x18 200 [5%N] true true) 0%nat
                      [0; 1; 2; 3; 4]%nat = Some 2%nat) by by vm_compute.
  split.
  - by rewrite Hfind, Htarget.
  - apply Hcomp; [| exact Htarget].
    intros p Hp. destruct p as [k|k|u|g|o]; try done; by vm_compute in Hp.
Defined.

(** * Properties beyond the specification *)

(** ** [sig_comparison] as an order *)

(** X1: [sig_comparison] is a comparison function as [qsort] needs one: the
    sign of the result flips when the arguments are exchanged, and the
    relation "not greater" is transitive; a signature compares equal to
    itself. *)
Theorem X1_sig_comparison_consistent `{Collaborators} :
  (∀ a b, Z.sgn (sig_comparison a b) = - Z.sgn (sig_comparison b a))
  ∧ (∀ a b c, sig_comparison a b ≤ 0 → sig_comparison b c ≤ 0 →
              sig_comparison a c ≤ 0)
  ∧ (∀ a, sig_comparison a a = 0).
Proof.
  split_and!.
  - apply sig_comparison_antisym.
  - apply sig_comparison_trans.
  - apply sig_comparison_refl.
Qed.

(** The loop over the MPIs is negative exactly when the first pair of MPIs
    that differ has the smaller one on the left. *)
Lemma sig_comparison_loop_neg (a b : PKT_signature) (todo i : nat) :
  sig_comparison_loop a b i todo < 0 ↔
  ∃ j, (j < todo)%nat
       ∧ (∀ j', (j' < j)%nat →
                nth (i + j') (data a) 0%N = nth (i + j') (data b) 0%N)
       ∧ (nth (i + j) (data a) 0%N < nth (i + j) (data b) 0%N)%N.
Proof.
  revert i. induction todo as [|todo IH]; intros i; simpl.
  { split; [lia | by intros (j & Hj & _); lia]. }
  pose proof (gcry_mpi_cmp_zero (nth i (data a) 0%N) (nth i (data b) 0%N))
    as Hz.
  destruct (Z.eqb_spec (gcry_mpi_cmp (nth i (data a) 0%N)
                          (nth i (data b) 0%N)) 0) as [E|E].
  - apply Hz in E. rewrite IH. split.
    + intros (j & Hj & Heq & Hlt). exists (S j). split_and!; [lia | |].
      * intros [|j'] Hj'; [by rewrite Nat.add_0_r |].
        rewrite <- Nat.add_succ_comm. apply Heq. lia.
      * by rewrite <- Nat.add_succ_comm.
    + intros ([|j] & Hj & Heq & Hlt).
      * rewrite Nat.add_0_r in Hlt. lia.
      * exists j. split_and!; [lia | |].
        -- intros j' Hj'. rewrite Nat.add_succ_comm. apply Heq. lia.
        -- by rewrite Nat.add_succ_comm.
  - assert (Hne : nth i (data a) 0%N ≠ nth i (data b) 0%N) by tauto.
    unfold gcry_mpi_cmp in *.
    destruct (N.compare_spec (nth i (data a) 0%N) (nth i (data b) 0%N))
      as [Heq|Hlt|Hgt]; [done | |].
    + split; [intros _ | done]. exists 0%nat.
      rewrite Nat.add_0_r. split_and!; [lia | intros j'; lia | done].
    + split; [done |]. intros ([|j] & Hj & Heq & Hlt).
      * rewrite Nat.add_0_r in Hlt. lia.
      * specialize (Heq 0%nat ltac:(lia)). rewrite Nat.add_0_r in Heq. done.
Qed.

(** X2: [sig_comparison] is the lexicographic order on the digest
    algorithm, then the number of MPIs of the public-key algorithm, then
    the MPIs below that number in turn: the result is negative exactly when
    the left signature is smaller in that order.  MPIs at or beyond the
    number [pubkey_get_nsig] gives are never read. *)
Theorem X2_sig_comparison_lexicographic `{Collaborators}
    (a b : PKT_signature) :
  sig_comparison a b < 0 ↔
  digest_algo a < digest_algo b
  ∨ (digest_algo a = digest_algo b
     ∧ pubkey_get_nsig (pubkey_algo a) < pubkey_get_nsig (pubkey_algo b))
  ∨ (digest_algo a = digest_algo b
     ∧ pubkey_get_nsig (pubkey_algo a) = pubkey_get_nsig (pubkey_algo b)
     ∧ ∃ j, (j < Z.to_nat (pubkey_get_nsig (pubkey_algo a)))%nat
            ∧ (∀ j', (j' < j)%nat →
                     nth j' (data a) 0%N = nth j' (data b) 0%N)
            ∧ (nth j (data a) 0%N < nth j (data b) 0%N)%N).
Proof.
  unfold sig_comparison.
  destruct (Z.ltb_spec (digest_algo a) (digest_algo b)) as [Hlt|Hge].
  { split; [by left | lia]. }
  destruct (Z.gtb_spec (digest_algo a) (digest_algo b)) as [Hgt|Hle].
  { split; [lia | intros [?|[[? _]|[? _]]]; lia]. }
  cbv zeta.
  destruct (Z.eqb_spec (pubkey_get_nsig (pubkey_algo a))
              (pubkey_get_nsig (pubkey_algo b))) as [En|En]; cbn [negb].
  - rewrite sig_comparison_loop_neg. simpl. split.
    + intros Hj. right. right. split_and!; [lia | done | done].
    + intros [?|[[_ ?]|(_ & _ & Hj)]]; [lia | lia | done].
  - destruct (Z.ltb_spec (pubkey_get_nsig (pubkey_algo a))
                (pubkey_get_nsig (pubkey_algo b))) as [Hn|Hn].
    + split; [intros _; right; left; split; [lia | done] | lia].
    + split; [lia | intros [?|[[_ ?]|(_ & ? & _)]]; lia].
Qed.

(** ** The keyblock a run leaves *)



(** X4: on a well-formed keyblock a run that returns leaves every node that
    is not a signature where it was: the primary key still heads the list
    the caller holds, and the components, the unhandled packets and the
    deleted nodes follow in the order they had. *)
Theorem X4_components_stay `{Collaborators} `{Hq : !QsortSpec} (fuel : nat)
    (h : heap_t) (pk_node : addr) (nd0 : kbnode_struct)
    (pk : PKT_public_key) (only_selected only_selfsigs : bool)
    (L0 : list addr) :
  keyblock h h (Some pk_node) L0 → h !! pk_node = Some nd0 →
  pkt nd0 = PktPublicKey pk → (2 * length L0 < fuel)%nat →
  match key_check_all_keysigs fuel true h (Some pk_node) only_selected
          only_selfsigs with
  | Ok (rv, s) =>
      ∃ L',
        keyblock h (st_heap s) (st_kb s) L'
        ∧ st_kb s = Some pk_node
        ∧ head L' = Some pk_node
        ∧ filter (λ a, sig_of h a = None) L'
          = filter (λ a, sig_of h a = None) L0
  | AssertFail => True
  | Fault | OutOfFuel => False
  end.
Proof.
  intros Hkb Hnd0 Hpk Hfuel.
  pose proof (key_check_spec h fuel h pk_node nd0 pk only_selected
                only_selfsigs L0 Hkb Hnd0 Hpk Hfuel) as Hspec.
  destruct (key_check_all_keysigs fuel true h (Some pk_node) only_selected
              only_selfsigs) as [[rv s]| | |] eqn:Hrun; try done.
  destruct Hspec as (_ & L' & Hpost). exists L'.
  pose proof (post_keyblock _ _ _ _ _ _ _ _ _ Hpost) as Hkb'.
  pose proof (post_head _ _ _ _ _ _ _ _ _ Hpost) as Hhead.
  split_and!; [done | done | |].
  { by rewrite <- (keyblock_head _ _ _ _ Hkb'). }
  destruct (key_check_sound h pk fuel true (Some pk_node) only_selected
              only_selfsigs rv s pk_node nd0 Hrun eq_refl Hnd0 Hpk)
    as (_ & _ & Hev).
  by apply (nonsig_nodes_stay h pk pk_node only_selected only_selfsigs L0 L' s).
Qed.

(** The keyblock with a signature out of place and a duplicate: the nodes
    0, 2 and 3 hold the two keys and the user id. *)
Lemma X4_components_stay_witness :
  match @key_check_all_keysigs Sample.sample 50 true More.kb_dup_misplaced
          (Some 0%nat) false false with
  | Ok (rv, s) =>
      rv = 1
      ∧ ∃ L',
        keyblock More.kb_dup_misplaced (st_heap s) (st_kb s) L'
        ∧ st_kb s = Some 0%nat
        ∧ head L' = Some 0%nat
        ∧ filter (λ a, sig_of More.kb_dup_misplaced a = None) L'
          = filter (λ a, sig_of More.kb_dup_misplaced a = None)
              [0; 1; 2; 3; 4; 5]%nat
  | _ => False
  end.
Proof.
  assert (Hkb : keyblock More.kb_dup_misplaced More.kb_dup_misplaced
                  (Some 0%nat) [0; 1; 2; 3; 4; 5]%nat).
  { apply (reach_keyblock 50); [by vm_compute | compute_done]. }
  pose proof (X4_components_stay (H := Sample.sample) (Hq := sample_qsort) 50
                More.kb_dup_misplaced 0%nat
                (mkNode (Some 1%nat) Sample.PK 0 0 0%nat) (mkPublicKey (1, 1) 100 1)
                false false [0; 1; 2; 3; 4; 5]%nat Hkb eq_refl eq_refl
                ltac:(simpl; lia)) as Hspec.
  destruct (@key_check_all_keysigs Sample.sample 50 true
              More.kb_dup_misplaced (Some 0%nat) false false)
    as [[rv s]| | |] eqn:Hrun; try (vm_compute in Hrun; discriminate).
  split; [| exact Hspec].
  vm_compute in Hrun. injection Hrun as <- <-. reflexivity.
Defined.

(** ** Runs that change nothing *)

(** X5: on a well-formed keyblock without a signature that is not deleted,
    the function returns 0 right after counting: whatever the two modes
    and the outcome of the allocation, it leaves the heap and every counter
    as they were and writes nothing, nor does it reach the assertions of
    the second loop or the search for missing self-signatures. *)
Theorem X5_no_signatures `{Collaborators} (fuel : nat) (alloc_ok : bool)
    (h : heap_t) (pk_node : addr) (nd0 : kbnode_struct)
    (pk : PKT_public_key) (only_selected only_selfsigs : bool)
    (L0 : list addr) :
  keyblock h h (Some pk_node) L0 → h !! pk_node = Some nd0 →
  pkt nd0 = PktPublicKey pk → (length L0 < fuel)%nat →
  (∀ a, a ∈ L0 → sig_of h a = None) →
  key_check_all_keysigs fuel alloc_ok h (Some pk_node) only_selected
    only_selfsigs
  = Ok (0, initial_state h (Some pk_node)).
Proof.
  intros Hkb Hnd0 Hpk Hfuel Hnone.
  assert (Hno : live_sigs h L0 = []).
  { destruct (live_sigs h L0) as [|[a sig] l] eqn:E; [done |].
    assert (Hin : (a, sig) ∈ live_sigs h L0) by (rewrite E; left).
    apply live_sigs_elem in Hin as [Ha Hs]. rewrite (Hnone a Ha) in Hs.
    done. }
  pose proof (keyblock_head _ _ _ _ Hkb) as Hhd.
  assert (Hin : pk_node ∈ L0).
  { destruct L0 as [|a L]; [done |]. injection Hhd as ->. left. }
  destruct (keyblock_elem _ _ _ _ _ Hkb Hin) as (nd & HD & Hh).
  assert (nd = nd0) as -> by congruence.
  unfold key_check_all_keysigs. rewrite Hh. cbn [bind with_next pkt].
  rewrite Hpk.
  pose proof (count_sigs_spec h h (Some pk_node) L0 [] 0 fuel) as Hc.
  rewrite <- Hhd in Hc. rewrite Hc by done. cbn [bind].
  by rewrite Hno.
Qed.

(** Two primary keys and a user id: the second primary key would stop the
    second loop at its assertion, which is not reached. *)
Lemma X5_no_signatures_witness :
  @key_check_all_keysigs Sample.sample 50 true More.kb_no_sigs (Some 0%nat)
    false false
  = Ok (0, initial_state More.kb_no_sigs (Some 0%nat)).
Proof.
  apply (X5_no_signatures (H := Sample.sample) 50 true More.kb_no_sigs 0%nat
           (mkNode (Some 1%nat) Sample.PK 0 0 0%nat) (mkPublicKey (1, 1) 100 1)
           false false [0; 1; 2]%nat).
  - apply (reach_keyblock 50); [by vm_compute | compute_done].
  - by vm_compute.
  - by vm_compute.
  - simpl. lia.
  - intros a Ha. repeat (apply elem_of_cons in Ha as [->|Ha]);
      [by vm_compute.. | by apply elem_of_nil in Ha].
Defined.

(** X6: a well-formed keyblock with one primary key (every primary key
    that is not deleted holds the key object of the head), no two
    signatures that compare equal and no signature that would be relocated
    is returned as it is: the function returns 0, the heap and the head are
    unchanged, and nothing is counted as removed or reordered. *)
Theorem X6_clean_keyblock_untouched `{Collaborators} `{Hq : !QsortSpec}
    (fuel : nat) (h : heap_t) (pk_node : addr) (nd0 : kbnode_struct)
    (pk : PKT_public_key) (only_selected only_selfsigs : bool)
    (L0 : list addr) :
  keyblock h h (Some pk_node) L0 → h !! pk_node = Some nd0 →
  pkt nd0 = PktPublicKey pk → (2 * length L0 < fuel)%nat →
  no_duplicates h L0 →
  all_placed h pk only_selected only_selfsigs L0 →
  (∀ m, m ∈ L0 → primary_ok h (pkt_ptr nd0) m) →
  ∃ s, key_check_all_keysigs fuel true h (Some pk_node) only_selected
         only_selfsigs = Ok (0, s)
       ∧ st_heap s = h ∧ st_kb s = Some pk_node
       ∧ dups s = 0 ∧ reordered s = 0 ∧ modified s = 0.
Proof.
  intros Hkb Hnd0 Hpk Hfuel Hnodup Hplaced Hprim.
  pose proof (key_check_spec h fuel h pk_node nd0 pk only_selected
                only_selfsigs L0 Hkb Hnd0 Hpk Hfuel) as Hspec.
  destruct (key_check_all_keysigs fuel true h (Some pk_node) only_selected
              only_selfsigs) as [[rv s]| | |]; try done.
  2:{ destruct Hspec. auto. }
  destruct Hspec as (-> & L' & Hpost).
  destruct (post_unchanged _ _ _ _ _ _ _ _ _ Hpost Hnodup Hplaced)
    as (_ & HK & HM & Hh).
  destruct (post_accounted _ _ _ _ _ _ _ _ _ Hpost) as (Hd & _ & Hr & _ & Hmod).
  rewrite count_events_killed, HK in Hd.
  rewrite count_events_moved, HM in Hr. simpl in Hd, Hr.
  assert (Hm0 : modified s = 0) by (by rewrite Hmod, Hd, Hr).
  exists s. rewrite Hm0. split_and!; try done.
  apply (post_head _ _ _ _ _ _ _ _ _ Hpost).
Qed.

(** A keyblock in order, with a bad signature: nothing is written. *)
Lemma X6_clean_keyblock_untouched_witness :
  ∃ s, @key_check_all_keysigs Sample.sample 50 true Sample.kb_bad
         (Some 0%nat) false false = Ok (0, s)
       ∧ st_heap s = Sample.kb_bad ∧ st_kb s = Some 0%nat
       ∧ dups s = 0 ∧ reordered s = 0 ∧ modified s = 0.
Proof.
  apply (X6_clean_keyblock_untouched (H := Sample.sample)
           (Hq := sample_qsort) 50 Sample.kb_bad 0%nat
           (mkNode (Some 1%nat) Sample.PK 0 0 0%nat) (mkPublicKey (1, 1) 100 1)
           false false [0; 1; 2; 3]%nat).
  - apply (reach_keyblock 50); [by vm_compute | compute_done].
  - by vm_compute.
  - by vm_compute.
  - simpl. lia.
  - intros a b sa sb Ha Hb Hsa Hsb Hc.
    repeat (apply elem_of_cons in Ha as [->|Ha]);
      try (by apply elem_of_nil in Ha);
      repeat (apply elem_of_cons in Hb as [->|Hb]);
      try (by apply elem_of_nil in Hb);
      try done; vm_compute in Hsa; vm_compute in Hsb; try done;
      injection Hsa as <-; injection Hsb as <-; by vm_compute in Hc.
  - intros m Hm. repeat (apply elem_of_cons in Hm as [->|Hm]);
      [by vm_compute.. | by apply elem_of_nil in Hm].
  - intros m Hm nd pk' Hnd Hdel Hpkt.
    repeat (apply elem_of_cons in Hm as [->|Hm]);
      try (by apply elem_of_nil in Hm); try done;
      vm_compute in Hnd; injection Hnd as <-; done.
Defined.

(** ** What the counters count *)

(** X7: on a well-formed keyblock a run that returns has unlinked exactly
    [dups] nodes, all of them signatures: the list is shorter by [dups]
    nodes and holds [dups] signatures less, and [dups] stays below the
    number of signatures the keyblock held. *)
Theorem X7_dups_counts_nodes `{Collaborators} `{Hq : !QsortSpec} (fuel : nat)
    (h : heap_t) (pk_node : addr) (nd0 : kbnode_struct)
    (pk : PKT_public_key) (only_selected only_selfsigs : bool)
    (L0 : list addr) :
  keyblock h h (Some pk_node) L0 → h !! pk_node = Some nd0 →
  pkt nd0 = PktPublicKey pk → (2 * length L0 < fuel)%nat →
  match key_check_all_keysigs fuel true h (Some pk_node) only_selected
          only_selfsigs with
  | Ok (rv, s) =>
      ∃ L',
        keyblock h (st_heap s) (st_kb s) L'
        ∧ Z.of_nat (length L') = Z.of_nat (length L0) - dups s
        ∧ Z.of_nat (length (live_sigs h L'))
          = Z.of_nat (length (live_sigs h L0)) - dups s
        ∧ 0 ≤ dups s
        ∧ (live_sigs h L0 ≠ [] →
           dups s < Z.of_nat (length (live_sigs h L0)))
  | AssertFail => True
  | Fault | OutOfFuel => False
  end.
Proof.
  intros Hkb Hnd0 Hpk Hfuel.
  pose proof (key_check_spec h fuel h pk_node nd0 pk only_selected
                only_selfsigs L0 Hkb Hnd0 Hpk Hfuel) as Hspec.
  destruct (key_check_all_keysigs fuel true h (Some pk_node) only_selected
              only_selfsigs) as [[rv s]| | |]; try done.
  destruct Hspec as (_ & L' & Hpost). exists L'.
  pose proof (post_perm _ _ _ _ _ _ _ _ _ Hpost) as Hperm.
  destruct (post_accounted _ _ _ _ _ _ _ _ _ Hpost) as (Hd & _).
  rewrite count_events_killed in Hd.
  assert (Hks : length (live_sigs h (killed_of (trace s)))
                = length (killed_of (trace s))).
  { apply live_sigs_all. intros a Ha.
    destruct (post_killed _ _ _ _ _ _ _ _ _ Hpost a Ha) as (sa & _ & _ & Hsa & _).
    by exists sa. }
  pose proof (live_sigs_perm h _ _ Hperm) as Hsp. rewrite live_sigs_app in Hsp.
  apply Permutation_length in Hperm, Hsp. rewrite length_app in Hperm, Hsp.
  pose proof (check_post_live_sigs _ _ _ _ _ _ _ _ _ Hpost) as Hlive.
  split_and!.
  - apply (post_keyblock _ _ _ _ _ _ _ _ _ Hpost).
  - lia.
  - lia.
  - lia.
  - intros Hne. apply Hlive in Hne.
    destruct (live_sigs h L') as [|x l]; [done |]. simpl in Hsp. lia.
Qed.

Lemma X7_dups_counts_nodes_witness :
  match @key_check_all_keysigs Sample.sample 50 true More.kb_dup_misplaced
          (Some 0%nat) false false with
  | Ok (rv, s) =>
      dups s = 1
      ∧ ∃ L',
        keyblock More.kb_dup_misplaced (st_heap s) (st_kb s) L'
        ∧ Z.of_nat (length L')
          = Z.of_nat (length [0; 1; 2; 3; 4; 5]%nat) - dups s
        ∧ Z.of_nat (length (live_sigs More.kb_dup_misplaced L'))
          = Z.of_nat (length (live_sigs More.kb_dup_misplaced
                                [0; 1; 2; 3; 4; 5]%nat)) - dups s
        ∧ 0 ≤ dups s
        ∧ (live_sigs More.kb_dup_misplaced [0; 1; 2; 3; 4; 5]%nat ≠ [] →
           dups s < Z.of_nat (length (live_sigs More.kb_dup_misplaced
                                        [0; 1; 2; 3; 4; 5]%nat)))
  | _ => False
  end.
Proof.
  assert (Hkb : keyblock More.kb_dup_misplaced More.kb_dup_misplaced
                  (Some 0%nat) [0; 1; 2; 3; 4; 5]%nat).
  { apply (reach_keyblock 50); [by vm_compute | compute_done]. }
  pose proof (X7_dups_counts_nodes (H := Sample.sample) (Hq := sample_qsort)
                50 More.kb_dup_misplaced 0%nat
                (mkNode (Some 1%nat) Sample.PK 0 0 0%nat) (mkPublicKey (1, 1) 100 1)
                false false [0; 1; 2; 3; 4; 5]%nat Hkb eq_refl eq_refl
                ltac:(simpl; lia)) as Hspec.
  destruct (@key_check_all_keysigs Sample.sample 50 true
              More.kb_dup_misplaced (Some 0%nat) false false)
    as [[rv s]| | |] eqn:Hrun; try (vm_compute in Hrun; discriminate).
  split; [| exact Hspec].
  vm_compute in Hrun. injection Hrun as <- <-. reflexivity.
Defined.

(** ** The assertions *)



(** The assertion compares the key objects, not the nodes: a second node
    that holds the object the head holds passes it. *)
Lemma shared_primary_key_passes :
  ∃ s, @key_check_all_keysigs Sample.sample 50 true More.kb_shared_primary
         (Some 0%nat) false false = Ok (0, s).
Proof. eexists. by vm_compute. Qed.

(** X9: on a well-formed keyblock whose only primary key is that of its
    head (every primary key that is not deleted holds the key object of the
    head), and with a verification that succeeds over components only, the
    function returns: no assertion fails, whatever the modes and the
    outcome of the allocation. *)
Theorem X9_no_assertion_fails `{Collaborators} `{Hq : !QsortSpec}
    (fuel : nat) (alloc_ok : bool) (h : heap_t) (pk_node : addr)
    (nd0 : kbnode_struct) (pk : PKT_public_key)
    (only_selected only_selfsigs : bool) (L0 : list addr) :
  keyblock h h (Some pk_node) L0 → h !! pk_node = Some nd0 →
  pkt nd0 = PktPublicKey pk → (2 * length L0 < fuel)%nat →
  (∀ m, m ∈ L0 → primary_ok h (pkt_ptr nd0) m) →
  components_only pk →
  ∃ rv s, key_check_all_keysigs fuel alloc_ok h (Some pk_node) only_selected
            only_selfsigs = Ok (rv, s).
Proof.
  intros Hkb Hnd0 Hpk Hfuel Hprim Hcomp. destruct alloc_ok.
  - pose proof (key_check_strong h fuel h pk_node nd0 pk only_selected
                  only_selfsigs L0 Hkb Hnd0 Hpk Hfuel) as Hspec.
    destruct (key_check_all_keysigs fuel true h (Some pk_node) only_selected
                only_selfsigs) as [[rv s]| | |]; try done.
    + by exists rv, s.
    + destruct Hspec as (_ & Hsafe & _). destruct Hsafe. done.
  - rewrite (key_check_alloc_failed h h pk_node nd0 pk _ _ L0)
      by (done || lia).
    destruct (decide (live_sigs h L0 = [])); by eexists _, _.
Qed.

Lemma X9_no_assertion_fails_witness :
  ∃ rv s, @key_check_all_keysigs Sample.sample 50 true Sample.kb_foreign
            (Some 0%nat) false false = Ok (rv, s).
Proof.
  apply (X9_no_assertion_fails (H := Sample.sample) (Hq := sample_qsort)
           50 true Sample.kb_foreign 0%nat
           (mkNode (Some 1%nat) Sample.PK 0 0 0%nat) (mkPublicKey (1, 1) 100 1)
           false false [0; 1; 2; 3; 4; 5; 6]%nat).
  - apply (reach_keyblock 50); [by vm_compute | compute_done].
  - by vm_compute.
  - by vm_compute.
  - simpl. lia.
  - intros m Hm nd pk' Hnd Hdel Hpkt.
    repeat (apply elem_of_cons in Hm as [->|Hm]);
      try (by apply elem_of_nil in Hm); try done;
      vm_compute in Hnd; injection Hnd as <-; done.
  - intros issuer sig p. simpl. unfold Sample.toy_verify.
    destruct p as [k|k|u|g|o]; try done;
      (destruct (bool_decide _) eqn:E; [by vm_compute in E | done]).
Defined.

(** ** What the function writes, whatever the heap holds *)



(** X11: in the keyblock a run leaves on a well-formed keyblock, every
    signature that was relocated stands behind a component that is not
    deleted and over which it verifies, with the primary key for a
    signature of the primary key and otherwise with the key [get_pubkey]
    returned, and no component that is not deleted stands between the two;
    the other nodes left stand in the order they had.  [reordered] is the
    number of the nodes relocated, each of them once, and it is positive
    exactly when the nodes left do not stand in the order they had. *)
Theorem X11_relocations_verify `{Collaborators} `{Hq : !QsortSpec}
    (fuel : nat) (h : heap_t) (pk_node : addr) (nd0 : kbnode_struct)
    (pk : PKT_public_key) (only_selected only_selfsigs : bool)
    (L0 : list addr) (rv : Z) (s : check_state) :
  keyblock h h (Some pk_node) L0 → h !! pk_node = Some nd0 →
  pkt nd0 = PktPublicKey pk → (2 * length L0 < fuel)%nat →
  key_check_all_keysigs fuel true h (Some pk_node) only_selected
    only_selfsigs = Ok (rv, s) →
  ∃ L', keyblock h (st_heap s) (st_kb s) L'
    ∧ reordered s = Z.of_nat (length (moved_of (trace s)))
    ∧ NoDup (moved_of (trace s))
    ∧ (0 < reordered s ↔ L' ≠ filter (λ a, a ∈ L') L0)
    ∧ filter (λ a, a ∉ moved_of (trace s)) L'
      = filter (λ a, a ∉ moved_of (trace s)) (filter (λ a, a ∈ L') L0)
    ∧ ∀ n, n ∈ moved_of (trace s) →
        ∃ sig issuer t ndt pre mid post,
          sig_of h n = Some sig
          ∧ issuer_of pk sig issuer
          ∧ h !! t = Some ndt ∧ is_deleted_kbnode ndt = false
          ∧ is_component (pkt ndt) = true
          ∧ check_signature_over_key_or_uid issuer sig pk (pkt ndt) = 0
          ∧ L' = pre ++ t :: mid ++ n :: post
          ∧ ∀ x, x ∈ mid → live_component h x = false.
Proof.
  intros Hkb Hnd0 Hpk Hfuel Hrun.
  destruct (key_check_left fuel true h pk_node nd0 pk only_selected
              only_selfsigs L0 rv s Hkb Hnd0 Hpk Hfuel Hrun)
    as (L' & HkL' & Hperm & _ & _ & Hr & Hre & _ & Hpost).
  destruct (Hpost eq_refl) as [Hpost' Hmore].
  exists L'. split_and!; try done.
  { apply (post_moved _ _ _ _ _ _ _ _ _ Hpost'). }
  { rewrite (filter_left _ _ _ (keyblock_NoDup _ _ _ _ Hkb) Hperm).
    apply (post_order _ _ _ _ _ _ _ _ _ Hpost'). }
  intros n Hn.
  destruct (more_behind _ _ _ _ _ _ _ Hmore n Hn)
    as (t & sig & issuer & Hsig & Hissuer & Hlive & Hver & Hctx).
  unfold verifies in Hver. unfold live_component in Hlive.
  destruct (h !! t) as [ndt|] eqn:Ht; [| done].
  apply andb_true_iff in Hver as [Hdel Hver].
  apply negb_true_iff in Hdel. apply Z.eqb_eq in Hver.
  rewrite Hdel in Hlive. simpl in Hlive.
  destruct (context_of_segment _ _ _ _ _ Hctx)
    as [[? _]|(pre & mid & post & -> & Hmid)]; [done |].
  exists sig, issuer, t, ndt, pre, mid, post. done.
Qed.

(** The signature of the subkey, found before the subkey: it is put
    directly behind the subkey. *)
Lemma X11_relocations_verify_witness :
  match @key_check_all_keysigs Sample.sample 50 true Sample.kb_misplaced
          (Some 0%nat) false false with
  | Ok (rv, s) =>
      moved_of (trace s) = [1%nat] ∧ reordered s = 1
      ∧ ∃ L', keyblock Sample.kb_misplaced (st_heap s) (st_kb s) L'
          ∧ L' ≠ filter (λ a, a ∈ L') [0; 1; 2; 3; 4]%nat
          ∧ ∃ sig issuer t ndt pre mid post,
              sig_of Sample.kb_misplaced 1%nat = Some sig
              ∧ @issuer_of Sample.sample (mkPublicKey (1, 1) 100 1) sig issuer
              ∧ Sample.kb_misplaced !! t = Some ndt
              ∧ is_deleted_kbnode ndt = false
              ∧ is_component (pkt ndt) = true
              ∧ Sample.toy_verify issuer sig (mkPublicKey (1, 1) 100 1)
                  (pkt ndt) = 0
              ∧ L' = pre ++ t :: mid ++ 1%nat :: post
              ∧ ∀ x, x ∈ mid → live_component Sample.kb_misplaced x = false
  | _ => False
  end.
Proof.
  destruct (@key_check_all_keysigs Sample.sample 50 true Sample.kb_misplaced
              (Some 0%nat) false false)
    as [[rv s]| | |] eqn:Hrun; try (vm_compute in Hrun; discriminate).
  destruct (X11_relocations_verify (H := Sample.sample) (Hq := sample_qsort)
              50 Sample.kb_misplaced 0%nat
              (mkNode (Some 1%nat) Sample.PK 0 0 0%nat)
              (mkPublicKey (1, 1) 100 1) false false [0; 1; 2; 3; 4]%nat
              rv s)
    as (L' & HkL' & Hr & _ & Hre & _ & Hmoved).
  - apply (reach_keyblock 50); [by vm_compute | compute_done].
  - by vm_compute.
  - by vm_compute.
  - simpl. lia.
  - exact Hrun.
  - vm_compute in Hrun. injection Hrun as <- <-.
    split; [reflexivity |]. split; [reflexivity |].
    exists L'. split; [exact HkL' |]. split; [apply Hre; reflexivity |].
    apply Hmoved. left.
Defined.

(** X12: in a run that returns, on any heap, a signature is counted as bad
    or relocated only when both of its algorithms are supported and the key
    of its issuer is at hand; and a missing issuer is counted only for a
    signature of a key other than the primary key that [get_pubkey] does
    not return.  The two counters are the numbers of these events. *)
Theorem X12_what_is_counted `{Collaborators} (fuel : nat) (alloc_ok : bool)
    (h : heap_t) (pk_node : addr) (nd0 : kbnode_struct)
    (pk : PKT_public_key) (only_selected only_selfsigs : bool) (rv : Z)
    (s : check_state) :
  key_check_all_keysigs fuel alloc_ok h (Some pk_node) only_selected
    only_selfsigs = Ok (rv, s) →
  h !! pk_node = Some nd0 → pkt nd0 = PktPublicKey pk →
  bad_signature s = count_events is_EvBad (trace s)
  ∧ missing_issuer s = count_events is_EvMissingIssuer (trace s)
  ∧ (∀ n sig, EvBad n sig ∈ trace s ∨ (∃ t, EvOutOfOrder n sig t ∈ trace s) →
       algorithms_supported sig ∧ ∃ issuer, issuer_of pk sig issuer)
  ∧ (∀ n sig, EvMissingIssuer n sig ∈ trace s →
       sig_of h n = Some sig
       ∧ keyid_cmp (pk_keyid pk) (keyid sig) ≠ 0
       ∧ get_pubkey (keyid sig) = None).
Proof.
  intros Hrun Hnd0 Hpk.
  destruct (key_check_accounted _ _ _ _ _ _ _ _ Hrun)
    as [(_ & Hm & _ & Hb & _) _].
  destruct (key_check_sound h pk _ _ _ _ _ _ _ pk_node nd0 Hrun eq_refl
              Hnd0 Hpk) as (_ & _ & Hev).
  rewrite Forall_forall in Hev. split_and!; [done | done | |].
  - intros n sig [Hin|[t Hin]].
    + by destruct (Hev _ Hin) as (_ & ? & ?).
    + destruct (Hev _ Hin) as (_ & ? & issuer & ndt & ? & _).
      split; [done |]. by exists issuer.
  - intros n sig Hin. apply (Hev _ Hin).
Qed.

(** A signature of a key that is not at hand, one of a foreign key that
    verifies nowhere and one that is out of place. *)
Lemma X12_what_is_counted_witness :
  match @key_check_all_keysigs Sample.sample 50 true Sample.kb_foreign
          (Some 0%nat) false false with
  | Ok (rv, s) =>
      (missing_issuer s = 1 ∧ bad_signature s = 1 ∧ reordered s = 1)
      ∧ bad_signature s = count_events is_EvBad (trace s)
      ∧ missing_issuer s = count_events is_EvMissingIssuer (trace s)
      ∧ (∀ n sig,
           EvBad n sig ∈ trace s ∨ (∃ t, EvOutOfOrder n sig t ∈ trace s) →
           @algorithms_supported Sample.sample sig
           ∧ ∃ issuer,
               @issuer_of Sample.sample (mkPublicKey (1, 1) 100 1) sig issuer)
      ∧ (∀ n sig, EvMissingIssuer n sig ∈ trace s →
           sig_of Sample.kb_foreign n = Some sig
           ∧ keyid_cmp (1, 1) (keyid sig) ≠ 0
           ∧ Sample.keyring (keyid sig) = None)
  | _ => False
  end.
Proof.
  destruct (@key_check_all_keysigs Sample.sample 50 true Sample.kb_foreign
              (Some 0%nat) false false)
    as [[rv s]| | |] eqn:Hrun; try (vm_compute in Hrun; discriminate).
  pose proof (X12_what_is_counted (H := Sample.sample) 50 true
                Sample.kb_foreign 0%nat
                (mkNode (Some 1%nat) Sample.PK 0 0 0%nat) (mkPublicKey (1, 1) 100 1)
                false false rv s Hrun eq_refl eq_refl) as Hspec.
  split; [| exact Hspec].
  vm_compute in Hrun. injection Hrun as <- <-. by vm_compute.
Defined.

(** ** The two modes *)



(** X14: the duplicates removed do not depend on the two modes: two runs on
    the same heap that return, whatever [only_selected] and
    [only_selfsigs] are in each, remove the same nodes and count the same
    [dups]. *)
Theorem X14_duplicates_whatever_the_modes `{Collaborators} (fuel : nat)
    (alloc_ok : bool) (h : heap_t) (kb : KBNODE) (sel self sel' self' : bool)
    (rv rv' : Z) (s s' : check_state) :
  key_check_all_keysigs fuel alloc_ok h kb sel self = Ok (rv, s) →
  key_check_all_keysigs fuel alloc_ok h kb sel' self' = Ok (rv', s') →
  dups s' = dups s ∧ killed_of (trace s') = killed_of (trace s).
Proof.
  intros Hrun Hrun'.
  apply key_check_inv in Hrun as (pk_node & nd & pk & -> & Hnd & Hpk & Hsh).
  apply key_check_inv in Hrun'
    as (pk_node' & nd' & pk' & [= <-] & Hnd' & Hpk' & Hsh').
  destruct Hsh as [Hc _ ->|nsigs Hc Hn Ha _ ->
                  |nsigs sigs s1 s2 missing a Hc Hn Ha Hsigs Hs1 Hs2 _ ->];
    destruct Hsh' as [Hc' _ ->|nsigs' Hc' Hn' Ha' _ ->
           |nsigs' sigs' s1' s2' missing' a' Hc' Hn' Ha' Hsigs' Hs1' Hs2' _ ->];
    try done; try congruence.
  simpl.
  apply placement_loop_effect, placement_keeps_dups in Hs2 as [-> ->].
  apply placement_loop_effect, placement_keeps_dups in Hs2' as [-> ->].
  assert (sigs' = sigs) as -> by congruence.
  assert (s1' = s1) as -> by congruence. done.
Qed.

Lemma X14_duplicates_whatever_the_modes_witness :
  match @key_check_all_keysigs Sample.sample 50 true More.kb_dup_misplaced
          (Some 0%nat) false false,
        @key_check_all_keysigs Sample.sample 50 true More.kb_dup_misplaced
          (Some 0%nat) true true with
  | Ok (rv, s), Ok (rv', s') =>
      dups s = 1 ∧ dups s' = dups s
      ∧ killed_of (trace s') = killed_of (trace s)
  | _, _ => False
  end.
Proof.
  destruct (@key_check_all_keysigs Sample.sample 50 true
              More.kb_dup_misplaced (Some 0%nat) false false)
    as [[rv s]| | |] eqn:Hrun; try (vm_compute in Hrun; discriminate).
  destruct (@key_check_all_keysigs Sample.sample 50 true
              More.kb_dup_misplaced (Some 0%nat) true true)
    as [[rv' s']| | |] eqn:Hrun'; try (vm_compute in Hrun'; discriminate).
  pose proof (X14_duplicates_whatever_the_modes (H := Sample.sample)
                _ _ _ _ _ _ _ _ _ _ _ _ Hrun Hrun') as Hspec.
  split; [| exact Hspec].
  vm_compute in Hrun. injection Hrun as <- <-. reflexivity.
Defined.

(** ** Bad signatures *)



(** ** One relocation *)

(** X16: when the second loop stands at a signature of a well-formed
    keyblock and the search ends at a component other than the current
    one, the signature is unlinked and linked in again right behind that
    component: the keyblock stays well-formed, the component is followed by
    the signature, the other nodes keep their order, and the relocation is
    counted. *)
Theorem X16_relocation_splices `{Collaborators} (D : heap_t)
    (pk issuer : PKT_public_key) (only_selected : bool) (s : check_state)
    (pre post : list addr) (c n t : addr) (sig : PKT_signature)
    (walk : nat) :
  keyblock D (st_heap s) (st_kb s) (pre ++ n :: post) →
  sig_of D n = Some sig →
  cc_of D only_selected None pre = Some c →
  (length (pre ++ n :: post) < walk)%nat →
  algorithms_supported sig →
  find_target walk (st_heap s) (st_kb s) pk issuer sig c = Ok (Some t) →
  t ≠ c → live_component D t = true →
  ∃ s' L',
    place_signature walk pk issuer s (prevp_of pre) c n sig = Ok s'
    ∧ keyblock D (st_heap s') (st_kb s') L'
    ∧ succ_in L' t = Some n
    ∧ filter (λ a, a ≠ n) L' = pre ++ post
    ∧ L' ≡ₚ pre ++ n :: post
    ∧ reordered s' = reordered s + 1 ∧ modified s' = 1
    ∧ dups s' = dups s ∧ bad_signature s' = bad_signature s
    ∧ trace s' = trace s ++ [EvOutOfOrder n sig t].
Proof.
  intros Hkb Hsig Hcc Hwalk [Hpka Hmda] Hfind Htc Hlive.
  pose proof (keyblock_NoDup _ _ _ _ Hkb) as Hnd.
  assert (Hc : c ∈ pre ++ n :: post).
  { apply cc_of_elem in Hcc as [?|?]; [| done]. apply elem_of_app. by left. }
  rewrite (find_target_spec D _ _ pk issuer sig c _ walk Hkb Hc Hwalk)
    in Hfind.
  injection Hfind as Htarget.
  assert (Hcl : classify D pk issuer (pre ++ n :: post) sig c = VMove t).
  { unfold classify. rewrite Hpka, Hmda. cbn [Z.eqb negb]. rewrite Htarget.
    by rewrite decide_False by congruence. }
  pose proof (place_signature_spec D pk only_selected walk issuer s pre post
                c n sig Hkb Hsig Hcc Hwalk) as Hplaced.
  rewrite Hcl in Hplaced. unfold placed in Hplaced. rewrite Hlive in Hplaced.
  destruct Hplaced as (h3 & kb3 & ndn & Hrun & Hkb3 & _).
  assert (Htin : t ∈ pre ++ n :: post ∧ t ≠ n).
  { apply (classify_move D pk issuer sig c t _ []) in Hcl as (Hin & _).
    split; [done |]. intros ->. apply sig_of_not_component in Hsig.
    congruence. }
  destruct Htin as [Htin Htn].
  assert (Hn : n ∈ pre ++ n :: post) by (apply elem_of_app; right; left).
  eexists _, (move_after t n (pre ++ n :: post)). split_and!.
  - exact Hrun.
  - exact Hkb3.
  - unfold move_after. rewrite succ_in_insert_after.
    + by rewrite decide_True.
    + apply list_elem_of_filter. done.
    + intros Hin. by apply list_elem_of_filter in Hin as [? _].
  - rewrite filter_move_after by (intros ?; done).
    by apply filter_ne_zipper.
  - by apply move_after_perm.
  - done.
  - done.
  - done.
  - done.
  - done.
Qed.

(** The second loop at node 1 of the keyblock whose subkey signature
    stands before the subkey at node 2. *)
Lemma X16_relocation_splices_witness :
  ∃ s' L',
    @place_signature Sample.sample 50 (mkPublicKey (1, 1) 100 1)
      (mkPublicKey (1, 1) 100 1)
      (initial_state Sample.kb_misplaced (Some 0%nat)) (prevp_of [0%nat])
      0%nat 1%nat (mkSignature (1, 1) 1 8 0x18 200 [5%N] true true) = Ok s'
    ∧ keyblock Sample.kb_misplaced (st_heap s') (st_kb s') L'
    ∧ succ_in L' 2%nat = Some 1%nat
    ∧ filter (λ a, a ≠ 1%nat) L' = [0%nat] ++ [2; 3; 4]%nat
    ∧ L' ≡ₚ [0%nat] ++ 1%nat :: [2; 3; 4]%nat
    ∧ reordered s' = 0 + 1 ∧ modified s' = 1
    ∧ dups s' = 0 ∧ bad_signature s' = 0
    ∧ trace s'
      = [] ++ [EvOutOfOrder 1%nat
                 (mkSignature (1, 1) 1 8 0x18 200 [5%N] true true) 2%nat].
Proof.
  apply (X16_relocation_splices (H := Sample.sample) Sample.kb_misplaced
           (mkPublicKey (1, 1) 100 1) (mkPublicKey (1, 1) 100 1) false
           (initial_state Sample.kb_misplaced (Some 0%nat))
           [0%nat] [2; 3; 4]%nat 0%nat 1%nat 2%nat
           (mkSignature (1, 1) 1 8 0x18 200 [5%N] true true) 50).
  - apply (reach_keyblock 50); [by vm_compute | compute_done].
  - by vm_compute.
  - by vm_compute.
  - simpl. lia.
  - split; by vm_compute.
  - by vm_compute.
  - lia.
  - by vm_compute.
Defined.

(** ** The flags of the signatures *)



(** ** Which duplicate is kept *)

(** X18: of the nodes whose signatures compare equal, the function keeps
    the one that [qsort] has put last in the sorted array: a node of the
    array is in the keyblock the run leaves exactly when no entry behind it
    in the array holds an equal signature, and otherwise it has been
    unlinked and released.  So the node that survives is the choice of
    [qsort]. *)
Theorem X18_kept_is_last_of_its_equals `{Collaborators} `{Hq : !QsortSpec}
    (fuel : nat) (h : heap_t) (pk_node : addr) (nd0 : kbnode_struct)
    (pk : PKT_public_key) (only_selected only_selfsigs : bool)
    (L0 : list addr) :
  keyblock h h (Some pk_node) L0 → h !! pk_node = Some nd0 →
  pkt nd0 = PktPublicKey pk → (2 * length L0 < fuel)%nat →
  match key_check_all_keysigs fuel true h (Some pk_node) only_selected
          only_selfsigs with
  | Ok (rv, s) =>
      ∃ L', keyblock h (st_heap s) (st_kb s) L'
        ∧ ∀ pre x post,
            qsort sig_entry_cmp (live_sigs h L0) = pre ++ x :: post →
            (x.1 ∈ L' ↔ ∀ y, y ∈ post → sig_comparison x.2 y.2 ≠ 0)
            ∧ (x.1 ∉ L' → st_heap s !! x.1 = None)
  | AssertFail => True
  | Fault | OutOfFuel => False
  end.
Proof.
  intros Hkb Hnd0 Hpk Hfuel.
  pose proof (key_check_spec h fuel h pk_node nd0 pk only_selected
                only_selfsigs L0 Hkb Hnd0 Hpk Hfuel) as Hspec.
  destruct (key_check_all_keysigs fuel true h (Some pk_node) only_selected
              only_selfsigs) as [[rv s]| | |] eqn:Hrun; try done.
  clear Hspec.
  destruct (key_check_left fuel true h pk_node nd0 pk only_selected
              only_selfsigs L0 rv s Hkb Hnd0 Hpk Hfuel Hrun)
    as (L' & HkL' & HpermL & Hfreed & _).
  exists L'. split; [done |].
  pose proof (key_check_killed h h (Some pk_node) L0 fuel only_selected
                only_selfsigs rv s Hkb ltac:(lia) Hrun) as HK.
  pose proof (qsort_perm _ sig_entry_cmp (live_sigs h L0)
                sig_entry_cmp_consistent) as Hperm.
  pose proof (qsort_sorted _ sig_entry_cmp (live_sigs h L0)
                sig_entry_cmp_consistent) as Hsorted.
  assert (Hnd : NoDup (qsort sig_entry_cmp (live_sigs h L0)).*1).
  { rewrite Hperm. apply live_sigs_NoDup. by eapply keyblock_NoDup. }
  pose proof (keyblock_NoDup _ _ _ _ Hkb) as HndL.
  intros pre x post Heq.
  assert (HxL0 : x.1 ∈ L0).
  { assert (x ∈ live_sigs h L0) as Hx.
    { rewrite <- Hperm, Heq. apply elem_of_app. right. left. }
    destruct x as [a sig]. by apply live_sigs_elem in Hx as [Hx _]. }
  assert (Hiff : x.1 ∈ killed_of (trace s)
                 ↔ ∃ y, y ∈ post ∧ sig_comparison x.2 y.2 = 0).
  { rewrite HK.
    destruct (qsort sig_entry_cmp (live_sigs h L0)) as [|first rest];
      [by destruct pre |].
    split.
    - intros Hx. by eapply dedup_kills_later.
    - intros (y & Hy & Hc).
      apply list_elem_of_split in Hy as (mid & post' & ->).
      by eapply dedup_kills_earlier. }
  assert (Hleft : x.1 ∈ L' ↔ x.1 ∉ killed_of (trace s)).
  { rewrite HpermL in HndL, HxL0.
    apply NoDup_app in HndL as (_ & Hdisj & _).
    apply elem_of_app in HxL0 as [Hx|Hx].
    - split; [| done]. intros Hx'. by destruct (Hdisj _ Hx).
    - split; [| done]. intros _ Hx'. by destruct (Hdisj _ Hx'). }
  split.
  - rewrite Hleft, Hiff. split.
    + intros Hno y Hy Hc. apply Hno. by exists y.
    + intros Hall (y & Hy & Hc). by apply (Hall y).
  - intros Hx. rewrite Hleft in Hx. apply dec_stable in Hx.
    by destruct (Hfreed _ Hx) as (_ & ? & _).
Qed.

(** With merge sort for [qsort], the certification at node 5 comes before
    its copy at node 4 in the sorted array: node 5 is unlinked and node 4
    stays. *)
Lemma X18_kept_is_last_of_its_equals_witness :
  match @key_check_all_keysigs Sample.sample 50 true More.kb_dup_misplaced
          (Some 0%nat) false false with
  | Ok (rv, s) =>
      (@qsort Sample.sample _ (@sig_entry_cmp Sample.sample)
         (live_sigs More.kb_dup_misplaced [0; 1; 2; 3; 4; 5]%nat)).*1
      = [1; 5; 4]%nat
      ∧ ∃ L', keyblock More.kb_dup_misplaced (st_heap s) (st_kb s) L'
              ∧ (5%nat ∉ L') ∧ 4%nat ∈ L' ∧ 1%nat ∈ L'
              ∧ st_heap s !! 5%nat = None
  | _ => False
  end.
Proof.
  assert (Hkb : keyblock More.kb_dup_misplaced More.kb_dup_misplaced
                  (Some 0%nat) [0; 1; 2; 3; 4; 5]%nat).
  { apply (reach_keyblock 50); [by vm_compute | compute_done]. }
  pose proof (X18_kept_is_last_of_its_equals (H := Sample.sample)
                (Hq := sample_qsort) 50 More.kb_dup_misplaced 0%nat
                (mkNode (Some 1%nat) Sample.PK 0 0 0%nat)
                (mkPublicKey (1, 1) 100 1)
                false false [0; 1; 2; 3; 4; 5]%nat Hkb eq_refl eq_refl
                ltac:(simpl; lia)) as Hspec.
  destruct (@key_check_all_keysigs Sample.sample 50 true
              More.kb_dup_misplaced (Some 0%nat) false false)
    as [[rv s]| | |] eqn:Hrun; try (vm_compute in Hrun; discriminate).
  split; [reflexivity |].
  destruct Hspec as (L' & HkL' & Hsorted).
  set (s1 := mkSignature (1, 1) 1 8 0x18 200 [5%N] true true).
  set (s2 := mkSignature (1, 1) 1 8 0x13 300 [6%N] true true).
  destruct (Hsorted [] (1%nat, s1) [(5%nat, s2); (4%nat, s2)] eq_refl)
    as [H1 _].
  destruct (Hsorted [(1%nat, s1)] (5%nat, s2) [(4%nat, s2)] eq_refl)
    as [H5 H5'].
  destruct (Hsorted [(1%nat, s1); (5%nat, s2)] (4%nat, s2) [] eq_refl)
    as [H4 _].
  cbn [fst snd] in H1, H5, H5', H4.
  assert (Hn5 : 5%nat ∉ L').
  { intros Hin. apply (proj1 H5 Hin (4%nat, s2)); [left | done]. }
  exists L'. split; [exact HkL' |]. split; [exact Hn5 |].
  split; [| split; [| exact (H5' Hn5)]].
  - apply (proj2 H4). intros y Hy. by apply elem_of_nil in Hy.
  - apply (proj2 H1). intros y Hy.
    repeat (apply elem_of_cons in Hy as [->|Hy]); [done.. |].
    by apply elem_of_nil in Hy.
Defined.
